(** * prometheus-slurm-exporter: the node collector (nodes.go)

    A shallow embedding of [nodes.go]: the parser of the [sinfo --json]
    payload, the three aggregation passes over the node records and the
    [Collect] method of [NodesCollector], followed by the properties the
    specification states about them.

    Conventions of the embedding
    - Go's [float64] is IEEE 754 binary64: [spec_float] of the Standard
      Library at precision 53 and maximal exponent 1024, with [+=] as
      [SFadd] (round to nearest, ties to even) and [> 0] as [SFltb].
    - Go's [string] is a byte string: [string]; [[]byte] is [list byte].
    - [map[string]T] is [gmap string T].  The order in which [range]
      visits a map is chosen by the Go runtime; it is a parameter
      ([RangeOrder]) of every function that ranges over a map.
    - A channel that is only sent to is the list of the values sent, in
      the order of the sends; code that sends and may panic is a [proc]. *)

From Stdlib Require Import ZArith NArith List Bool Lia.
From Stdlib Require Import Strings.Byte Strings.Ascii.
From Stdlib Require Import Floats.SpecFloat.
From stdpp Require Import gmap strings list fin_maps.

Local Open Scope string_scope.
Local Open Scope list_scope.

#[local] Set Warnings "-register-all".

(** ** float64 *)

Module Float64.

Definition prec : Z := 53.
Definition emax : Z := 1024.

Definition t : Type := spec_float.

(** The zero value of a [float64] variable. *)
Definition zero : t := S754_zero false.

#[global] Instance eq_dec : EqDecision t.
Proof. solve_decision. Defined.

(** [x + y] *)
Definition add (x y : t) : t := SFadd prec emax x y.

(** [x < y]; false as soon as one side is a NaN. *)
Definition ltb (x y : t) : bool := SFltb x y.

(** [x > 0] *)
Definition gt0 (x : t) : bool := ltb zero x.

(** The float64 nearest to an integer (conversion of an integer
    literal). *)
Definition of_Z (z : Z) : t := binary_normalize prec emax z 0 false.

(** [x / y] *)
Definition div (x y : t) : t := SFdiv prec emax x y.

(** The float64 of a natural number. *)
Definition of_N (n : N) : t := of_Z (Z.of_N n).

(** The integer part of a finite float that is not negative, [0] for
    any other float. *)
Definition to_N (x : t) : N :=
  match x with
  | S754_finite false m e => Z.to_N (Z.shiftl (Zpos m) e)
  | _ => 0%N
  end.

(** [x] is the float64 of a natural number. *)
Definition nat_valued (x : t) : bool := bool_decide (x = of_N (to_N x)).

(** Left-to-right sum of a sequence starting from the zero value:
    what [acc += x] in a loop over the sequence leaves in a fresh
    [acc]. *)
Definition sum (l : list t) : t := fold_left add l zero.

End Float64.

Abbreviation float64 := Float64.t.

(** ** Data model *)

Module NodeMetrics.
Record t := mk {
  Hostname : string;
  Cpus : float64;
  RealMemory : float64;
  FreeMemory : float64;
  Partitions : list string;
  State : string;
  AllocMemory : float64;
  AllocCpus : float64;
  IdleCpus : float64;
  Weight : float64;
  CpuLoad : float64;
  Architecture : string
}.

(** The zero value of the struct. *)
Definition zero : t :=
  mk "" Float64.zero Float64.zero Float64.zero [] "" Float64.zero
     Float64.zero Float64.zero Float64.zero Float64.zero "".
End NodeMetrics.

Module PartitionMetrics.
Record t := mk {
  Cpus : float64;
  RealMemory : float64;
  FreeMemory : float64;
  AllocMemory : float64;
  AllocCpus : float64;
  CpuLoad : float64;
  IdleCpus : float64;
  Weight : float64
}.

(** [new(PartitionMetrics)] *)
Definition new : t :=
  mk Float64.zero Float64.zero Float64.zero Float64.zero
     Float64.zero Float64.zero Float64.zero Float64.zero.
End PartitionMetrics.

Module CpuSummaryMetrics.
Record t := mk {
  Total : float64;
  Idle : float64;
  Load : float64;
  PerState : gmap string float64
}.
End CpuSummaryMetrics.

Module MemSummaryMetrics.
Record t := mk {
  AllocMemory : float64;
  FreeMemory : float64;
  RealMemory : float64
}.

(** [new(MemSummaryMetrics)] *)
Definition new : t := mk Float64.zero Float64.zero Float64.zero.
End MemSummaryMetrics.

(** The eight numeric fields a partition aggregate shares with a node
    record. *)
Inductive field :=
  | FCpus | FRealMemory | FFreeMemory | FAllocMemory
  | FAllocCpus | FIdleCpus | FWeight | FCpuLoad.

#[global] Instance field_eq_dec : EqDecision field.
Proof. solve_decision. Defined.

Definition all_fields : list field :=
  [FCpus; FRealMemory; FFreeMemory; FAllocMemory;
   FAllocCpus; FIdleCpus; FWeight; FCpuLoad].

Definition node_field (f : field) (n : NodeMetrics.t) : float64 :=
  match f with
  | FCpus => NodeMetrics.Cpus n
  | FRealMemory => NodeMetrics.RealMemory n
  | FFreeMemory => NodeMetrics.FreeMemory n
  | FAllocMemory => NodeMetrics.AllocMemory n
  | FAllocCpus => NodeMetrics.AllocCpus n
  | FIdleCpus => NodeMetrics.IdleCpus n
  | FWeight => NodeMetrics.Weight n
  | FCpuLoad => NodeMetrics.CpuLoad n
  end.

Definition partition_field (f : field) (p : PartitionMetrics.t) : float64 :=
  match f with
  | FCpus => PartitionMetrics.Cpus p
  | FRealMemory => PartitionMetrics.RealMemory p
  | FFreeMemory => PartitionMetrics.FreeMemory p
  | FAllocMemory => PartitionMetrics.AllocMemory p
  | FAllocCpus => PartitionMetrics.AllocCpus p
  | FIdleCpus => PartitionMetrics.IdleCpus p
  | FWeight => PartitionMetrics.Weight p
  | FCpuLoad => PartitionMetrics.CpuLoad p
  end.

(** ** Aggregation *)

(** Body of the inner loop of [fetchNodePartitionMetrics]: look the
    partition up, allocate a zero aggregate on a miss, add the eight
    fields of the node. *)
Definition addNodeToPartition (node : NodeMetrics.t)
    (partitions : gmap string PartitionMetrics.t) (p : string)
  : gmap string PartitionMetrics.t :=
  let partition :=
    match partitions !! p with
    | Some partition => partition
    | None => PartitionMetrics.new
    end in
  <[p := PartitionMetrics.mk
      (Float64.add (PartitionMetrics.Cpus partition) (NodeMetrics.Cpus node))
      (Float64.add (PartitionMetrics.RealMemory partition) (NodeMetrics.RealMemory node))
      (Float64.add (PartitionMetrics.FreeMemory partition) (NodeMetrics.FreeMemory node))
      (Float64.add (PartitionMetrics.AllocMemory partition) (NodeMetrics.AllocMemory node))
      (Float64.add (PartitionMetrics.AllocCpus partition) (NodeMetrics.AllocCpus node))
      (Float64.add (PartitionMetrics.CpuLoad partition) (NodeMetrics.CpuLoad node))
      (Float64.add (PartitionMetrics.IdleCpus partition) (NodeMetrics.IdleCpus node))
      (Float64.add (PartitionMetrics.Weight partition) (NodeMetrics.Weight node))]>
    partitions.

(** Body of the outer loop: the inner [range node.Partitions]. *)
Definition addNode (partitions : gmap string PartitionMetrics.t)
    (node : NodeMetrics.t) : gmap string PartitionMetrics.t :=
  fold_left (addNodeToPartition node) (NodeMetrics.Partitions node) partitions.

Definition fetchNodePartitionMetrics (nodes : list NodeMetrics.t)
  : gmap string PartitionMetrics.t :=
  fold_left addNode nodes ∅.

(** Body of the loop of [fetchNodeTotalCpuMetrics].  Reading a key a Go
    map does not hold yields the zero value. *)
Definition addNodeCpu (s : CpuSummaryMetrics.t) (node : NodeMetrics.t)
  : CpuSummaryMetrics.t :=
  let perState := CpuSummaryMetrics.PerState s in
  let st := NodeMetrics.State node in
  CpuSummaryMetrics.mk
    (Float64.add (CpuSummaryMetrics.Total s) (NodeMetrics.Cpus node))
    (Float64.add (CpuSummaryMetrics.Idle s) (NodeMetrics.IdleCpus node))
    (Float64.add (CpuSummaryMetrics.Load s) (NodeMetrics.CpuLoad node))
    (<[st := Float64.add (default Float64.zero (perState !! st))
                         (NodeMetrics.Cpus node)]> perState).

Definition fetchNodeTotalCpuMetrics (nodes : list NodeMetrics.t)
  : CpuSummaryMetrics.t :=
  fold_left addNodeCpu nodes
    (CpuSummaryMetrics.mk Float64.zero Float64.zero Float64.zero ∅).

Definition addNodeMem (s : MemSummaryMetrics.t) (node : NodeMetrics.t)
  : MemSummaryMetrics.t :=
  MemSummaryMetrics.mk
    (Float64.add (MemSummaryMetrics.AllocMemory s) (NodeMetrics.AllocMemory node))
    (Float64.add (MemSummaryMetrics.FreeMemory s) (NodeMetrics.FreeMemory node))
    (Float64.add (MemSummaryMetrics.RealMemory s) (NodeMetrics.RealMemory node)).

Definition fetchNodeTotalMemMetrics (nodes : list NodeMetrics.t)
  : MemSummaryMetrics.t :=
  fold_left addNodeMem nodes MemSummaryMetrics.new.

(** ** Errors *)

(** A Go [error] value.  The program only ever reads the message of an
    error ([err.Error()]); the errors that reach [nodes.go] are the
    value [errors.New] builds, the two failures of [json.Unmarshal], and
    whatever the fetcher reports.  An [UnmarshalTypeError] carries the
    fields its message is printed from: the kind of the JSON value, the
    Go type it does not fit, and the struct and the path of field names
    at which it was met (both empty outside any struct). *)
Inductive error :=
  | errorString (s : string)
  | SyntaxError (msg : string)
  | UnmarshalTypeError (value : string) (type : string)
                       (structName : string) (fieldPath : string)
  | FetchError (msg : string).

(** [errors.New(text)] *)
Definition errors_New (text : string) : error := errorString text.

(** [err.Error()] *)
Definition Error (err : error) : string :=
  match err with
  | errorString s => s
  | SyntaxError msg => msg
  | UnmarshalTypeError value type structName fieldPath =>
      match structName, fieldPath with
      | EmptyString, EmptyString =>
          ("json: cannot unmarshal " ++ value ++ " into Go value of type " ++ type)%string
      | _, _ =>
          ("json: cannot unmarshal " ++ value ++ " into Go struct field "
           ++ structName ++ "." ++ fieldPath ++ " of type " ++ type)%string
      end
  | FetchError msg => msg
  end.

Definition with_result {A B} (r : error + A) (k : A -> B) : error + B :=
  match r with
  | inl err => inl err
  | inr a => inr (k a)
  end.

(** ** encoding/json

    [json.Unmarshal] first scans the whole text (a syntax error is
    reported before anything is stored), then walks the document and
    stores each member of an object into the struct field whose [json]
    tag matches the member's key.  The scanner is a parameter of the
    development ([json_scan] below); the walk over the document is
    modelled here for the static types of [sinfoResponse]:
    - a key matches a tag exactly or after case folding;
    - a key that matches no tag is skipped;
    - [null] leaves a [string] or [float64] as it is and sets a slice
      or map to [nil];
    - a value is decoded into what the destination already holds: a
      member whose key occurs again is stored into the same field, and
      element [i] of an array into element [i] of the slice the field
      holds, or into the cell of its backing array at [i] when the slice
      is shorter, or into a fresh zero value when there is no such
      cell; the slice is then cut to the length of the array, the cells
      past it staying in the backing array; an empty array stores a
      fresh empty slice;
    - any other combination is an [UnmarshalTypeError], which names
      the struct and the path of fields it was met at; the first one
      met is the result (the library goes on decoding after it, into a
      struct [parseNodeMetrics] then never reads). *)

Module Json.

Inductive value :=
  | Null
  | Bool (b : bool)
  | Number (x : float64)
  | String (s : string)
  | Array (elements : list value)
  | Object (members : list (string * value)).

(** The description of a document's kind in an [UnmarshalTypeError]. *)
Definition kind (v : value) : string :=
  match v with
  | Null => "null"
  | Bool _ => "bool"
  | Number _ => "number"
  | String _ => "string"
  | Array _ => "array"
  | Object _ => "object"
  end.

(** [d.errorContext]: the struct being filled and the names of the
    fields entered on the way to it from the root. *)
Record errorContext := mkContext {
  Struct : string;
  FieldStack : list string
}.

(** No struct entered yet. *)
Definition root : errorContext := mkContext "" [].

(** The context of the value of field [name] of struct [structName]. *)
Definition enter (ctx : errorContext) (structName name : string) : errorContext :=
  mkContext structName (FieldStack ctx ++ [name]).

(** The error for a value that does not fit a destination of type
    [type], with the context added ([d.addErrorContext]). *)
Definition typeError (ctx : errorContext) (v : value) (type : string) : error :=
  UnmarshalTypeError (kind v) type (Struct ctx) (String.concat "." (FieldStack ctx)).

Definition upper (c : Ascii.ascii) : Ascii.ascii :=
  let n := Ascii.N_of_ascii c in
  if ((97 <=? n) && (n <=? 122))%N then Ascii.ascii_of_N (n - 32) else c.

(** Case folding of a key: ASCII letters to upper case; the two
    non-ASCII runes that fold to an ASCII letter, U+017F (long s,
    bytes 0xC5 0xBF) and U+212A (Kelvin sign, bytes 0xE2 0x84 0xAA), to [S] and
    [K]. *)
Fixpoint foldName (s : string) : string :=
  match s with
  | EmptyString => EmptyString
  | String.String c r =>
      match c, r with
      | "197"%char, String.String "191"%char r' =>
          String.String "S"%char (foldName r')
      | "226"%char, String.String "132"%char (String.String "170"%char r') =>
          String.String "K"%char (foldName r')
      | _, _ => String.String (upper c) (foldName r)
      end
  end.

(** Does [key] select the field tagged [tag]? *)
Definition matches (tag key : string) : bool :=
  bool_decide (key = tag) || bool_decide (foldName key = foldName tag).

Definition decode_string (ctx : errorContext) (v : value) (cur : string)
  : error + string :=
  match v with
  | Null => inr cur
  | String s => inr s
  | _ => inl (typeError ctx v "string")
  end.

Definition decode_float64 (ctx : errorContext) (v : value) (cur : float64)
  : error + float64 :=
  match v with
  | Null => inr cur
  | Number x => inr x
  | _ => inl (typeError ctx v "float64")
  end.

(** A slice in memory: its elements, and the cells of its backing
    array past its length.  A cell the backing array does not have
    reads as the zero value once the array has grown to it, so only the
    cells that were written are kept. *)
Record slice (A : Type) := mkSlice {
  elems : list A;
  spare : list A
}.
Arguments mkSlice {A} elems spare.
Arguments elems {A} s.
Arguments spare {A} s.

(** A [nil] slice, and the slice [reflect.MakeSlice(t, 0, 0)]. *)
Definition empty {A} : slice A := mkSlice [] [].

(** Decode the elements of an array in order, element [i] into cell
    [i] of [cells], into a fresh copy of [zero] past them; the result
    is the decoded elements and the cells left over.  The first
    failure is the result. *)
Fixpoint decode_elements {A} (dec : value -> A -> error + A) (zero : A)
    (l : list value) (cells : list A) : error + (list A * list A) :=
  match l with
  | [] => inr ([], cells)
  | v :: l' =>
      match dec v (hd zero cells) with
      | inl err => inl err
      | inr a =>
          match decode_elements dec zero l' (tl cells) with
          | inl err => inl err
          | inr r => inr (a :: r.1, r.2)
          end
      end
  end.

(** An array into the slice [cur]: into its elements and the cells
    behind them, the slice cut to the length of the array; [null] and
    the empty array drop the backing array. *)
Definition decode_slice {A} (ctx : errorContext) (type : string)
    (dec : value -> A -> error + A) (zero : A) (v : value) (cur : slice A)
  : error + slice A :=
  match v with
  | Null => inr empty
  | Array [] => inr empty
  | Array l =>
      with_result (decode_elements dec zero l (elems cur ++ spare cur))
                  (fun r => mkSlice r.1 r.2)
  | _ => inl (typeError ctx v type)
  end.

(** Store the members of an object in order; the first failure is
    the result. *)
Fixpoint decode_members {A} (store : string -> value -> A -> error + A)
    (members : list (string * value)) (cur : A) : error + A :=
  match members with
  | [] => inr cur
  | (key, v) :: members' =>
      match store key v cur with
      | inl err => inl err
      | inr cur' => decode_members store members' cur'
      end
  end.

Definition decode_struct {A} (ctx : errorContext) (type : string)
    (store : string -> value -> A -> error + A) (v : value) (cur : A)
  : error + A :=
  match v with
  | Null => inr cur
  | Object members => decode_members store members cur
  | _ => inl (typeError ctx v type)
  end.

(** [map[string]interface{}]: every document fits [interface{}]. *)
Definition decode_map (ctx : errorContext) (v : value) (cur : gmap string value)
  : error + gmap string value :=
  match v with
  | Null => inr ∅
  | Object members =>
      inr (fold_left (fun m kv => <[kv.1 := kv.2]> m) members cur)
  | _ => inl (typeError ctx v "map[string]interface {}")
  end.

End Json.

(** The first tag of [tags] that [key] selects. *)
Definition select_field {T} (tags : list (string * T)) (key : string) : option T :=
  snd <$> List.find (fun tag => Json.matches tag.1 key) tags.

Module NodeMetricsJson.
Import NodeMetrics.

(** The [json:"..."] tags of [NodeMetrics]. *)
Inductive tag :=
  | hostname | cpus | real_memory | free_memory | partitions | state
  | alloc_memory | alloc_cpus | idle_cpus | weight | cpu_load | architecture.

#[global] Instance node_tag_eq_dec : EqDecision tag.
Proof. solve_decision. Defined.

Definition tags : list (string * tag) :=
  [("hostname", hostname); ("cpus", cpus); ("real_memory", real_memory);
   ("free_memory", free_memory); ("partitions", partitions); ("state", state);
   ("alloc_memory", alloc_memory); ("alloc_cpus", alloc_cpus);
   ("idle_cpus", idle_cpus); ("weight", weight); ("cpu_load", cpu_load);
   ("architecture", architecture)].

(** A [NodeMetrics] value in memory while the decoder fills it: the
    struct, and the cells of the backing array of [Partitions] past
    its length. *)
Record cell := mkCell {
  node : NodeMetrics.t;
  stale : list string
}.

(** A fresh [NodeMetrics{}]. *)
Definition zeroCell : cell := mkCell NodeMetrics.zero [].

(** The context of the value of the field tagged [name]. *)
Definition at_field (ctx : Json.errorContext) (name : string) : Json.errorContext :=
  Json.enter ctx "NodeMetrics" name.

Definition store (ctx : Json.errorContext) (key : string) (v : Json.value)
    (c : cell) : error + cell :=
  let n := node c in
  match select_field tags key with
  | None => inr c
  | Some hostname =>
      with_result (Json.decode_string (at_field ctx "hostname") v (Hostname n)) (fun x =>
        mkCell
          (mk x (Cpus n) (RealMemory n) (FreeMemory n) (Partitions n) (State n)
              (AllocMemory n) (AllocCpus n) (IdleCpus n) (Weight n) (CpuLoad n)
              (Architecture n))
          (stale c))
  | Some cpus =>
      with_result (Json.decode_float64 (at_field ctx "cpus") v (Cpus n)) (fun x =>
        mkCell
          (mk (Hostname n) x (RealMemory n) (FreeMemory n) (Partitions n) (State n)
              (AllocMemory n) (AllocCpus n) (IdleCpus n) (Weight n) (CpuLoad n)
              (Architecture n))
          (stale c))
  | Some real_memory =>
      with_result (Json.decode_float64 (at_field ctx "real_memory") v (RealMemory n)) (fun x =>
        mkCell
          (mk (Hostname n) (Cpus n) x (FreeMemory n) (Partitions n) (State n)
              (AllocMemory n) (AllocCpus n) (IdleCpus n) (Weight n) (CpuLoad n)
              (Architecture n))
          (stale c))
  | Some free_memory =>
      with_result (Json.decode_float64 (at_field ctx "free_memory") v (FreeMemory n)) (fun x =>
        mkCell
          (mk (Hostname n) (Cpus n) (RealMemory n) x (Partitions n) (State n)
              (AllocMemory n) (AllocCpus n) (IdleCpus n) (Weight n) (CpuLoad n)
              (Architecture n))
          (stale c))
  | Some partitions =>
      with_result
        (Json.decode_slice (at_field ctx "partitions") "[]string"
           (Json.decode_string (at_field ctx "partitions")) ""
           v (Json.mkSlice (Partitions n) (stale c)))
        (fun x =>
           mkCell
             (mk (Hostname n) (Cpus n) (RealMemory n) (FreeMemory n) (Json.elems x)
                 (State n) (AllocMemory n) (AllocCpus n) (IdleCpus n) (Weight n)
                 (CpuLoad n) (Architecture n))
             (Json.spare x))
  | Some state =>
      with_result (Json.decode_string (at_field ctx "state") v (State n)) (fun x =>
        mkCell
          (mk (Hostname n) (Cpus n) (RealMemory n) (FreeMemory n) (Partitions n) x
              (AllocMemory n) (AllocCpus n) (IdleCpus n) (Weight n) (CpuLoad n)
              (Architecture n))
          (stale c))
  | Some alloc_memory =>
      with_result (Json.decode_float64 (at_field ctx "alloc_memory") v (AllocMemory n)) (fun x =>
        mkCell
          (mk (Hostname n) (Cpus n) (RealMemory n) (FreeMemory n) (Partitions n) (State n)
              x (AllocCpus n) (IdleCpus n) (Weight n) (CpuLoad n)
              (Architecture n))
          (stale c))
  | Some alloc_cpus =>
      with_result (Json.decode_float64 (at_field ctx "alloc_cpus") v (AllocCpus n)) (fun x =>
        mkCell
          (mk (Hostname n) (Cpus n) (RealMemory n) (FreeMemory n) (Partitions n) (State n)
              (AllocMemory n) x (IdleCpus n) (Weight n) (CpuLoad n)
              (Architecture n))
          (stale c))
  | Some idle_cpus =>
      with_result (Json.decode_float64 (at_field ctx "idle_cpus") v (IdleCpus n)) (fun x =>
        mkCell
          (mk (Hostname n) (Cpus n) (RealMemory n) (FreeMemory n) (Partitions n) (State n)
              (AllocMemory n) (AllocCpus n) x (Weight n) (CpuLoad n)
              (Architecture n))
          (stale c))
  | Some weight =>
      with_result (Json.decode_float64 (at_field ctx "weight") v (Weight n)) (fun x =>
        mkCell
          (mk (Hostname n) (Cpus n) (RealMemory n) (FreeMemory n) (Partitions n) (State n)
              (AllocMemory n) (AllocCpus n) (IdleCpus n) x (CpuLoad n)
              (Architecture n))
          (stale c))
  | Some cpu_load =>
      with_result (Json.decode_float64 (at_field ctx "cpu_load") v (CpuLoad n)) (fun x =>
        mkCell
          (mk (Hostname n) (Cpus n) (RealMemory n) (FreeMemory n) (Partitions n) (State n)
              (AllocMemory n) (AllocCpus n) (IdleCpus n) (Weight n) x
              (Architecture n))
          (stale c))
  | Some architecture =>
      with_result (Json.decode_string (at_field ctx "architecture") v (Architecture n)) (fun x =>
        mkCell
          (mk (Hostname n) (Cpus n) (RealMemory n) (FreeMemory n) (Partitions n) (State n)
              (AllocMemory n) (AllocCpus n) (IdleCpus n) (Weight n) (CpuLoad n)
              x)
          (stale c))
  end.

(** A value into a [NodeMetrics] in memory. *)
Definition decodeCell (ctx : Json.errorContext) : Json.value -> cell -> error + cell :=
  Json.decode_struct ctx "main.NodeMetrics" (store ctx).

(** [json.Unmarshal] of a document into a [NodeMetrics] variable
    whose [Partitions] has no cells past its length, as the zero value
    has none. *)
Definition decode (v : Json.value) (n : t) : error + t :=
  with_result (decodeCell Json.root v (mkCell n [])) node.
End NodeMetricsJson.

Module sinfoResponse.
Record t := mk {
  Meta : gmap string Json.value;
  Errors : list string;
  Nodes : list NodeMetrics.t
}.

(** [sinfoResponse{}] *)
Definition zero : t := mk ∅ [] [].

Inductive tag := meta | errors | nodes.

#[global] Instance response_tag_eq_dec : EqDecision tag.
Proof. solve_decision. Defined.

Definition tags : list (string * tag) :=
  [("meta", meta); ("errors", errors); ("nodes", nodes)].

(** A [sinfoResponse] in memory while the decoder fills it: the two
    slices with their backing arrays. *)
Record mem := mkMem {
  memMeta : gmap string Json.value;
  memErrors : Json.slice string;
  memNodes : Json.slice NodeMetricsJson.cell
}.

(** The struct the program reads. *)
Definition view (m : mem) : t :=
  mk (memMeta m) (Json.elems (memErrors m))
     (map NodeMetricsJson.node (Json.elems (memNodes m))).

(** A struct whose slices have no cells past their lengths, as the
    [nil] slices of [sinfoResponse{}] have none. *)
Definition load (r : t) : mem :=
  mkMem (Meta r) (Json.mkSlice (Errors r) [])
        (Json.mkSlice (map (fun n => NodeMetricsJson.mkCell n []) (Nodes r)) []).

(** The context of the value of the field tagged [name]. *)
Definition at_field (ctx : Json.errorContext) (name : string) : Json.errorContext :=
  Json.enter ctx "sinfoResponse" name.

Definition store (ctx : Json.errorContext) (key : string) (v : Json.value)
    (m : mem) : error + mem :=
  match select_field tags key with
  | None => inr m
  | Some meta =>
      with_result (Json.decode_map (at_field ctx "meta") v (memMeta m))
                  (fun x => mkMem x (memErrors m) (memNodes m))
  | Some errors =>
      with_result
        (Json.decode_slice (at_field ctx "errors") "[]string"
           (Json.decode_string (at_field ctx "errors")) "" v (memErrors m))
        (fun x => mkMem (memMeta m) x (memNodes m))
  | Some nodes =>
      with_result
        (Json.decode_slice (at_field ctx "nodes") "[]main.NodeMetrics"
           (NodeMetricsJson.decodeCell (at_field ctx "nodes"))
           NodeMetricsJson.zeroCell v (memNodes m))
        (fun x => mkMem (memMeta m) (memErrors m) x)
  end.

Definition decodeMem : Json.value -> mem -> error + mem :=
  Json.decode_struct Json.root "main.sinfoResponse" (store Json.root).

(** [json.Unmarshal(data, &r)] after the scan, for a struct [r] whose
    slices have no cells past their lengths. *)
Definition decode (doc : Json.value) (r : t) : error + t :=
  with_result (decodeMem doc (load r)) view.
End sinfoResponse.

(** ** Parser *)

Section Parser.

(** The scanner of [encoding/json]: the document a text denotes, or
    the syntax error. *)
Variable json_scan : list byte -> error + Json.value.

(** [json.Unmarshal(data, &squeue)]: the struct after a successful
    call, or the error ([parseNodeMetrics] does not read the struct
    after a failure). *)
Definition json_Unmarshal (data : list byte) (squeue : sinfoResponse.t)
  : error + sinfoResponse.t :=
  match json_scan data with
  | inl err => inl err
  | inr doc => sinfoResponse.decode doc squeue
  end.

(** [parseNodeMetrics]; the calls to [slog.Error] leave no trace in
    the result and are not modelled. *)
Definition parseNodeMetrics (jsonNodeList : list byte)
  : list NodeMetrics.t * option error :=
  let squeue := sinfoResponse.zero in
  match json_Unmarshal jsonNodeList squeue with
  | inl err => ([], Some err)
  | inr squeue =>
      match sinfoResponse.Errors squeue with
      | e :: _ => ([], Some (errors_New e))
      | [] => (sinfoResponse.Nodes squeue, None)
      end
  end.

End Parser.


(** ** prometheus/client_golang *)

Module prometheus.

(** [prometheus.NewDesc(fqName, help, variableLabels, nil)] *)
Record Desc := NewDesc {
  fqName : string;
  help : string;
  variableLabels : list string
}.

Inductive ValueType := CounterValue | GaugeValue | UntypedValue.

(** [prometheus.NewCounter(CounterOpts{Name, Help})]: a counter is
    its options and the number of [Inc] calls so far. *)
Record Counter := mkCounter {
  Name : string;
  Help : string;
  count : N
}.

Definition NewCounter (name help : string) : Counter := mkCounter name help 0.

(** [c.Inc()] *)
Definition Inc (c : Counter) : Counter :=
  mkCounter (Name c) (Help c) (count c + 1).

(** What travels on a [chan<- prometheus.Metric]: a constant metric
    built by [MustNewConstMetric], or a counter with the value it has
    when it is sent. *)
Inductive Metric :=
  | constMetric (desc : Desc) (valType : ValueType) (val : float64)
                (labelValues : list string)
  | counterMetric (c : Counter).

(** [prometheus.MustNewConstMetric(desc, valueType, value, labelValues...)]:
    the metric, or [None] when the library panics because the number
    of label values differs from the number of variable labels of the
    descriptor. *)
Definition MustNewConstMetric (desc : Desc) (valueType : ValueType)
    (value : float64) (labelValues : list string) : option Metric :=
  if decide (length labelValues = length (variableLabels desc))
  then Some (constMetric desc valueType value labelValues)
  else None.

#[global] Instance Desc_eq_dec : EqDecision Desc.
Proof. solve_decision. Defined.
#[global] Instance ValueType_eq_dec : EqDecision ValueType.
Proof. solve_decision. Defined.
#[global] Instance Counter_eq_dec : EqDecision Counter.
Proof. solve_decision. Defined.
#[global] Instance Metric_eq_dec : EqDecision Metric.
Proof. solve_decision. Defined.

End prometheus.

(** ** The Go runtime: [range] over a map *)

(** The order in which one [range] statement visits the entries of a
    map: some enumeration of the entries, each once. *)
Record RangeOrder := {
  range : forall {A}, gmap string A -> list (string * A);
  range_entries : forall A (m : gmap string A), range m ≡ₚ map_to_list m
}.

(** The enumeration stdpp computes, for running the model. *)
Definition listOrder : RangeOrder :=
  {| range := fun A m => map_to_list m;
     range_entries := fun A m => reflexivity (map_to_list m) |}.

(** The opposite enumeration: another order a [range] may take. *)
Definition reverseOrder : RangeOrder :=
  {| range := fun A m => rev (map_to_list m);
     range_entries := fun A m => Permutation.Permutation_sym
                                   (Permutation.Permutation_rev (map_to_list m)) |}.

(** ** Code that sends on the channel

    A piece of code that sends metrics on [ch] and may panic: the
    metrics it has sent, in order, and its result unless it
    panicked. *)

Definition proc (A : Type) : Type := list prometheus.Metric * option A.

Definition ret {A} (a : A) : proc A := ([], Some a).

Definition panic {A} : proc A := ([], None).

Definition bind {A B} (p : proc A) (k : A -> proc B) : proc B :=
  match p with
  | (sent, None) => (sent, None)
  | (sent, Some a) => let '(sent', r) := k a in (sent ++ sent', r)
  end.

Declare Scope proc_scope.
Delimit Scope proc_scope with proc.
Bind Scope proc_scope with proc.

Notation "p ;; q" := (bind p (fun _ => q))
  (at level 100, q at level 200, right associativity) : proc_scope.

Local Open Scope proc_scope.

(** [ch <- m] *)
Definition send (m : prometheus.Metric) : proc unit := ([m], Some tt).

(** [if b { p }] *)
Definition when (b : bool) (p : proc unit) : proc unit :=
  if b then p else ret tt.

(** [for _, a := range l { body }] *)
Fixpoint forEach {A} (l : list A) (body : A -> proc unit) : proc unit :=
  match l with
  | [] => ret tt
  | a :: l' => body a ;; forEach l' body
  end.

(** [ch <- prometheus.MustNewConstMetric(desc, prometheus.GaugeValue, value, labelValues...)] *)
Definition sendGauge (desc : prometheus.Desc) (value : float64)
    (labelValues : list string) : proc unit :=
  match prometheus.MustNewConstMetric desc prometheus.GaugeValue value labelValues with
  | Some m => send m
  | None => panic
  end.

(** ** The collector *)

(** [SlurmFetcher]: an interface with the one method
    [Fetch() ([]byte, error)].  A fetcher of type [F] returns its
    result together with the fetcher after the call. *)
Class SlurmFetcher (F : Type) := {
  Fetch : F -> (list byte * option error) * F
}.

Section Collector.

Import prometheus.

Context {F : Type} `{SlurmFetcher F}.

(** [AtomicThrottledCache] is declared outside [nodes.go]; the
    collector only holds one. *)
Context {AtomicThrottledCache : Type}.

Variable json_scan : list byte -> error + Json.value.

Record NodesCollector := mkNodesCollector {
  (* collector state *)
  cache : AtomicThrottledCache;
  fetcher : F;
  (* partition summary metrics *)
  partitionCpus : Desc;
  partitionRealMemory : Desc;
  partitionFreeMemory : Desc;
  partitionAllocMemory : Desc;
  partitionAllocCpus : Desc;
  partitionIdleCpus : Desc;
  partitionWeight : Desc;
  partitionCpuLoad : Desc;
  (* cpu summary stats *)
  cpusPerState : Desc;
  totalCpus : Desc;
  totalIdleCpus : Desc;
  totalCpuLoad : Desc;
  (* memory summary stats *)
  totalRealMemory : Desc;
  totalFreeMemory : Desc;
  totalAllocMemory : Desc;
  (* exporter metrics *)
  nodeScrapeErrors : Counter
}.

(** [NewNodeCollecter], from the cache [NewAtomicThrottledCache()]
    returns and the fetcher [NewCliFetcher("sinfo", "--json")]
    returns. *)
Definition NewNodeCollecter (newCache : AtomicThrottledCache) (newFetcher : F)
  : NodesCollector :=
  {| cache := newCache;
     fetcher := newFetcher;
     partitionCpus := NewDesc "slurm_partition_total_cpus" "Total cpus per partition" ["partition"];
     partitionRealMemory := NewDesc "slurm_partition_real_mem" "Real mem per partition" ["partition"];
     partitionFreeMemory := NewDesc "slurm_partition_free_mem" "Free mem per partition" ["partition"];
     partitionAllocMemory := NewDesc "slurm_partition_alloc_mem" "Alloc mem per partition" ["partition"];
     partitionAllocCpus := NewDesc "slurm_partition_alloc_cpus" "Alloc cpus per partition" ["partition"];
     partitionIdleCpus := NewDesc "slurm_partition_idle_cpus" "Idle cpus per partition" ["partition"];
     partitionWeight := NewDesc "slurm_partition_weight" "Total node weight per partition??" ["partition"];
     partitionCpuLoad := NewDesc "slurm_partition_cpu_load" "Total cpu load per partition" ["partition"];
     totalCpus := NewDesc "slurm_cpus_total" "Total cpus" [];
     totalIdleCpus := NewDesc "slurm_cpus_idle" "Total idle cpus" [];
     totalCpuLoad := NewDesc "slurm_cpu_load" "Total cpu load" [];
     cpusPerState := NewDesc "slurm_cpus_per_state" "Cpus per state i.e alloc, mixed, draining, etc." ["state"];
     totalRealMemory := NewDesc "slurm_mem_real" "Total real mem" [];
     totalFreeMemory := NewDesc "slurm_mem_free" "Total free mem" [];
     totalAllocMemory := NewDesc "slurm_mem_alloc" "Total alloc mem" [];
     nodeScrapeErrors := NewCounter "slurm_node_scrape_error" "slurm node info scrape errors" |}.

(** The collector with its fetcher replaced by the fetcher a call
    left behind. *)
Definition withFetcher (nc : NodesCollector) (fetcher' : F) : NodesCollector :=
  mkNodesCollector (cache nc) fetcher'
    (partitionCpus nc) (partitionRealMemory nc) (partitionFreeMemory nc)
    (partitionAllocMemory nc) (partitionAllocCpus nc) (partitionIdleCpus nc)
    (partitionWeight nc) (partitionCpuLoad nc)
    (cpusPerState nc) (totalCpus nc) (totalIdleCpus nc) (totalCpuLoad nc)
    (totalRealMemory nc) (totalFreeMemory nc) (totalAllocMemory nc)
    (nodeScrapeErrors nc).

(** [nc.nodeScrapeErrors.Inc()] *)
Definition incScrapeErrors (nc : NodesCollector) : NodesCollector :=
  mkNodesCollector (cache nc) (fetcher nc)
    (partitionCpus nc) (partitionRealMemory nc) (partitionFreeMemory nc)
    (partitionAllocMemory nc) (partitionAllocCpus nc) (partitionIdleCpus nc)
    (partitionWeight nc) (partitionCpuLoad nc)
    (cpusPerState nc) (totalCpus nc) (totalIdleCpus nc) (totalCpuLoad nc)
    (totalRealMemory nc) (totalFreeMemory nc) (totalAllocMemory nc)
    (Inc (nodeScrapeErrors nc)).

(** The descriptor [Collect] uses for a field of a partition
    aggregate. *)
Definition partitionDesc (nc : NodesCollector) (f : field) : Desc :=
  match f with
  | FCpus => partitionCpus nc
  | FRealMemory => partitionRealMemory nc
  | FFreeMemory => partitionFreeMemory nc
  | FAllocMemory => partitionAllocMemory nc
  | FAllocCpus => partitionAllocCpus nc
  | FIdleCpus => partitionIdleCpus nc
  | FWeight => partitionWeight nc
  | FCpuLoad => partitionCpuLoad nc
  end.

(** Body of the loop over [partitionMetrics]: the eight guarded
    sends, in the order of the source. *)
Definition collectPartition (nc : NodesCollector)
    (entry : string * PartitionMetrics.t) : proc unit :=
  let '(partition, metric) := entry in
  when (Float64.gt0 (PartitionMetrics.Cpus metric))
    (sendGauge (partitionCpus nc) (PartitionMetrics.Cpus metric) [partition]) ;;
  when (Float64.gt0 (PartitionMetrics.RealMemory metric))
    (sendGauge (partitionRealMemory nc) (PartitionMetrics.RealMemory metric) [partition]) ;;
  when (Float64.gt0 (PartitionMetrics.FreeMemory metric))
    (sendGauge (partitionFreeMemory nc) (PartitionMetrics.FreeMemory metric) [partition]) ;;
  when (Float64.gt0 (PartitionMetrics.AllocMemory metric))
    (sendGauge (partitionAllocMemory nc) (PartitionMetrics.AllocMemory metric) [partition]) ;;
  when (Float64.gt0 (PartitionMetrics.AllocCpus metric))
    (sendGauge (partitionAllocCpus nc) (PartitionMetrics.AllocCpus metric) [partition]) ;;
  when (Float64.gt0 (PartitionMetrics.IdleCpus metric))
    (sendGauge (partitionIdleCpus nc) (PartitionMetrics.IdleCpus metric) [partition]) ;;
  when (Float64.gt0 (PartitionMetrics.Weight metric))
    (sendGauge (partitionWeight nc) (PartitionMetrics.Weight metric) [partition]) ;;
  when (Float64.gt0 (PartitionMetrics.CpuLoad metric))
    (sendGauge (partitionCpuLoad nc) (PartitionMetrics.CpuLoad metric) [partition]).

(** [Collect] between the successful parse and its [return], in three
    groups: partition set, node cpu summary set, node mem summary
    set. *)
Definition collectPartitions (ro : RangeOrder) (nc : NodesCollector)
    (nodeMetrics : list NodeMetrics.t) : proc unit :=
  let partitionMetrics := fetchNodePartitionMetrics nodeMetrics in
  forEach (range ro partitionMetrics) (collectPartition nc).

Definition collectCpus (ro : RangeOrder) (nc : NodesCollector)
    (nodeMetrics : list NodeMetrics.t) : proc unit :=
  let nodeCpuMetrics := fetchNodeTotalCpuMetrics nodeMetrics in
  sendGauge (totalCpus nc) (CpuSummaryMetrics.Total nodeCpuMetrics) [] ;;
  sendGauge (totalIdleCpus nc) (CpuSummaryMetrics.Idle nodeCpuMetrics) [] ;;
  sendGauge (totalCpuLoad nc) (CpuSummaryMetrics.Load nodeCpuMetrics) [] ;;
  forEach (range ro (CpuSummaryMetrics.PerState nodeCpuMetrics))
    (fun '(state, cpus) => sendGauge (cpusPerState nc) cpus [state]).

Definition collectMem (nc : NodesCollector)
    (nodeMetrics : list NodeMetrics.t) : proc unit :=
  let memMetrics := fetchNodeTotalMemMetrics nodeMetrics in
  sendGauge (totalRealMemory nc) (MemSummaryMetrics.RealMemory memMetrics) [] ;;
  sendGauge (totalFreeMemory nc) (MemSummaryMetrics.FreeMemory memMetrics) [] ;;
  sendGauge (totalAllocMemory nc) (MemSummaryMetrics.AllocMemory memMetrics) [].

Definition collectNodes (ro : RangeOrder) (nc : NodesCollector)
    (nodeMetrics : list NodeMetrics.t) : proc unit :=
  collectPartitions ro nc nodeMetrics ;;
  collectCpus ro nc nodeMetrics ;;
  collectMem nc nodeMetrics.

(** [Collect] from the point where [nc.fetcher.Fetch()] has returned
    [(sinfo, err)] up to its [return]: the collector and what the
    body did on the channel.  The calls of [slog.Error] are not
    modelled. *)
Definition collectFetched (ro : RangeOrder) (nc : NodesCollector)
    (fetched : list byte * option error) : NodesCollector * proc unit :=
  let '(sinfo, err) := fetched in
  match err with
  | Some _ => (incScrapeErrors nc, ret tt)
  | None =>
      let '(nodeMetrics, err) := parseNodeMetrics json_scan sinfo in
      match err with
      | Some _ => (incScrapeErrors nc, ret tt)
      | None => (nc, collectNodes ro nc nodeMetrics)
      end
  end.

(** What a call of [Collect] leaves: the collector, the metrics sent
    on [ch] in order, and whether the call returned ([false]: it
    panicked). *)
Record result := mkResult {
  after : NodesCollector;
  sent : list Metric;
  returned : bool
}.

(** The deferred function: it runs when the body returns or panics
    and sends the counter. *)
Definition deferred (r : NodesCollector * proc unit) : result :=
  let '(nc, (ch, r)) := r in
  mkResult nc (ch ++ [counterMetric (nodeScrapeErrors nc)])
           (match r with Some _ => true | None => false end).

(** [Collect].  [ro] is the order the runtime picks for the two
    [range] loops of this call. *)
Definition Collect (ro : RangeOrder) (nc : NodesCollector) : result :=
  let '(fetched, fetcher') := Fetch (fetcher nc) in
  deferred (collectFetched ro (withFetcher nc fetcher') fetched).

(** *** Concurrent invocations

    The scrape driver may call [Collect] from several goroutines.  An
    invocation is observed at the two points where it meets the
    fetcher.  The first is the call of [nc.fetcher.Fetch()], the first
    statement of [Collect] after the [defer]: the call reaches the
    fetcher, which from then on has one more call to its account, and
    the answer the call will return is the one the fetcher gives to
    this call.  The second is the return of the call, after which the
    rest of [Collect] runs with that answer and touches shared state
    only through the atomic counter.  No statement of [Collect] reads
    [nc.cache] or waits for another invocation, so an invocation that
    has entered may always call [Fetch]. *)

Inductive invocation :=
  | Entered
  | InFetch (fetched : list byte * option error)
  | Returned (sent : list Metric).

Record system := mkSystem {
  collector : NodesCollector;
  invocations : list invocation
}.

(** One step of invocation [i]: an invocation that has entered calls
    [Fetch]; one that is inside [Fetch] receives the answer to its
    call and runs the rest of [Collect] to its end. *)
Definition stepInvocation (ro : RangeOrder) (s : system) (i : nat) : system :=
  match invocations s !! i with
  | Some Entered =>
      let '(fetched, fetcher') := Fetch (fetcher (collector s)) in
      mkSystem (withFetcher (collector s) fetcher')
               (<[i := InFetch fetched]> (invocations s))
  | Some (InFetch fetched) =>
      let r := deferred (collectFetched ro (collector s) fetched) in
      mkSystem (after r) (<[i := Returned (sent r)]> (invocations s))
  | _ => s
  end.

(** The system after the steps of a schedule. *)
Definition run (ro : RangeOrder) (schedule : list nat) (s : system) : system :=
  fold_left (stepInvocation ro) schedule s.

(** [n] invocations that have entered [Collect]. *)
Definition start (nc : NodesCollector) (n : nat) : system :=
  mkSystem nc (replicate n Entered).

Definition isInFetch (v : invocation) : bool :=
  match v with
  | InFetch _ => true
  | _ => false
  end.

(** The number of [Fetch] calls that have begun and not returned. *)
Definition inFlight (s : system) : nat :=
  length (List.filter isInFetch (invocations s)).

End Collector.

(** ** The two-node fixture of the end-to-end scenario *)

Module Fixture.
Definition node1 : NodeMetrics.t :=
  NodeMetrics.mk "node1" (Float64.of_Z 4) Float64.zero Float64.zero
    ["batch"] "idle" Float64.zero Float64.zero Float64.zero
    Float64.zero Float64.zero "".
Definition node2 : NodeMetrics.t :=
  NodeMetrics.mk "node2" (Float64.of_Z 8) Float64.zero Float64.zero
    ["batch"; "gpu"] "alloc" Float64.zero Float64.zero Float64.zero
    Float64.zero Float64.zero "".
Definition nodes : list NodeMetrics.t := [node1; node2].

(** The document of the scenario's payload. *)
Definition doc : Json.value :=
  Json.Object
    [("meta", Json.Object []);
     ("errors", Json.Array []);
     ("nodes", Json.Array
        [Json.Object [("hostname", Json.String "node1");
                      ("cpus", Json.Number (Float64.of_Z 4));
                      ("state", Json.String "idle");
                      ("partitions", Json.Array [Json.String "batch"])];
         Json.Object [("hostname", Json.String "node2");
                      ("cpus", Json.Number (Float64.of_Z 8));
                      ("state", Json.String "alloc");
                      ("partitions", Json.Array [Json.String "batch"; Json.String "gpu"])]])].

(** A payload whose error list is not empty although it carries a
    node. *)
Definition failedDoc : Json.value :=
  Json.Object
    [("errors", Json.Array [Json.String "slurmctld unreachable"; Json.String "timeout"]);
     ("nodes", Json.Array
        [Json.Object [("hostname", Json.String "node1");
                      ("cpus", Json.Number (Float64.of_Z 4))]])].

(** A payload with a node entry that has no [state] member. *)
Definition statelessDoc : Json.value :=
  Json.Object
    [("nodes", Json.Array
        [Json.Object [("hostname", Json.String "node3");
                      ("cpus", Json.Number (Float64.of_Z 2))]])].

(** A scanner for the three payloads, told apart by their first byte. *)
Definition scan (data : list byte) : error + Json.value :=
  match data with
  | x30 :: _ => inr doc
  | x31 :: _ => inr failedDoc
  | x32 :: _ => inr statelessDoc
  | _ => inl (SyntaxError "unexpected end of JSON input")
  end.
End Fixture.


(** ** A stub fetcher

    A fetcher that answers from a script and counts its calls, as a
    test of the collector would use. *)

Module Stub.
Record t := mk {
  responses : list (list byte * option error);
  calls : nat
}.

#[global] Instance fetcher : SlurmFetcher t :=
  {| Fetch s :=
       match responses s with
       | [] => (([], Some (FetchError "no response left")), mk [] (S (calls s)))
       | r :: rs => (r, mk rs (S (calls s)))
       end |}.
End Stub.

(** ** Scenarios

    A collector as [NewNodeCollecter] builds it, over a stub fetcher
    that answers with the given responses. *)

Module Scenario.
Definition collector (responses : list (list byte * option error))
  : @NodesCollector Stub.t unit :=
  NewNodeCollecter tt (Stub.mk responses 0).

(** The fetcher returns the payload of the two-node fixture. *)
Definition twoNodes := collector [([x30], None)].

(** The fetcher fails. *)
Definition transportFailure := collector [([], Some (FetchError "exit status 1"))].

(** The fetcher returns a payload that reports errors. *)
Definition sourceError := collector [([x31], None)].

(** The fetcher returns a payload with a node that has no state. *)
Definition stateless := collector [([x32], None)].

(** The two-node scenario on a collector whose descriptor for the
    cpus of a partition declares no label. *)
Definition mislabelled : @NodesCollector Stub.t unit :=
  mkNodesCollector (cache twoNodes) (fetcher twoNodes)
    (prometheus.NewDesc "slurm_partition_total_cpus" "Total cpus per partition" [])
    (partitionRealMemory twoNodes) (partitionFreeMemory twoNodes)
    (partitionAllocMemory twoNodes) (partitionAllocCpus twoNodes)
    (partitionIdleCpus twoNodes) (partitionWeight twoNodes)
    (partitionCpuLoad twoNodes)
    (cpusPerState twoNodes) (totalCpus twoNodes) (totalIdleCpus twoNodes)
    (totalCpuLoad twoNodes)
    (totalRealMemory twoNodes) (totalFreeMemory twoNodes)
    (totalAllocMemory twoNodes)
    (nodeScrapeErrors twoNodes).

(** The aggregate of partition batch in the two-node fixture. *)
Definition batch : PartitionMetrics.t :=
  PartitionMetrics.mk (Float64.of_Z 12) Float64.zero Float64.zero Float64.zero
    Float64.zero Float64.zero Float64.zero Float64.zero.
End Scenario.

(** ** Reference definitions for the parser *)

(** The node entries of a document in which one member of the
    top-level object selects [Nodes]: the elements of the array it
    holds.  (In a document that repeats the key the entries of a later
    array are decoded into the nodes stored for an earlier one; see
    [nodesMembers] below.) *)
Definition nodeEntries (doc : Json.value) : list Json.value :=
  match doc with
  | Json.Object members =>
      match filter (fun kv => select_field sinfoResponse.tags kv.1
                              = Some sinfoResponse.nodes) members with
      | [(_, Json.Array entries)] => entries
      | _ => []
      end
  | _ => []
  end.

(** A node entry none of whose keys selects the [state] field. *)
Definition stateAbsent (entry : Json.value) : bool :=
  match entry with
  | Json.Object members =>
      forallb (fun kv => negb (bool_decide (select_field NodeMetricsJson.tags kv.1
                                            = Some NodeMetricsJson.state)))
              members
  | _ => false
  end.

(** The values of the members of the payload whose keys select
    [Nodes], in the order of the payload. *)
Definition nodesMembers (doc : Json.value) : list Json.value :=
  match doc with
  | Json.Object members =>
      snd <$> filter (fun kv => select_field sinfoResponse.tags kv.1
                                = Some sinfoResponse.nodes) members
  | _ => []
  end.

(** The node entries at position [i] of the arrays among them. *)
Definition entriesAt (i : nat) (doc : Json.value) : list Json.value :=
  omap (fun v => match v with
                 | Json.Array entries => entries !! i
                 | _ => None
                 end)
       (nodesMembers doc).

(** ** A payload that repeats the [nodes] key

    The first array holds a node in state idle, the second a node
    without a state. *)

Module Repeated.
Definition first : Json.value :=
  Json.Object [("hostname", Json.String "node1");
               ("cpus", Json.Number (Float64.of_Z 4));
               ("state", Json.String "idle")].

Definition second : Json.value :=
  Json.Object [("hostname", Json.String "node3");
               ("cpus", Json.Number (Float64.of_Z 2))].

Definition doc : Json.value :=
  Json.Object [("nodes", Json.Array [first]); ("nodes", Json.Array [second])].

Definition scan (data : list byte) : error + Json.value :=
  match data with
  | x38 :: _ => inr doc
  | _ => inl (SyntaxError "unexpected end of JSON input")
  end.

(** The fetcher returns the payload. *)
Definition collector := Scenario.collector [([x38], None)].
End Repeated.

(** ** Reference definitions for the collector *)

(** The descriptors [Collect] uses with one label value, and those it
    uses with none. *)
Definition labelledDescs {F C} (nc : @NodesCollector F C) : list prometheus.Desc :=
  cpusPerState nc :: map (partitionDesc nc) all_fields.

Definition unlabelledDescs {F C} (nc : @NodesCollector F C) : list prometheus.Desc :=
  [totalCpus nc; totalIdleCpus nc; totalCpuLoad nc;
   totalRealMemory nc; totalFreeMemory nc; totalAllocMemory nc].

(** The descriptors declare the labels [Collect] gives values for, as
    those [NewNodeCollecter] builds do. *)
Definition wellLabelled {F C} (nc : @NodesCollector F C) : Prop :=
  Forall (fun d => length (prometheus.variableLabels d) = 1%nat) (labelledDescs nc)
  /\ Forall (fun d => length (prometheus.variableLabels d) = 0%nat) (unlabelledDescs nc).

(** The samples of one partition: for each field with a positive
    total, in the order of the source. *)
Definition sentPartition {F C} (nc : @NodesCollector F C)
    (entry : string * PartitionMetrics.t) : list prometheus.Metric :=
  flat_map (fun f =>
              if Float64.gt0 (partition_field f entry.2)
              then [prometheus.constMetric (partitionDesc nc f) prometheus.GaugeValue
                      (partition_field f entry.2) [entry.1]]
              else [])
           all_fields.

(** The samples of a call whose fetch and parse succeed and which does
    not panic, before the counter. *)
Definition sentNodes {F C} (ro : RangeOrder) (nc : @NodesCollector F C)
    (nodes : list NodeMetrics.t) : list prometheus.Metric :=
  flat_map (sentPartition nc) (range ro (fetchNodePartitionMetrics nodes))
  ++ [prometheus.constMetric (totalCpus nc) prometheus.GaugeValue
        (CpuSummaryMetrics.Total (fetchNodeTotalCpuMetrics nodes)) [];
      prometheus.constMetric (totalIdleCpus nc) prometheus.GaugeValue
        (CpuSummaryMetrics.Idle (fetchNodeTotalCpuMetrics nodes)) [];
      prometheus.constMetric (totalCpuLoad nc) prometheus.GaugeValue
        (CpuSummaryMetrics.Load (fetchNodeTotalCpuMetrics nodes)) []]
  ++ map (fun entry => prometheus.constMetric (cpusPerState nc) prometheus.GaugeValue
                         entry.2 [entry.1])
         (range ro (CpuSummaryMetrics.PerState (fetchNodeTotalCpuMetrics nodes)))
  ++ [prometheus.constMetric (totalRealMemory nc) prometheus.GaugeValue
        (MemSummaryMetrics.RealMemory (fetchNodeTotalMemMetrics nodes)) [];
      prometheus.constMetric (totalFreeMemory nc) prometheus.GaugeValue
        (MemSummaryMetrics.FreeMemory (fetchNodeTotalMemMetrics nodes)) [];
      prometheus.constMetric (totalAllocMemory nc) prometheus.GaugeValue
        (MemSummaryMetrics.AllocMemory (fetchNodeTotalMemMetrics nodes)) []].

(** ** Reference definitions for the aggregates *)

(** What one [partition.X += node.X] round does to an aggregate. *)
Definition addFields (partition : PartitionMetrics.t) (node : NodeMetrics.t) : PartitionMetrics.t :=
  PartitionMetrics.mk
    (Float64.add (PartitionMetrics.Cpus partition) (NodeMetrics.Cpus node))
    (Float64.add (PartitionMetrics.RealMemory partition) (NodeMetrics.RealMemory node))
    (Float64.add (PartitionMetrics.FreeMemory partition) (NodeMetrics.FreeMemory node))
    (Float64.add (PartitionMetrics.AllocMemory partition) (NodeMetrics.AllocMemory node))
    (Float64.add (PartitionMetrics.AllocCpus partition) (NodeMetrics.AllocCpus node))
    (Float64.add (PartitionMetrics.CpuLoad partition) (NodeMetrics.CpuLoad node))
    (Float64.add (PartitionMetrics.IdleCpus partition) (NodeMetrics.IdleCpus node))
    (Float64.add (PartitionMetrics.Weight partition) (NodeMetrics.Weight node)).

(** The nodes that list partition [p], in input order, once for each
    time [p] occurs in the node's partition list. *)
Definition listings (p : string) (nodes : list NodeMetrics.t) : list NodeMetrics.t :=
  flat_map (fun node =>
              flat_map (fun q => if decide (q = p) then [node] else [])
                       (NodeMetrics.Partitions node))
           nodes.

(** The entry of a partition after the nodes of [l] were added to it. *)
Definition entry_after (o : option PartitionMetrics.t) (l : list NodeMetrics.t)
  : option PartitionMetrics.t :=
  match l with
  | [] => o
  | _ :: _ => Some (fold_left addFields l (default PartitionMetrics.new o))
  end.


(** The nodes whose state is [s], in input order. *)
Definition nodesInState (s : string) (nodes : list NodeMetrics.t) : list NodeMetrics.t :=
  filter (fun node => NodeMetrics.State node = s) nodes.

(** A piece of code sends constant metrics only, whether it returns
    or panics. *)
Definition sendsGauges {A} (p : proc A) : Prop :=
  forall c, prometheus.counterMetric c ∉ fst p.

(** The float64 of a positive integer below 2^53: the integer shifted
    left to 53 bits. *)
Definition canon (s : Z) : float64 :=
  S754_finite false (Z.to_pos (s * 2 ^ (52 - Z.log2 s))%Z) (Z.log2 s - 52)%Z.

(** The sum of a list of natural numbers. *)
Definition Nsum (l : list N) : N := fold_right N.add 0%N l.

(** The values of field [f], as natural numbers, summed over all
    listings of a node in a partition: a bound on the total of [f] in
    each partition. *)
Definition listedTotal (f : field) (nodes : list NodeMetrics.t) : N :=
  Nsum (flat_map (fun node => map (fun _ => Float64.to_N (node_field f node))
                                  (NodeMetrics.Partitions node))
                 nodes).

(** The values of field [f], as natural numbers, summed over the
    nodes that list partition [p], once for each listing. *)
Definition partitionTotal (f : field) (p : string) (nodes : list NodeMetrics.t) : N :=
  Nsum (map (fun node => Float64.to_N (node_field f node)) (listings p nodes)).

(** ** Three nodes whose loads do not add up associatively

    Nodes of partition batch with cpu loads 0.1, 0.2 and 0.3. *)

Module Loads.
Definition node (hostname : string) (tenths : Z) : NodeMetrics.t :=
  NodeMetrics.mk hostname (Float64.of_Z 1) Float64.zero Float64.zero
    ["batch"] "idle" Float64.zero Float64.zero Float64.zero Float64.zero
    (Float64.div (Float64.of_Z tenths) (Float64.of_Z 10)) "".

Definition nodes : list NodeMetrics.t := [node "n1" 1; node "n2" 2; node "n3" 3].
Definition reordered : list NodeMetrics.t := [node "n3" 3; node "n2" 2; node "n1" 1].
End Loads.

(** ** Describe *)

(** [c.Desc()]: the descriptor of a counter, built from its options. *)
Definition counterDesc (c : prometheus.Counter) : prometheus.Desc :=
  prometheus.NewDesc (prometheus.Name c) (prometheus.Help c) [].

(** [Describe]: the descriptors sent on [ch], in the order of the
    sends. *)
Definition Describe {F C} (nc : @NodesCollector F C) : list prometheus.Desc :=
  [partitionCpus nc;
   partitionRealMemory nc;
   partitionFreeMemory nc;
   partitionAllocMemory nc;
   partitionAllocCpus nc;
   partitionIdleCpus nc;
   partitionWeight nc;
   partitionCpuLoad nc;
   totalCpus nc;
   totalIdleCpus nc;
   cpusPerState nc;
   totalRealMemory nc;
   totalFreeMemory nc;
   totalAllocMemory nc;
   counterDesc (nodeScrapeErrors nc)].

(** ** Reference definitions for sequences of scrapes and for samples *)

(** The collector after a sequence of calls of [Collect], one range
    order for each call. *)
Definition scrapes {F C} `{SlurmFetcher F}
    (json_scan : list byte -> error + Json.value)
    (ros : list RangeOrder) (nc : @NodesCollector F C) : @NodesCollector F C :=
  fold_left (fun nc ro => after (Collect json_scan ro nc)) ros nc.

(** The fifteen descriptors [Collect] builds constant metrics from. *)
Definition allDescs {F C} (nc : @NodesCollector F C) : list prometheus.Desc :=
  labelledDescs nc ++ unlabelledDescs nc.

(** What identifies a sample to the registry: the descriptor and the
    label values of a constant metric, the name of a counter. *)
Definition sampleKey (m : prometheus.Metric)
  : prometheus.Desc * list string + string :=
  match m with
  | prometheus.constMetric desc _ _ labelValues => inl (desc, labelValues)
  | prometheus.counterMetric c => inr (prometheus.Name c)
  end.

(** The values of field [f], as natural numbers, summed over the
    nodes. *)
Definition fieldTotal (f : field) (nodes : list NodeMetrics.t) : N :=
  Nsum (map (fun node => Float64.to_N (node_field f node)) nodes).

(** A member whose key selects one of the tagged fields. *)
Definition knownMember {T} (tags : list (string * T))
    (kv : string * Json.value) : bool :=
  match select_field tags kv.1 with
  | Some _ => true
  | None => false
  end.

(** Every metric a piece of code sends, whether it returns or panics,
    satisfies [P]. *)
Definition sendsOnly {A} (P : prometheus.Metric -> Prop) (p : proc A) : Prop :=
  Forall P (fst p).

(** ** Payloads without nodes *)

Module Nodeless.
(** The payloads [{}] and [null], and a payload with an empty node
    array, told apart by their first byte. *)
Definition scan (data : list byte) : error + Json.value :=
  match data with
  | x33 :: _ => inr (Json.Object [])
  | x34 :: _ => inr Json.Null
  | x35 :: _ => inr (Json.Object [("nodes", Json.Array [])])
  | _ => inl (SyntaxError "unexpected end of JSON input")
  end.

(** The fetcher returns the payload [{}]. *)
Definition emptyObject := Scenario.collector [([x33], None)].
End Nodeless.

(** ** Failing scrapes *)

(** Whether the fetch made from fetcher state [f], or the parse of what
    it returns, fails. *)
Definition scrapeFails {F} `{SlurmFetcher F}
    (json_scan : list byte -> error + Json.value) (f : F) : bool :=
  match fst (Fetch f) with
  | (_, Some _) => true
  | (sinfo, None) =>
      match snd (parseNodeMetrics json_scan sinfo) with
      | Some _ => true
      | None => false
      end
  end.

(** The number of failing scrapes among the next [n] fetches from
    fetcher state [f]. *)
Fixpoint failures {F} `{SlurmFetcher F}
    (json_scan : list byte -> error + Json.value) (n : nat) (f : F) : N :=
  match n with
  | O => 0%N
  | S n => ((if scrapeFails json_scan f then 1 else 0)
            + failures json_scan n (snd (Fetch f)))%N
  end.

(** The fetcher state after [n] calls of [Fetch]. *)
Fixpoint fetches {F} `{SlurmFetcher F} (n : nat) (f : F) : F :=
  match n with
  | O => f
  | S n => fetches n (snd (Fetch f))
  end.

(** The node fields the two summaries add up. *)
Definition summary_fields : list field :=
  [FCpus; FIdleCpus; FCpuLoad; FAllocMemory; FFreeMemory; FRealMemory].

(** ** Members the structs have no field for *)

(** A node entry without the members that select no field of
    [NodeMetrics]. *)
Definition pruneNode (entry : Json.value) : Json.value :=
  match entry with
  | Json.Object members =>
      Json.Object (filter (fun kv => knownMember NodeMetricsJson.tags kv = true) members)
  | _ => entry
  end.

Definition pruneMember (kv : string * Json.value) : string * Json.value :=
  match select_field sinfoResponse.tags kv.1, kv.2 with
  | Some sinfoResponse.nodes, Json.Array entries =>
      (kv.1, Json.Array (map pruneNode entries))
  | _, _ => kv
  end.

(** A payload without the members that select no field of
    [sinfoResponse] and, in its node entries, of [NodeMetrics]. *)
Definition prune (doc : Json.value) : Json.value :=
  match doc with
  | Json.Object members =>
      Json.Object
        (map pruneMember
             (filter (fun kv => knownMember sinfoResponse.tags kv = true) members))
  | _ => doc
  end.

(** ** Variants of the two-node payload *)

Module Variants.
(** The two-node payload as a newer Slurm would print it: with members
    the structs have no field for. *)
Definition verboseDoc : Json.value :=
  Json.Object
    [("meta", Json.Object []);
     ("errors", Json.Array []);
     ("warnings", Json.Array [Json.String "deprecated"]);
     ("nodes", Json.Array
        [Json.Object [("hostname", Json.String "node1");
                      ("boards", Json.Number (Float64.of_Z 1));
                      ("cpus", Json.Number (Float64.of_Z 4));
                      ("state", Json.String "idle");
                      ("partitions", Json.Array [Json.String "batch"])];
         Json.Object [("hostname", Json.String "node2");
                      ("cpus", Json.Number (Float64.of_Z 8));
                      ("state", Json.String "alloc");
                      ("comment", Json.Null);
                      ("partitions", Json.Array [Json.String "batch"; Json.String "gpu"])]])].

(** The two-node payload with the cpus of the second node given as a
    string. *)
Definition malformedDoc : Json.value :=
  Json.Object
    [("nodes", Json.Array
        [Json.Object [("hostname", Json.String "node1");
                      ("cpus", Json.Number (Float64.of_Z 4));
                      ("partitions", Json.Array [Json.String "batch"])];
         Json.Object [("hostname", Json.String "node2");
                      ("cpus", Json.String "8");
                      ("partitions", Json.Array [Json.String "batch"])]])].

Definition scan (data : list byte) : error + Json.value :=
  match data with
  | x30 :: _ => inr Fixture.doc
  | x36 :: _ => inr verboseDoc
  | x37 :: _ => inr malformedDoc
  | _ => inl (SyntaxError "unexpected end of JSON input")
  end.

(** The fetcher returns the malformed payload. *)
Definition malformed := Scenario.collector [([x37], None)].
End Variants.

(** The descriptor under which [Collect] sends the cluster total of a
    node field, for the six fields that have one. *)
Definition totalDesc {F C} (nc : @NodesCollector F C) (f : field)
  : option prometheus.Desc :=
  match f with
  | FCpus => Some (totalCpus nc)
  | FIdleCpus => Some (totalIdleCpus nc)
  | FCpuLoad => Some (totalCpuLoad nc)
  | FRealMemory => Some (totalRealMemory nc)
  | FFreeMemory => Some (totalFreeMemory nc)
  | FAllocMemory => Some (totalAllocMemory nc)
  | FAllocCpus | FWeight => None
  end.

(** ** Invocations that have returned *)

Definition hasReturned (v : invocation) : bool :=
  match v with
  | Returned _ => true
  | _ => false
  end.

(** The number of invocations that have returned. *)
Definition returnedCount {F C} (s : @system F C) : nat :=
  length (List.filter hasReturned (invocations s)).

(** Whether an answer of the fetcher makes [Collect] count an error:
    the fetch failed, or what it returned does not parse. *)
Definition answerFails (json_scan : list byte -> error + Json.value)
    (fetched : list byte * option error) : bool :=
  match fetched with
  | (_, Some _) => true
  | (sinfo, None) =>
      match snd (parseNodeMetrics json_scan sinfo) with
      | Some _ => true
      | None => false
      end
  end.

(** The number of calls in flight whose answer will be counted as an
    error when it is received. *)
Definition pendingFailures {F C} (json_scan : list byte -> error + Json.value)
    (s : @system F C) : N :=
  N.of_nat (length (List.filter
                      (fun v => match v with
                                | InFetch fetched => answerFails json_scan fetched
                                | _ => false
                                end)
                      (invocations s))).

(** What every step of an invocation keeps: the fetcher has been
    called once for each invocation that is inside [Fetch] or has
    returned, the cache is as it was, and each of these calls that
    fails has been counted or is still in flight. *)
Definition consistent {F C} `{SlurmFetcher F}
    (json_scan : list byte -> error + Json.value)
    (nc : @NodesCollector F C) (s : @system F C) : Prop :=
  fetcher (collector s) = fetches (inFlight s + returnedCount s) (fetcher nc)
  /\ cache (collector s) = cache nc
  /\ (prometheus.count (nodeScrapeErrors (collector s)) + pendingFailures json_scan s
      = prometheus.count (nodeScrapeErrors nc)
        + failures json_scan (inFlight s + returnedCount s) (fetcher nc))%N.

(** A node without its name and architecture. *)
Definition anonymous (node : NodeMetrics.t) : NodeMetrics.t :=
  NodeMetrics.mk "" (NodeMetrics.Cpus node) (NodeMetrics.RealMemory node)
    (NodeMetrics.FreeMemory node) (NodeMetrics.Partitions node)
    (NodeMetrics.State node) (NodeMetrics.AllocMemory node)
    (NodeMetrics.AllocCpus node) (NodeMetrics.IdleCpus node)
    (NodeMetrics.Weight node) (NodeMetrics.CpuLoad node) "".

(** * Properties *)

(** ** Aggregation: auxiliary results *)

Section Aggregation.

Implicit Types (node : NodeMetrics.t) (nodes : list NodeMetrics.t).
Implicit Types (p q : string) (f : field).

Lemma addNodeToPartition_insert node parts p :
  addNodeToPartition node parts p
  = <[p := addFields (default PartitionMetrics.new (parts !! p)) node]> parts.
Proof. unfold addNodeToPartition. by destruct (parts !! p). Qed.

Lemma entry_after_app o l1 l2 :
  entry_after (entry_after o l1) l2 = entry_after o (l1 ++ l2).
Proof.
  destruct l1 as [|a l1]; [done|].
  destruct l2 as [|b l2]; [by rewrite app_nil_r|].
  simpl. by rewrite fold_left_app.
Qed.

Lemma addNode_lookup node ps parts p :
  fold_left (addNodeToPartition node) ps parts !! p
  = entry_after (parts !! p)
      (flat_map (fun q => if decide (q = p) then [node] else []) ps).
Proof.
  revert parts. induction ps as [|q ps IH]; intros parts; [done|].
  cbn [fold_left flat_map]. rewrite IH, addNodeToPartition_insert.
  destruct (decide (q = p)) as [->|Hne].
  - rewrite lookup_insert_eq.
    exact (entry_after_app (parts !! p) [node] _).
  - by rewrite lookup_insert_ne.
Qed.

Lemma fold_addNode_lookup nodes parts p :
  fold_left addNode nodes parts !! p
  = entry_after (parts !! p) (listings p nodes).
Proof.
  revert parts. induction nodes as [|node nodes IH]; intros parts; [done|].
  cbn [fold_left]. rewrite IH. unfold addNode.
  rewrite addNode_lookup, entry_after_app. done.
Qed.

Lemma fetchNodePartitionMetrics_lookup nodes p :
  fetchNodePartitionMetrics nodes !! p
  = match listings p nodes with
    | [] => None
    | l => Some (fold_left addFields l PartitionMetrics.new)
    end.
Proof.
  unfold fetchNodePartitionMetrics.
  rewrite fold_addNode_lookup, lookup_empty.
  by destruct (listings p nodes).
Qed.

Lemma partition_field_fold f l start :
  partition_field f (fold_left addFields l start)
  = fold_left Float64.add (map (node_field f) l) (partition_field f start).
Proof.
  revert start. induction l as [|node l IH]; intros start; [done|].
  cbn [fold_left map]. rewrite IH. by destruct f.
Qed.

Lemma partition_field_new f : partition_field f PartitionMetrics.new = Float64.zero.
Proof. by destruct f. Qed.

Lemma listings_nil_iff p nodes :
  listings p nodes = [] <-> p ∉ flat_map NodeMetrics.Partitions nodes.
Proof.
  unfold listings. induction nodes as [|node nodes IH]; cbn [flat_map].
  - split; [intros _; apply not_elem_of_nil | done].
  - assert (Hin : forall ps,
               flat_map (fun q => if decide (q = p) then [node] else []) ps = []
               <-> p ∉ ps).
    { induction ps as [|q ps IHps]; cbn [flat_map].
      - split; [intros _; apply not_elem_of_nil | done].
      - rewrite not_elem_of_cons, <- IHps.
        destruct (decide (q = p)) as [->|]; simpl; intuition congruence. }
    rewrite app_nil, elem_of_app, Hin, IH. tauto.
Qed.

Lemma listings_Permutation p nodes nodes' :
  nodes ≡ₚ nodes' -> listings p nodes ≡ₚ listings p nodes'.
Proof.
  intros H. unfold listings.
  induction H; cbn [flat_map].
  - done.
  - by f_equiv.
  - rewrite !app_assoc. f_equiv. apply Permutation_app_comm.
  - etrans; eauto.
Qed.

End Aggregation.



Lemma elem_of_range (ro : RangeOrder) {A} (m : gmap string A) k (x : A) :
  (k, x) ∈ range ro m <-> m !! k = Some x.
Proof. rewrite (range_entries ro), elem_of_map_to_list. done. Qed.

(** ** The summaries *)

Lemma fold_addNodeCpu_Total nodes acc :
  CpuSummaryMetrics.Total (fold_left addNodeCpu nodes acc)
  = fold_left Float64.add (map NodeMetrics.Cpus nodes) (CpuSummaryMetrics.Total acc).
Proof.
  revert acc. induction nodes as [|node nodes IH]; intros acc; [done|].
  cbn [fold_left map]. by rewrite IH.
Qed.

Lemma fold_addNodeCpu_Idle nodes acc :
  CpuSummaryMetrics.Idle (fold_left addNodeCpu nodes acc)
  = fold_left Float64.add (map NodeMetrics.IdleCpus nodes) (CpuSummaryMetrics.Idle acc).
Proof.
  revert acc. induction nodes as [|node nodes IH]; intros acc; [done|].
  cbn [fold_left map]. by rewrite IH.
Qed.

Lemma fold_addNodeCpu_Load nodes acc :
  CpuSummaryMetrics.Load (fold_left addNodeCpu nodes acc)
  = fold_left Float64.add (map NodeMetrics.CpuLoad nodes) (CpuSummaryMetrics.Load acc).
Proof.
  revert acc. induction nodes as [|node nodes IH]; intros acc; [done|].
  cbn [fold_left map]. by rewrite IH.
Qed.

Lemma fold_addNodeMem nodes acc :
  fold_left addNodeMem nodes acc
  = MemSummaryMetrics.mk
      (fold_left Float64.add (map NodeMetrics.AllocMemory nodes) (MemSummaryMetrics.AllocMemory acc))
      (fold_left Float64.add (map NodeMetrics.FreeMemory nodes) (MemSummaryMetrics.FreeMemory acc))
      (fold_left Float64.add (map NodeMetrics.RealMemory nodes) (MemSummaryMetrics.RealMemory acc)).
Proof.
  revert acc. induction nodes as [|node nodes IH]; intros acc; [by destruct acc|].
  cbn [fold_left map]. by rewrite IH.
Qed.

(** The bucket of state [s] after a run of the loop of
    [fetchNodeTotalCpuMetrics] from any summary. *)
Lemma fold_addNodeCpu_PerState nodes acc s :
  CpuSummaryMetrics.PerState (fold_left addNodeCpu nodes acc) !! s
  = match nodesInState s nodes with
    | [] => CpuSummaryMetrics.PerState acc !! s
    | l => Some (fold_left Float64.add (map NodeMetrics.Cpus l)
                   (default Float64.zero (CpuSummaryMetrics.PerState acc !! s)))
    end.
Proof.
  revert acc. unfold nodesInState.
  induction nodes as [|node nodes IH]; intros acc; [done|].
  cbn [fold_left]. rewrite IH. clear IH.
  rewrite filter_cons. cbn [addNodeCpu CpuSummaryMetrics.PerState].
  destruct (decide (NodeMetrics.State node = s)) as [->|Hne].
  - rewrite lookup_insert_eq. cbn [map fold_left default].
    by destruct (filter _ nodes).
  - by rewrite lookup_insert_ne.
Qed.

(** C6.  Every field of the CPU summary (total, idle, load) and of the
    memory summary (alloc, free, real) is the sum, taken over the input
    nodes in order, of the corresponding node field; for the empty
    sequence both summaries are all-zero and the per-state mapping is
    empty. *)
Theorem summaries_are_direct_sums (nodes : list NodeMetrics.t) :
  CpuSummaryMetrics.Total (fetchNodeTotalCpuMetrics nodes)
    = Float64.sum (map NodeMetrics.Cpus nodes)
  /\ CpuSummaryMetrics.Idle (fetchNodeTotalCpuMetrics nodes)
    = Float64.sum (map NodeMetrics.IdleCpus nodes)
  /\ CpuSummaryMetrics.Load (fetchNodeTotalCpuMetrics nodes)
    = Float64.sum (map NodeMetrics.CpuLoad nodes)
  /\ MemSummaryMetrics.AllocMemory (fetchNodeTotalMemMetrics nodes)
    = Float64.sum (map NodeMetrics.AllocMemory nodes)
  /\ MemSummaryMetrics.FreeMemory (fetchNodeTotalMemMetrics nodes)
    = Float64.sum (map NodeMetrics.FreeMemory nodes)
  /\ MemSummaryMetrics.RealMemory (fetchNodeTotalMemMetrics nodes)
    = Float64.sum (map NodeMetrics.RealMemory nodes)
  /\ fetchNodeTotalCpuMetrics []
    = CpuSummaryMetrics.mk Float64.zero Float64.zero Float64.zero ∅
  /\ fetchNodeTotalMemMetrics []
    = MemSummaryMetrics.mk Float64.zero Float64.zero Float64.zero.
Proof.
  unfold fetchNodeTotalCpuMetrics, fetchNodeTotalMemMetrics, Float64.sum.
  rewrite fold_addNodeCpu_Total, fold_addNodeCpu_Idle, fold_addNodeCpu_Load,
    fold_addNodeMem.
  repeat split.
Qed.

(** C7.  The per-state mapping holds exactly the state strings that
    occur in the input, compared byte for byte, and maps each to the sum
    of the cpus of exactly the nodes in that state; so a node's cpus
    enter one bucket only, the one of its own state. *)
Theorem perState_is_sum_by_state (nodes : list NodeMetrics.t) (s : string) :
  CpuSummaryMetrics.PerState (fetchNodeTotalCpuMetrics nodes) !! s
  = match nodesInState s nodes with
    | [] => None
    | l => Some (Float64.sum (map NodeMetrics.Cpus l))
    end.
Proof.
  unfold fetchNodeTotalCpuMetrics. rewrite fold_addNodeCpu_PerState.
  cbn [CpuSummaryMetrics.PerState]. by rewrite lookup_empty.
Qed.

(** ** The partition aggregates *)

Lemma fetchNodePartitionMetrics_field nodes p f :
  partition_field f <$> (fetchNodePartitionMetrics nodes !! p)
  = match listings p nodes with
    | [] => None
    | l => Some (Float64.sum (map (node_field f) l))
    end.
Proof.
  rewrite fetchNodePartitionMetrics_lookup.
  destruct (listings p nodes) as [|node l]; [done|].
  cbn [fmap option_fmap option_map]. f_equal.
  by rewrite partition_field_fold, partition_field_new.
Qed.

Lemma fetchNodePartitionMetrics_dom nodes :
  dom (fetchNodePartitionMetrics nodes)
  = list_to_set (C := gset string) (flat_map NodeMetrics.Partitions nodes).
Proof.
  apply set_eq. intros p.
  rewrite elem_of_dom, elem_of_list_to_set, fetchNodePartitionMetrics_lookup.
  pose proof (listings_nil_iff p nodes) as Hnil.
  destruct (listings p nodes) as [|node l].
  - split; [by intros [? ?] | intros Hin]. by destruct (proj1 Hnil eq_refl).
  - split; [intros _ | by eauto].
    destruct (decide (p ∈ flat_map NodeMetrics.Partitions nodes)) as [|Hn]; [done|].
    by apply Hnil in Hn.
Qed.

(** C5.  The aggregate of a partition is, field by field, the sum of
    the full field values of the nodes that list the partition (a node
    enters every partition of its list, unsplit); on the two-node
    fixture the cluster total is 12 cpus, the per-state mapping is
    idle -> 4, alloc -> 8, and the partitions batch and gpu hold 12 and
    8 cpus. *)
Theorem node_contributes_fully_to_each_partition :
  (forall (nodes : list NodeMetrics.t) (p : string) (f : field),
      partition_field f <$> (fetchNodePartitionMetrics nodes !! p)
      = match listings p nodes with
        | [] => None
        | l => Some (Float64.sum (map (node_field f) l))
        end)
  /\ CpuSummaryMetrics.Total (fetchNodeTotalCpuMetrics Fixture.nodes) = Float64.of_Z 12
  /\ CpuSummaryMetrics.PerState (fetchNodeTotalCpuMetrics Fixture.nodes)
     = <["idle" := Float64.of_Z 4]> (<["alloc" := Float64.of_Z 8]> ∅)
  /\ PartitionMetrics.Cpus <$> (fetchNodePartitionMetrics Fixture.nodes !! "batch")
     = Some (Float64.of_Z 12)
  /\ PartitionMetrics.Cpus <$> (fetchNodePartitionMetrics Fixture.nodes !! "gpu")
     = Some (Float64.of_Z 8)
  /\ dom (fetchNodePartitionMetrics Fixture.nodes) = {[ "batch"; "gpu" ]}.
Proof.
  split; [exact fetchNodePartitionMetrics_field|].
  repeat split; by vm_compute.
Qed.

(** C9.  The keys of the mapping are exactly the partition names that
    occur in the partition lists of the input nodes; a node with an
    empty partition list leaves the mapping as it is, and the empty
    sequence yields the empty mapping. *)
Theorem partition_keys_are_union_of_partition_lists (nodes : list NodeMetrics.t) :
  dom (fetchNodePartitionMetrics nodes)
    = list_to_set (C := gset string) (flat_map NodeMetrics.Partitions nodes)
  /\ (forall (partitions : gmap string PartitionMetrics.t) (node : NodeMetrics.t),
        NodeMetrics.Partitions node = [] -> addNode partitions node = partitions)
  /\ (forall (before after : list NodeMetrics.t) (node : NodeMetrics.t),
        NodeMetrics.Partitions node = [] ->
        fetchNodePartitionMetrics (before ++ node :: after)
        = fetchNodePartitionMetrics (before ++ after))
  /\ fetchNodePartitionMetrics [] = ∅.
Proof.
  split; [apply fetchNodePartitionMetrics_dom|].
  assert (Hskip : forall partitions node,
             NodeMetrics.Partitions node = [] -> addNode partitions node = partitions).
  { intros partitions node Hnil. unfold addNode. by rewrite Hnil. }
  split; [exact Hskip|]. split; [|done].
  intros before after node Hnil. unfold fetchNodePartitionMetrics.
  rewrite !fold_left_app. cbn [fold_left]. by rewrite Hskip.
Qed.


(** ** The parser *)

(** Keys select fields exactly or after case folding, also through the
    two non-ASCII letters that fold to [s] and [k]. *)
Example state_key_matching :
  select_field NodeMetricsJson.tags "state" = Some NodeMetricsJson.state
  /\ select_field NodeMetricsJson.tags "STATE" = Some NodeMetricsJson.state
  /\ select_field NodeMetricsJson.tags
       (String.String "197" (String.String "191" "tate"))
     = Some NodeMetricsJson.state
  /\ select_field NodeMetricsJson.tags "states" = None
  /\ select_field sinfoResponse.tags "Nodes" = Some sinfoResponse.nodes.
Proof. repeat split; reflexivity. Qed.

(** C2.  When the payload decodes and its error list is not empty,
    [parseNodeMetrics] returns no node record and an error whose
    message is the first entry of the list, whatever nodes the payload
    carries. *)
Theorem parseNodeMetrics_reports_first_error
    (json_scan : list byte -> error + Json.value) (data : list byte)
    (squeue : sinfoResponse.t) :
  json_Unmarshal json_scan data sinfoResponse.zero = inr squeue ->
  sinfoResponse.Errors squeue <> [] ->
  exists e err,
    head (sinfoResponse.Errors squeue) = Some e
    /\ parseNodeMetrics json_scan data = ([], Some err)
    /\ Error err = e.
Proof.
  intros Hdec Hne. unfold parseNodeMetrics. rewrite Hdec.
  destruct (sinfoResponse.Errors squeue) as [|e rest]; [done|].
  by exists e, (errors_New e).
Qed.

(** An instance: a payload that reports two errors and carries a node. *)
Lemma parseNodeMetrics_reports_first_error_witness :
  exists squeue,
    json_Unmarshal Fixture.scan [x31] sinfoResponse.zero = inr squeue
    /\ sinfoResponse.Errors squeue <> []
    /\ sinfoResponse.Nodes squeue <> []
    /\ exists e err,
         head (sinfoResponse.Errors squeue) = Some e
         /\ parseNodeMetrics Fixture.scan [x31] = ([], Some err)
         /\ Error err = e.
Proof.
  eexists. split; [vm_compute; reflexivity|].
  split; [discriminate|]. split; [discriminate|].
  eapply (parseNodeMetrics_reports_first_error Fixture.scan [x31]).
  - vm_compute; reflexivity.
  - discriminate.
Defined.

(** ** Code that sends on the channel *)

Lemma seq_returned (p q : proc unit) sent1 sent2 :
  p = (sent1, Some tt) -> q = (sent2, Some tt) ->
  (p ;; q) = (sent1 ++ sent2, Some tt).
Proof. intros -> ->. done. Qed.

Lemma forEach_returned {A} (l : list A) (body : A -> proc unit)
    (sentBy : A -> list prometheus.Metric) :
  (forall a, a ∈ l -> body a = (sentBy a, Some tt)) ->
  forEach l body = (flat_map sentBy l, Some tt).
Proof.
  induction l as [|a l IH]; intros Hbody; [done|]. cbn [forEach flat_map].
  apply seq_returned.
  - apply Hbody, elem_of_cons. by left.
  - apply IH. intros b Hb. apply Hbody, elem_of_cons. by right.
Qed.

Lemma forEach_returned_each {A} (l : list A) (body : A -> proc unit)
    (sentBy : A -> prometheus.Metric) :
  (forall a, a ∈ l -> body a = ([sentBy a], Some tt)) ->
  forEach l body = (map sentBy l, Some tt).
Proof.
  induction l as [|a l IH]; intros Hbody; [done|]. cbn [forEach map].
  apply (seq_returned _ _ [_]).
  - apply Hbody, elem_of_cons. by left.
  - apply IH. intros b Hb. apply Hbody, elem_of_cons. by right.
Qed.

Lemma sendGauge_returned desc v labels :
  length labels = length (prometheus.variableLabels desc) ->
  sendGauge desc v labels
  = ([prometheus.constMetric desc prometheus.GaugeValue v labels], Some tt).
Proof.
  intros Hlen. unfold sendGauge, prometheus.MustNewConstMetric.
  by rewrite decide_True.
Qed.

Lemma when_sendGauge_returned b desc v labels :
  length labels = length (prometheus.variableLabels desc) ->
  when b (sendGauge desc v labels)
  = (if b then [prometheus.constMetric desc prometheus.GaugeValue v labels] else [],
     Some tt).
Proof. intros Hlen. destruct b; [by apply sendGauge_returned | done]. Qed.

Lemma bind_sendsGauges {A B} (p : proc A) (k : A -> proc B) :
  sendsGauges p -> (forall a, sendsGauges (k a)) -> sendsGauges (bind p k).
Proof.
  unfold sendsGauges. destruct p as [sent [a|]]; cbn; intros Hp Hk c; [|done].
  specialize (Hk a c). destruct (k a) as [sent' r]. cbn in *.
  rewrite elem_of_app. by intros [?%Hp|?].
Qed.

Lemma sendGauge_sendsGauges desc v labels : sendsGauges (sendGauge desc v labels).
Proof.
  unfold sendsGauges, sendGauge, prometheus.MustNewConstMetric. intros c.
  case_decide; cbn; [|apply not_elem_of_nil].
  by intros [=]%list_elem_of_singleton.
Qed.

Lemma when_sendsGauges b (p : proc unit) : sendsGauges p -> sendsGauges (when b p).
Proof. destruct b; [done|]. intros _ c. apply not_elem_of_nil. Qed.

Lemma forEach_sendsGauges {A} (l : list A) (body : A -> proc unit) :
  (forall a, sendsGauges (body a)) -> sendsGauges (forEach l body).
Proof.
  intros Hbody. induction l as [|a l IH]; cbn [forEach].
  - intros c. apply not_elem_of_nil.
  - by apply bind_sendsGauges.
Qed.

(** ** The collector *)

Section CollectorFacts.

Import prometheus.

Context {F : Type} `{SlurmFetcher F} {C : Type}.
Variable json_scan : list byte -> error + Json.value.

Implicit Types (nc : @NodesCollector F C) (ro : RangeOrder).

Lemma Collect_unfold ro nc :
  Collect json_scan ro nc
  = deferred (collectFetched json_scan ro
                (withFetcher nc (snd (Fetch (fetcher nc))))
                (fst (Fetch (fetcher nc)))).
Proof. unfold Collect. by destruct (Fetch (fetcher nc)). Qed.

(** A call of [Collect] is a call of [Fetch]: the fetcher it leaves is
    the fetcher [Fetch] leaves, and the cache is as it was. *)
Lemma Collect_calls_Fetch ro nc :
  fetcher (after (Collect json_scan ro nc)) = snd (Fetch (fetcher nc))
  /\ cache (after (Collect json_scan ro nc)) = cache nc.
Proof.
  rewrite Collect_unfold.
  destruct (Fetch (fetcher nc)) as [[sinfo [e|]] fetcher']; cbn; [done|].
  destruct (parseNodeMetrics json_scan sinfo) as [nodes [e|]]; cbn; [done|].
  by destruct (collectNodes _ _ _).
Qed.

Lemma wellLabelled_partition nc f :
  wellLabelled nc -> length (variableLabels (partitionDesc nc f)) = 1%nat.
Proof.
  intros [Hl _]. unfold labelledDescs in Hl.
  apply Forall_cons in Hl as [_ Hl]. rewrite Forall_fmap, Forall_forall in Hl.
  apply Hl. destruct f; cbn; set_solver.
Qed.

Lemma collectPartition_returned nc entry :
  wellLabelled nc ->
  collectPartition nc entry = (sentPartition nc entry, Some tt).
Proof.
  intros Hwf. destruct entry as [partition metric].
  unfold collectPartition, sentPartition.
  rewrite (when_sendGauge_returned _ (partitionCpus nc))
    by (symmetry; exact (wellLabelled_partition nc FCpus Hwf)).
  rewrite (when_sendGauge_returned _ (partitionRealMemory nc))
    by (symmetry; exact (wellLabelled_partition nc FRealMemory Hwf)).
  rewrite (when_sendGauge_returned _ (partitionFreeMemory nc))
    by (symmetry; exact (wellLabelled_partition nc FFreeMemory Hwf)).
  rewrite (when_sendGauge_returned _ (partitionAllocMemory nc))
    by (symmetry; exact (wellLabelled_partition nc FAllocMemory Hwf)).
  rewrite (when_sendGauge_returned _ (partitionAllocCpus nc))
    by (symmetry; exact (wellLabelled_partition nc FAllocCpus Hwf)).
  rewrite (when_sendGauge_returned _ (partitionIdleCpus nc))
    by (symmetry; exact (wellLabelled_partition nc FIdleCpus Hwf)).
  rewrite (when_sendGauge_returned _ (partitionWeight nc))
    by (symmetry; exact (wellLabelled_partition nc FWeight Hwf)).
  rewrite (when_sendGauge_returned _ (partitionCpuLoad nc))
    by (symmetry; exact (wellLabelled_partition nc FCpuLoad Hwf)).
  cbn. by rewrite app_nil_r.
Qed.

(** With well-labelled descriptors the body of [Collect] after the
    parse returns, having sent [sentNodes]. *)
Lemma collectNodes_returned ro nc nodes :
  wellLabelled nc ->
  collectNodes ro nc nodes = (sentNodes ro nc nodes, Some tt).
Proof.
  intros Hwf. pose proof Hwf as [Hl Hu].
  unfold labelledDescs in Hl. apply Forall_cons in Hl as [HperState _].
  unfold unlabelledDescs in Hu.
  repeat (apply Forall_cons in Hu as [? Hu]).
  assert (HP : collectPartitions ro nc nodes
               = (flat_map (sentPartition nc)
                    (range ro (fetchNodePartitionMetrics nodes)), Some tt)).
  { unfold collectPartitions. apply forEach_returned.
    intros entry _. by apply collectPartition_returned. }
  assert (HC : collectCpus ro nc nodes
               = ([constMetric (totalCpus nc) GaugeValue
                     (CpuSummaryMetrics.Total (fetchNodeTotalCpuMetrics nodes)) []]
                  ++ [constMetric (totalIdleCpus nc) GaugeValue
                     (CpuSummaryMetrics.Idle (fetchNodeTotalCpuMetrics nodes)) []]
                  ++ [constMetric (totalCpuLoad nc) GaugeValue
                     (CpuSummaryMetrics.Load (fetchNodeTotalCpuMetrics nodes)) []]
                  ++ map (fun entry => constMetric (cpusPerState nc) GaugeValue
                                         entry.2 [entry.1])
                       (range ro (CpuSummaryMetrics.PerState
                                    (fetchNodeTotalCpuMetrics nodes))),
                  Some tt)).
  { unfold collectCpus.
    apply seq_returned; [by apply sendGauge_returned|].
    apply seq_returned; [by apply sendGauge_returned|].
    apply seq_returned; [by apply sendGauge_returned|].
    apply forEach_returned_each.
    intros [state cpus] _. by apply sendGauge_returned. }
  assert (HM : collectMem nc nodes
               = ([constMetric (totalRealMemory nc) GaugeValue
                     (MemSummaryMetrics.RealMemory (fetchNodeTotalMemMetrics nodes)) []]
                  ++ [constMetric (totalFreeMemory nc) GaugeValue
                     (MemSummaryMetrics.FreeMemory (fetchNodeTotalMemMetrics nodes)) []]
                  ++ [constMetric (totalAllocMemory nc) GaugeValue
                     (MemSummaryMetrics.AllocMemory (fetchNodeTotalMemMetrics nodes)) []],
                  Some tt)).
  { unfold collectMem.
    apply seq_returned; [by apply sendGauge_returned|].
    apply seq_returned; by apply sendGauge_returned. }
  unfold collectNodes, sentNodes. rewrite HP, HC, HM. done.
Qed.

Lemma collectNodes_sendsGauges ro nc nodes :
  sendsGauges (collectNodes ro nc nodes).
Proof.
  unfold collectNodes, collectPartitions, collectCpus, collectMem.
  repeat first
    [ apply bind_sendsGauges; [|intros _]
    | apply forEach_sendsGauges; intros [? ?]
    | apply when_sendsGauges
    | apply sendGauge_sendsGauges ].
Qed.

(** A call whose fetch and parse succeed, on well-labelled
    descriptors. *)
Lemma Collect_success ro nc sinfo fetcher' nodes :
  wellLabelled nc ->
  Fetch (fetcher nc) = ((sinfo, None), fetcher') ->
  parseNodeMetrics json_scan sinfo = (nodes, None) ->
  Collect json_scan ro nc
  = mkResult (withFetcher nc fetcher')
      (sentNodes ro nc nodes ++ [counterMetric (nodeScrapeErrors nc)]) true.
Proof.
  intros Hwf HF HP. unfold Collect. rewrite HF. cbn. rewrite HP.
  by rewrite (collectNodes_returned ro (withFetcher nc fetcher') nodes Hwf).
Qed.

Lemma elem_of_sentPartition nc q metric m :
  m ∈ sentPartition nc (q, metric)
  <-> exists f, m = constMetric (partitionDesc nc f) GaugeValue
                                (partition_field f metric) [q]
                /\ Float64.gt0 (partition_field f metric) = true.
Proof.
  unfold sentPartition. rewrite list_elem_of_In, in_flat_map. cbn [fst snd].
  split.
  - intros (f & _ & Hin). exists f.
    destruct (Float64.gt0 (partition_field f metric)); [|done].
    destruct Hin as [<-|[]]. done.
  - intros (f & -> & Hpos). exists f. rewrite Hpos.
    split; [destruct f; cbn; tauto | by left].
Qed.

(** Where a sample of [sentNodes] comes from. *)
Lemma sentNodes_origin ro nc nodes m :
  m ∈ sentNodes ro nc nodes ->
  (exists p metric f,
      fetchNodePartitionMetrics nodes !! p = Some metric
      /\ m = constMetric (partitionDesc nc f) GaugeValue
                         (partition_field f metric) [p]
      /\ Float64.gt0 (partition_field f metric) = true)
  \/ (exists state cpus,
         CpuSummaryMetrics.PerState (fetchNodeTotalCpuMetrics nodes) !! state
         = Some cpus
         /\ m = constMetric (cpusPerState nc) GaugeValue cpus [state])
  \/ (exists desc v, m = constMetric desc GaugeValue v []).
Proof.
  unfold sentNodes.
  rewrite !elem_of_app, list_elem_of_fmap, !elem_of_cons, !elem_of_nil.
  rewrite list_elem_of_In, in_flat_map.
  intros [([p metric] & Hin & Hm)|[Hin|[([state cpus] & -> & Hin)|Hin]]].
  - left. apply list_elem_of_In, elem_of_range in Hin.
    apply list_elem_of_In, elem_of_sentPartition in Hm as (f & -> & Hpos).
    by exists p, metric, f.
  - right. right. destruct Hin as [->|[->|[->|[]]]]; by eexists _, _.
  - right. left. apply elem_of_range in Hin. by exists state, cpus.
  - right. right. destruct Hin as [->|[->|[->|[]]]]; by eexists _, _.
Qed.

Lemma partition_sample_sent ro nc nodes p metric f :
  fetchNodePartitionMetrics nodes !! p = Some metric ->
  Float64.gt0 (partition_field f metric) = true ->
  constMetric (partitionDesc nc f) GaugeValue (partition_field f metric) [p]
    ∈ sentNodes ro nc nodes.
Proof.
  intros Hlook Hpos. unfold sentNodes. apply elem_of_app. left.
  apply list_elem_of_In, in_flat_map. exists (p, metric). split.
  - by apply list_elem_of_In, elem_of_range.
  - apply list_elem_of_In, elem_of_sentPartition. by exists f.
Qed.

Lemma state_sample_sent ro nc nodes state cpus :
  CpuSummaryMetrics.PerState (fetchNodeTotalCpuMetrics nodes) !! state = Some cpus ->
  constMetric (cpusPerState nc) GaugeValue cpus [state] ∈ sentNodes ro nc nodes.
Proof.
  intros Hlook. unfold sentNodes. rewrite !elem_of_app. right. right. left.
  apply list_elem_of_fmap. exists (state, cpus).
  split; [done|]. by apply elem_of_range.
Qed.

Lemma partitionDesc_inj nc f f' :
  NoDup (labelledDescs nc) ->
  partitionDesc nc f = partitionDesc nc f' -> f = f'.
Proof.
  unfold labelledDescs. rewrite NoDup_cons. intros [_ Hnd] Heq.
  assert (Hf : forall g, all_fields !! (match g with
                | FCpus => 0 | FRealMemory => 1 | FFreeMemory => 2
                | FAllocMemory => 3 | FAllocCpus => 4 | FIdleCpus => 5
                | FWeight => 6 | FCpuLoad => 7 end)%nat = Some g)
    by (by intros []).
  pose proof (Hf f) as H1. pose proof (Hf f') as H2.
  apply (list_lookup_fmap_Some_2 (partitionDesc nc)) in H1, H2.
  rewrite Heq in H1.
  pose proof (NoDup_lookup _ _ _ _ Hnd H1 H2) as Hidx.
  destruct f, f'; done.
Qed.

Lemma partitionDesc_not_perState nc f :
  NoDup (labelledDescs nc) -> partitionDesc nc f <> cpusPerState nc.
Proof.
  unfold labelledDescs. rewrite NoDup_cons. intros [Hnin _] Heq.
  apply Hnin. rewrite <- Heq. apply list_elem_of_fmap.
  exists f. split; [done|]. destruct f; cbn; set_solver.
Qed.

Lemma NewNodeCollecter_labelledDescs (c : C) (f : F) :
  NoDup (labelledDescs (NewNodeCollecter c f)).
Proof. apply (bool_decide_unpack _). by vm_compute. Qed.

Lemma NewNodeCollecter_wellLabelled (c : C) (f : F) :
  wellLabelled (NewNodeCollecter c f).
Proof. split; repeat constructor. Qed.

(** A constant metric with one label value and the descriptor of a
    partition field is sent by the loop over the partitions or not at
    all. *)
Lemma partition_sample_origin ro nc nodes f v p :
  NoDup (labelledDescs nc) ->
  constMetric (partitionDesc nc f) GaugeValue v [p]
    ∈ sentNodes ro nc nodes ++ [counterMetric (nodeScrapeErrors nc)] ->
  exists metric,
    fetchNodePartitionMetrics nodes !! p = Some metric
    /\ v = partition_field f metric
    /\ Float64.gt0 v = true.
Proof.
  intros Hnd. rewrite elem_of_app, list_elem_of_singleton.
  intros [Hin|Heq]; [|discriminate Heq].
  apply sentNodes_origin in Hin
    as [(q & metric & f' & Hlook & Heq & Hpos)
       |[(state & cpus & _ & Heq)|(desc & v' & Heq)]].
  - injection Heq as Hd Hv Hq. apply (partitionDesc_inj _ _ _ Hnd) in Hd.
    subst. by exists metric.
  - injection Heq as Hd _ _. by apply partitionDesc_not_perState in Hd.
  - discriminate Heq.
Qed.

(** C3.  In a call whose fetch and parse succeed, a sample for a
    partition of the aggregates and one of its eight fields is sent
    exactly when the accumulated value of the field is greater than
    zero, and the sample then carries that value. *)
Theorem partition_sample_iff_positive ro nc sinfo fetcher' nodes p metric f :
  wellLabelled nc ->
  NoDup (labelledDescs nc) ->
  Fetch (fetcher nc) = ((sinfo, None), fetcher') ->
  parseNodeMetrics json_scan sinfo = (nodes, None) ->
  fetchNodePartitionMetrics nodes !! p = Some metric ->
  ((exists v, constMetric (partitionDesc nc f) GaugeValue v [p]
                ∈ sent (Collect json_scan ro nc))
   <-> Float64.gt0 (partition_field f metric) = true)
  /\ (forall v, constMetric (partitionDesc nc f) GaugeValue v [p]
                  ∈ sent (Collect json_scan ro nc) ->
                v = partition_field f metric).
Proof.
  intros Hwf Hnd HF HP Hlook.
  rewrite (Collect_success _ _ _ _ _ Hwf HF HP). cbn [sent].
  split; [split|].
  - intros [v Hin].
    apply (partition_sample_origin _ _ _ _ _ _ Hnd) in Hin
      as (metric' & Hlook' & -> & Hpos). congruence.
  - intros Hpos. exists (partition_field f metric).
    apply elem_of_app. left. by apply partition_sample_sent.
  - intros v Hin.
    apply (partition_sample_origin _ _ _ _ _ _ Hnd) in Hin
      as (metric' & Hlook' & -> & Hpos). congruence.
Qed.

(** C4.  Every call of [Collect] ends by sending the error counter
    with the value it then has, and sends it once; when the fetch or
    the parse fails the counter has grown by exactly one and nothing
    else is sent; when both succeed the counter is as it was. *)
Theorem Collect_sends_error_counter_last ro nc :
  (exists before,
      sent (Collect json_scan ro nc)
      = before ++ [counterMetric (nodeScrapeErrors (after (Collect json_scan ro nc)))]
      /\ forall c, counterMetric c ∉ before)
  /\ (forall sinfo e fetcher',
        Fetch (fetcher nc) = ((sinfo, Some e), fetcher') ->
        count (nodeScrapeErrors (after (Collect json_scan ro nc)))
        = (count (nodeScrapeErrors nc) + 1)%N
        /\ sent (Collect json_scan ro nc)
           = [counterMetric (Inc (nodeScrapeErrors nc))])
  /\ (forall sinfo fetcher' nodes e,
        Fetch (fetcher nc) = ((sinfo, None), fetcher') ->
        parseNodeMetrics json_scan sinfo = (nodes, Some e) ->
        count (nodeScrapeErrors (after (Collect json_scan ro nc)))
        = (count (nodeScrapeErrors nc) + 1)%N
        /\ sent (Collect json_scan ro nc)
           = [counterMetric (Inc (nodeScrapeErrors nc))])
  /\ (forall sinfo fetcher' nodes,
        Fetch (fetcher nc) = ((sinfo, None), fetcher') ->
        parseNodeMetrics json_scan sinfo = (nodes, None) ->
        nodeScrapeErrors (after (Collect json_scan ro nc)) = nodeScrapeErrors nc).
Proof.
  split; [|split; [|split]].
  - unfold Collect.
    destruct (Fetch (fetcher nc)) as [[sinfo [e|]] fetcher'] eqn:HF; cbn.
    { exists []. split; [done|]. intros c. apply not_elem_of_nil. }
    destruct (parseNodeMetrics json_scan sinfo) as [nodes [e|]] eqn:HP; cbn.
    { exists []. split; [done|]. intros c. apply not_elem_of_nil. }
    pose proof (collectNodes_sendsGauges ro (withFetcher nc fetcher') nodes) as Hg.
    destruct (collectNodes ro (withFetcher nc fetcher') nodes) as [before r].
    cbn. by exists before.
  - intros sinfo e fetcher' HF. unfold Collect. by rewrite HF.
  - intros sinfo fetcher' nodes e HF HP. unfold Collect. rewrite HF. cbn.
    by rewrite HP.
  - intros sinfo fetcher' nodes HF HP. unfold Collect. rewrite HF. cbn.
    rewrite HP. by destruct (collectNodes _ _ _).
Qed.

End CollectorFacts.


(** An instance: the two-node fixture, partition batch, field cpus. *)
Lemma partition_sample_iff_positive_witness :
  wellLabelled Scenario.twoNodes
  /\ NoDup (labelledDescs Scenario.twoNodes)
  /\ Fetch (fetcher Scenario.twoNodes) = (([x30], None), Stub.mk [] 1)
  /\ parseNodeMetrics Fixture.scan [x30] = (Fixture.nodes, None)
  /\ fetchNodePartitionMetrics Fixture.nodes !! "batch" = Some Scenario.batch
  /\ ((exists v, prometheus.constMetric
                   (partitionDesc Scenario.twoNodes FCpus) prometheus.GaugeValue v ["batch"]
                   ∈ sent (Collect Fixture.scan listOrder Scenario.twoNodes))
      <-> Float64.gt0 (partition_field FCpus Scenario.batch) = true)
  /\ (forall v, prometheus.constMetric
                  (partitionDesc Scenario.twoNodes FCpus) prometheus.GaugeValue v ["batch"]
                  ∈ sent (Collect Fixture.scan listOrder Scenario.twoNodes) ->
                v = partition_field FCpus Scenario.batch).
Proof.
  split; [apply NewNodeCollecter_wellLabelled|].
  split; [apply NewNodeCollecter_labelledDescs|].
  split; [reflexivity|]. split; [vm_compute; reflexivity|].
  split; [vm_compute; reflexivity|].
  apply (partition_sample_iff_positive Fixture.scan listOrder Scenario.twoNodes
           [x30] (Stub.mk [] 1) Fixture.nodes "batch" Scenario.batch FCpus).
  - apply NewNodeCollecter_wellLabelled.
  - apply NewNodeCollecter_labelledDescs.
  - reflexivity.
  - vm_compute; reflexivity.
  - vm_compute; reflexivity.
Defined.

(** The two-node fixture: partition batch has 12 cpus and no real
    memory, so its cpus sample is sent and its real-memory sample is
    not. *)
Example batch_cpus_sent_real_memory_suppressed :
  sent (Collect Fixture.scan listOrder Scenario.twoNodes)
  = [prometheus.constMetric (partitionCpus Scenario.twoNodes) prometheus.GaugeValue
       (Float64.of_Z 8) ["gpu"];
     prometheus.constMetric (partitionCpus Scenario.twoNodes) prometheus.GaugeValue
       (Float64.of_Z 12) ["batch"];
     prometheus.constMetric (totalCpus Scenario.twoNodes) prometheus.GaugeValue
       (Float64.of_Z 12) [];
     prometheus.constMetric (totalIdleCpus Scenario.twoNodes) prometheus.GaugeValue
       Float64.zero [];
     prometheus.constMetric (totalCpuLoad Scenario.twoNodes) prometheus.GaugeValue
       Float64.zero [];
     prometheus.constMetric (cpusPerState Scenario.twoNodes) prometheus.GaugeValue
       (Float64.of_Z 4) ["idle"];
     prometheus.constMetric (cpusPerState Scenario.twoNodes) prometheus.GaugeValue
       (Float64.of_Z 8) ["alloc"];
     prometheus.constMetric (totalRealMemory Scenario.twoNodes) prometheus.GaugeValue
       Float64.zero [];
     prometheus.constMetric (totalFreeMemory Scenario.twoNodes) prometheus.GaugeValue
       Float64.zero [];
     prometheus.constMetric (totalAllocMemory Scenario.twoNodes) prometheus.GaugeValue
       Float64.zero [];
     prometheus.counterMetric
       (prometheus.mkCounter "slurm_node_scrape_error" "slurm node info scrape errors" 0)].
Proof. vm_compute. reflexivity. Qed.

(** A call that panics on its first [MustNewConstMetric] still sends
    the counter from the deferred function. *)
Example panic_still_sends_counter :
  returned (Collect Fixture.scan listOrder Scenario.mislabelled) = false
  /\ sent (Collect Fixture.scan listOrder Scenario.mislabelled)
     = [prometheus.counterMetric
          (prometheus.mkCounter "slurm_node_scrape_error" "slurm node info scrape errors" 0)]
  /\ returned (Collect Fixture.scan listOrder Scenario.twoNodes) = true.
Proof. repeat split; vm_compute; reflexivity. Qed.

(** The transport-failure scenario: the counter sample alone, at one
    more than before; after a successful cycle the next failing one
    sends the counter at one more than the successful one did. *)
Example transport_failure_sends_counter_only :
  sent (Collect Fixture.scan listOrder Scenario.transportFailure)
  = [prometheus.counterMetric
       (prometheus.mkCounter "slurm_node_scrape_error" "slurm node info scrape errors" 1)]
  /\ sent (Collect Fixture.scan listOrder Scenario.sourceError)
  = [prometheus.counterMetric
       (prometheus.mkCounter "slurm_node_scrape_error" "slurm node info scrape errors" 1)]
  /\ last (sent (Collect Fixture.scan listOrder
                  (after (Collect Fixture.scan listOrder Scenario.twoNodes))))
  = Some (prometheus.counterMetric
       (prometheus.mkCounter "slurm_node_scrape_error" "slurm node info scrape errors" 1)).
Proof. repeat split; vm_compute; reflexivity. Qed.

(** ** Decoding a node entry *)

Lemma with_result_inr {A B} (r : error + A) (k : A -> B) b :
  with_result r k = inr b -> exists a, r = inr a /\ b = k a.
Proof. destruct r as [e|a]; [done|]. intros [= <-]. by exists a. Qed.

(** Storing a member whose key does not select [state] leaves the
    state of the node as it is. *)
Lemma store_keeps_State ctx key v c c' :
  select_field NodeMetricsJson.tags key <> Some NodeMetricsJson.state ->
  NodeMetricsJson.store ctx key v c = inr c' ->
  NodeMetrics.State (NodeMetricsJson.node c')
  = NodeMetrics.State (NodeMetricsJson.node c).
Proof.
  intros Hsel. unfold NodeMetricsJson.store.
  destruct (select_field NodeMetricsJson.tags key) as [[]|];
    try done;
    try (intros Hres; apply with_result_inr in Hres as (x & _ & ->); done).
  by intros [= <-].
Qed.

Lemma decode_members_keeps_State ctx members c c' :
  forallb (fun kv => negb (bool_decide (select_field NodeMetricsJson.tags kv.1
                                        = Some NodeMetricsJson.state)))
          members = true ->
  Json.decode_members (NodeMetricsJson.store ctx) members c = inr c' ->
  NodeMetrics.State (NodeMetricsJson.node c')
  = NodeMetrics.State (NodeMetricsJson.node c).
Proof.
  revert c. induction members as [|[key v] members IH]; intros c Habs; cbn.
  - by intros [= <-].
  - cbn in Habs. apply andb_prop in Habs as [Hkey Habs].
    apply negb_true_iff, bool_decide_eq_false in Hkey.
    destruct (NodeMetricsJson.store ctx key v c) as [e|c1] eqn:Hstore; [done|].
    intros Hrest. rewrite (IH _ Habs Hrest).
    by apply (store_keeps_State ctx key v).
Qed.

(** A node entry without a [state] member leaves the state of the
    node it is decoded into as it is. *)
Lemma decodeCell_stateAbsent ctx entry c c' :
  stateAbsent entry = true ->
  NodeMetricsJson.decodeCell ctx entry c = inr c' ->
  NodeMetrics.State (NodeMetricsJson.node c')
  = NodeMetrics.State (NodeMetricsJson.node c).
Proof.
  destruct entry as [| | | | |members]; try done. cbn.
  intros Habs Hdec. by rewrite (decode_members_keeps_State _ _ _ _ Habs Hdec).
Qed.

(** A node entry without a [state] member decodes, from the zero
    value, to a node whose state is the empty string. *)
Lemma decode_stateAbsent entry node :
  stateAbsent entry = true ->
  NodeMetricsJson.decode entry NodeMetrics.zero = inr node ->
  NodeMetrics.State node = "".
Proof.
  intros Habs Hdec. unfold NodeMetricsJson.decode in Hdec.
  apply with_result_inr in Hdec as (c' & Hdec & ->).
  by rewrite (decodeCell_stateAbsent _ _ _ _ Habs Hdec).
Qed.

(** *** The error context matters to the error only *)

Lemma decode_string_context ctx ctx' v cur x :
  Json.decode_string ctx v cur = inr x -> Json.decode_string ctx' v cur = inr x.
Proof. by destruct v. Qed.

Lemma decode_float64_context ctx ctx' v cur x :
  Json.decode_float64 ctx v cur = inr x -> Json.decode_float64 ctx' v cur = inr x.
Proof. by destruct v. Qed.

Lemma decode_elements_context {A} (dec dec' : Json.value -> A -> error + A)
    zero l cells r :
  (forall v a b, dec v a = inr b -> dec' v a = inr b) ->
  Json.decode_elements dec zero l cells = inr r ->
  Json.decode_elements dec' zero l cells = inr r.
Proof.
  intros Hdec. revert cells r.
  induction l as [|v l IH]; intros cells r; cbn; [done|].
  destruct (dec v (hd zero cells)) as [e|a] eqn:Hv; [done|].
  rewrite (Hdec _ _ _ Hv).
  destruct (Json.decode_elements dec zero l (tl cells)) as [e|r'] eqn:Hl; [done|].
  by rewrite (IH _ _ Hl).
Qed.

Lemma decode_slice_context {A} ctx ctx' type
    (dec dec' : Json.value -> A -> error + A) zero v cur s :
  (forall v a b, dec v a = inr b -> dec' v a = inr b) ->
  Json.decode_slice ctx type dec zero v cur = inr s ->
  Json.decode_slice ctx' type dec' zero v cur = inr s.
Proof.
  intros Hdec. destruct v as [| | | |l|]; try done.
  destruct l as [|v l]; [done|]. cbn [Json.decode_slice].
  intros Hres. apply with_result_inr in Hres as (r & Hr & ->).
  by rewrite (decode_elements_context dec dec' _ _ _ _ Hdec Hr).
Qed.

Lemma store_context ctx ctx' key v c c' :
  NodeMetricsJson.store ctx key v c = inr c' ->
  NodeMetricsJson.store ctx' key v c = inr c'.
Proof.
  unfold NodeMetricsJson.store.
  destruct (select_field NodeMetricsJson.tags key) as [[]|]; [..|done];
    intros Hres; apply with_result_inr in Hres as (x & Hx & ->);
    first [ by rewrite (decode_string_context _ (NodeMetricsJson.at_field ctx' _) _ _ _ Hx)
          | by rewrite (decode_float64_context _ (NodeMetricsJson.at_field ctx' _) _ _ _ Hx)
          | idtac ].
  erewrite decode_slice_context; [done| |exact Hx].
  intros ? ? ?. apply decode_string_context.
Qed.

Lemma decode_members_context {A} (store store' : string -> Json.value -> A -> error + A)
    members cur r :
  (forall key v a b, store key v a = inr b -> store' key v a = inr b) ->
  Json.decode_members store members cur = inr r ->
  Json.decode_members store' members cur = inr r.
Proof.
  intros Hstore. revert cur.
  induction members as [|[key v] members IH]; intros cur; cbn; [done|].
  destruct (store key v cur) as [e|cur'] eqn:Hs; [done|].
  rewrite (Hstore _ _ _ _ Hs). apply IH.
Qed.

Lemma decodeCell_context ctx ctx' v c c' :
  NodeMetricsJson.decodeCell ctx v c = inr c' ->
  NodeMetricsJson.decodeCell ctx' v c = inr c'.
Proof.
  destruct v as [| | | | |members]; try done. cbn.
  apply decode_members_context. intros ? ? ? ?. apply store_context.
Qed.

(** *** Arrays *)

(** Where the cells of a slice come from after an array was decoded
    into it: from the element of the array at the same position,
    decoded into the cell that was there, or, past the array, from
    the cell that was there. *)
Lemma decode_elements_lookup {A} (dec : Json.value -> A -> error + A)
    zero l cells r i a :
  Json.decode_elements dec zero l cells = inr r ->
  (r.1 ++ r.2) !! i = Some a ->
  (exists entry, l !! i = Some entry
                 /\ dec entry (default zero (cells !! i)) = inr a)
  \/ (l !! i = None /\ cells !! i = Some a).
Proof.
  revert cells r i. induction l as [|v l IH]; intros cells r i; cbn.
  - intros [= <-]. cbn. by right.
  - destruct (dec v (hd zero cells)) as [e|a0] eqn:Hv; [done|].
    destruct (Json.decode_elements dec zero l (tl cells)) as [e|r'] eqn:Hl; [done|].
    intros [= <-]. cbn [fst snd]. destruct i as [|i]; cbn.
    + intros [= <-]. left. exists v. split; [done|]. by destruct cells.
    + intros Hi. destruct (IH _ _ _ Hl Hi) as [(entry & He & Hd)|[Hn Hc]].
      * left. exists entry. split; [done|]. by destruct cells.
      * right. split; [done|]. by destruct cells.
Qed.

Lemma decode_elements_length {A} (dec : Json.value -> A -> error + A)
    zero l cells r :
  Json.decode_elements dec zero l cells = inr r -> length r.1 = length l.
Proof.
  revert cells r. induction l as [|v l IH]; intros cells r; cbn.
  - by intros [= <-].
  - destruct (dec v (hd zero cells)) as [e|a0]; [done|].
    destruct (Json.decode_elements dec zero l (tl cells)) as [e|r'] eqn:Hl; [done|].
    intros [= <-]. cbn. by rewrite (IH _ _ Hl).
Qed.

(** Into a slice without cells every element is decoded from the zero
    value. *)
Lemma decode_elements_elem {A} (dec : Json.value -> A -> error + A) zero l r entry :
  Json.decode_elements dec zero l [] = inr r ->
  entry ∈ l ->
  exists a, dec entry zero = inr a /\ a ∈ r.1.
Proof.
  revert r. induction l as [|v l IH]; intros r; cbn.
  - intros _ Hin. by apply elem_of_nil in Hin.
  - destruct (dec v zero) as [e|a] eqn:Hv; [done|].
    destruct (Json.decode_elements dec zero l []) as [e|r'] eqn:Hl; [done|].
    intros [= <-]. rewrite elem_of_cons. intros [->|Hin].
    + exists a. split; [done|]. apply elem_of_cons. by left.
    + destruct (IH r' eq_refl Hin) as (a' & Ha' & Hin').
      exists a'. split; [done|]. apply elem_of_cons. by right.
Qed.

(** ** Decoding the response *)

(** What storing one member does to [Nodes]. *)
Lemma store_Nodes ctx key v m m' :
  sinfoResponse.store ctx key v m = inr m' ->
  if decide (select_field sinfoResponse.tags key = Some sinfoResponse.nodes)
  then Json.decode_slice (sinfoResponse.at_field ctx "nodes") "[]main.NodeMetrics"
         (NodeMetricsJson.decodeCell (sinfoResponse.at_field ctx "nodes"))
         NodeMetricsJson.zeroCell v (sinfoResponse.memNodes m)
       = inr (sinfoResponse.memNodes m')
  else sinfoResponse.memNodes m' = sinfoResponse.memNodes m.
Proof.
  unfold sinfoResponse.store.
  destruct (select_field sinfoResponse.tags key) as [[]|]; cbn.
  - intros Hres. by apply with_result_inr in Hres as (x & _ & ->).
  - intros Hres. by apply with_result_inr in Hres as (x & _ & ->).
  - intros Hres. by apply with_result_inr in Hres as (x & -> & ->).
  - by intros [= <-].
Qed.

(** Members none of which selects [Nodes] leave it as it is. *)
Lemma decode_members_Nodes_none ctx members m m' :
  Json.decode_members (sinfoResponse.store ctx) members m = inr m' ->
  filter (fun kv => select_field sinfoResponse.tags kv.1
                    = Some sinfoResponse.nodes) members = [] ->
  sinfoResponse.memNodes m' = sinfoResponse.memNodes m.
Proof.
  revert m. induction members as [|[key v] members IH]; intros m;
    cbn [Json.decode_members].
  - by intros [= <-].
  - destruct (sinfoResponse.store ctx key v m) as [e|m1] eqn:Hstore; [done|].
    intros Hrest. rewrite filter_cons. cbn [fst].
    apply store_Nodes in Hstore.
    destruct (decide (select_field sinfoResponse.tags key = Some sinfoResponse.nodes));
      [done|].
    intros Hnone. by rewrite (IH _ Hrest Hnone).
Qed.

(** The one member that selects [Nodes] is decoded into the slice the
    struct held at the start. *)
Lemma decode_members_Nodes_single ctx members m m' key v :
  Json.decode_members (sinfoResponse.store ctx) members m = inr m' ->
  filter (fun kv => select_field sinfoResponse.tags kv.1
                    = Some sinfoResponse.nodes) members = [(key, v)] ->
  Json.decode_slice (sinfoResponse.at_field ctx "nodes") "[]main.NodeMetrics"
    (NodeMetricsJson.decodeCell (sinfoResponse.at_field ctx "nodes"))
    NodeMetricsJson.zeroCell v (sinfoResponse.memNodes m)
  = inr (sinfoResponse.memNodes m').
Proof.
  revert m. induction members as [|[key0 v0] members IH]; intros m;
    cbn [Json.decode_members].
  - done.
  - destruct (sinfoResponse.store ctx key0 v0 m) as [e|m1] eqn:Hstore; [done|].
    intros Hrest. rewrite filter_cons. cbn [fst].
    apply store_Nodes in Hstore.
    destruct (decide (select_field sinfoResponse.tags key0 = Some sinfoResponse.nodes)).
    + intros [= -> -> Hnone].
      by rewrite (decode_members_Nodes_none ctx members _ _ Hrest Hnone).
    + intros Hone. rewrite <- Hstore. by apply IH.
Qed.

(** The member that selects [Nodes] last is decoded into the slice
    the members before it have left. *)
Lemma decode_members_Nodes_last ctx members m m' key v :
  Json.decode_members (sinfoResponse.store ctx) members m = inr m' ->
  last (filter (fun kv => select_field sinfoResponse.tags kv.1
                          = Some sinfoResponse.nodes) members) = Some (key, v) ->
  exists s0,
    Json.decode_slice (sinfoResponse.at_field ctx "nodes") "[]main.NodeMetrics"
      (NodeMetricsJson.decodeCell (sinfoResponse.at_field ctx "nodes"))
      NodeMetricsJson.zeroCell v s0
    = inr (sinfoResponse.memNodes m').
Proof.
  revert m. induction members as [|[key0 v0] members IH]; intros m;
    cbn [Json.decode_members].
  - done.
  - destruct (sinfoResponse.store ctx key0 v0 m) as [e|m1] eqn:Hstore; [done|].
    intros Hrest. rewrite filter_cons. cbn [fst].
    destruct (decide (select_field sinfoResponse.tags key0 = Some sinfoResponse.nodes))
      as [Hsel|Hsel]; [|by apply (IH m1)].
    destruct (filter _ members) as [|kv rest] eqn:Hf.
    + cbn. intros [= -> ->]. exists (sinfoResponse.memNodes m).
      apply store_Nodes in Hstore. rewrite decide_True in Hstore by done.
      rewrite Hstore. f_equal. symmetry.
      by apply (decode_members_Nodes_none ctx members).
    + rewrite last_cons. intros Hlast.
      destruct (last (kv :: rest)) as [kv'|] eqn:Hl;
        [|by apply last_None in Hl].
      injection Hlast as ->. by apply (IH m1).
Qed.

(** The nodes a payload decodes to are the decoded node entries of the
    document. *)
Lemma decode_nodeEntries doc squeue entry :
  sinfoResponse.decode doc sinfoResponse.zero = inr squeue ->
  entry ∈ nodeEntries doc ->
  exists node,
    NodeMetricsJson.decode entry NodeMetrics.zero = inr node
    /\ node ∈ sinfoResponse.Nodes squeue.
Proof.
  unfold nodeEntries, sinfoResponse.decode. intros Hdec.
  apply with_result_inr in Hdec as (m' & Hdec & ->).
  destruct doc as [| | | | |members]; try (intros Hin; by apply elem_of_nil in Hin).
  cbn in Hdec.
  destruct (filter _ members) as [|[key v] rest] eqn:Hf;
    [intros Hin; by apply elem_of_nil in Hin|].
  destruct v as [| | | |entries|], rest as [|? ?];
    try (intros Hin; by apply elem_of_nil in Hin).
  intros Hin.
  pose proof (decode_members_Nodes_single _ _ _ _ _ _ Hdec Hf) as Hslice.
  destruct entries as [|v0 entries]; [by apply elem_of_nil in Hin|].
  cbn [Json.decode_slice sinfoResponse.load sinfoResponse.memNodes
       sinfoResponse.Nodes sinfoResponse.zero map Json.elems Json.spare app]
    in Hslice.
  apply with_result_inr in Hslice as (r & Hr & Hm).
  destruct (decode_elements_elem _ _ _ _ _ Hr Hin) as (c & Hc & Hcin).
  exists (NodeMetricsJson.node c). split.
  - unfold NodeMetricsJson.decode.
    change (NodeMetricsJson.mkCell NodeMetrics.zero []) with NodeMetricsJson.zeroCell.
    by rewrite (decodeCell_context _ Json.root _ _ _ Hc).
  - cbn [sinfoResponse.view sinfoResponse.Nodes]. rewrite Hm. cbn [Json.elems].
    apply list_elem_of_fmap. by exists c.
Qed.

(** *** A payload that repeats the [nodes] key *)

(** The cells at position [i] of the [Nodes] slice hold the empty
    state as long as no entry stored at that position has a [state]
    member. *)
Lemma decode_slice_State_empty ctx v s s' i :
  Json.decode_slice ctx "[]main.NodeMetrics" (NodeMetricsJson.decodeCell ctx)
    NodeMetricsJson.zeroCell v s = inr s' ->
  (forall entries e, v = Json.Array entries -> entries !! i = Some e ->
                     stateAbsent e = true) ->
  (forall c, (Json.elems s ++ Json.spare s) !! i = Some c ->
             NodeMetrics.State (NodeMetricsJson.node c) = "") ->
  forall c, (Json.elems s' ++ Json.spare s') !! i = Some c ->
            NodeMetrics.State (NodeMetricsJson.node c) = "".
Proof.
  intros Hdec Habs Hinv c.
  destruct v as [| | | |l|]; try done.
  - injection Hdec as <-. done.
  - destruct l as [|v0 l]; [injection Hdec as <-; done|].
    cbn [Json.decode_slice] in Hdec.
    apply with_result_inr in Hdec as (r & Hr & ->). cbn [Json.elems Json.spare].
    intros Hc.
    destruct (decode_elements_lookup _ _ _ _ _ _ _ Hr Hc)
      as [(entry & Hentry & Hd)|[_ Hcell]]; [|by apply Hinv].
    rewrite (decodeCell_stateAbsent _ _ _ _ (Habs _ _ eq_refl Hentry) Hd).
    destruct ((Json.elems s ++ Json.spare s) !! i) as [c0|] eqn:Hc0; [|done].
    by apply Hinv.
Qed.

Lemma decode_members_State_empty ctx members m m' i :
  Json.decode_members (sinfoResponse.store ctx) members m = inr m' ->
  (forall key entries e,
      (key, Json.Array entries) ∈ members ->
      select_field sinfoResponse.tags key = Some sinfoResponse.nodes ->
      entries !! i = Some e -> stateAbsent e = true) ->
  (forall c, (Json.elems (sinfoResponse.memNodes m)
              ++ Json.spare (sinfoResponse.memNodes m)) !! i = Some c ->
             NodeMetrics.State (NodeMetricsJson.node c) = "") ->
  forall c, (Json.elems (sinfoResponse.memNodes m')
             ++ Json.spare (sinfoResponse.memNodes m')) !! i = Some c ->
            NodeMetrics.State (NodeMetricsJson.node c) = "".
Proof.
  revert m. induction members as [|[key v] members IH]; intros m;
    cbn [Json.decode_members].
  - by intros [= <-].
  - destruct (sinfoResponse.store ctx key v m) as [e|m1] eqn:Hstore; [done|].
    intros Hrest Habs Hinv. apply (IH m1 Hrest).
    + intros key' entries e' Hin. apply Habs, elem_of_cons. by right.
    + apply store_Nodes in Hstore.
      destruct (decide (select_field sinfoResponse.tags key = Some sinfoResponse.nodes))
        as [Hsel|Hsel]; [|by rewrite Hstore].
      apply (decode_slice_State_empty _ _ _ _ _ Hstore); [|done].
      intros entries e' -> Hi. apply (Habs key entries e'); [|done|done].
      apply elem_of_cons. by left.
Qed.

Lemma elem_of_entriesAt members key entries i e :
  (key, Json.Array entries) ∈ members ->
  select_field sinfoResponse.tags key = Some sinfoResponse.nodes ->
  entries !! i = Some e ->
  e ∈ entriesAt i (Json.Object members).
Proof.
  intros Hin Hsel Hi. unfold entriesAt, nodesMembers.
  apply list_elem_of_omap. exists (Json.Array entries). split; [|done].
  apply list_elem_of_fmap. exists (key, Json.Array entries). split; [done|].
  by apply list_elem_of_filter.
Qed.

(** The node at position [i] of a decoded payload, when no entry at
    that position of any of its [nodes] arrays has a [state] member. *)
Lemma decode_State_empty doc squeue entries entry i :
  sinfoResponse.decode doc sinfoResponse.zero = inr squeue ->
  last (nodesMembers doc) = Some (Json.Array entries) ->
  entries !! i = Some entry ->
  (forall e, e ∈ entriesAt i doc -> stateAbsent e = true) ->
  exists node,
    sinfoResponse.Nodes squeue !! i = Some node
    /\ NodeMetrics.State node = "".
Proof.
  unfold sinfoResponse.decode. intros Hdec.
  apply with_result_inr in Hdec as (m' & Hdec & ->).
  destruct doc as [| | | | |members]; try done.
  cbn [nodesMembers]. rewrite fmap_last. intros Hlast Hi Habs.
  destruct (last (filter _ members)) as [[key v]|] eqn:Hl; [|done].
  injection Hlast as ->. cbn in Hdec.
  destruct (decode_members_Nodes_last _ _ _ _ _ _ Hdec Hl) as (s0 & Hslice).
  destruct entries as [|v0 entries]; [done|].
  cbn [Json.decode_slice] in Hslice.
  apply with_result_inr in Hslice as (r & Hr & Hm).
  pose proof (decode_elements_length _ _ _ _ _ Hr) as Hlen.
  assert (Hlt : (i < length r.1)%nat).
  { rewrite Hlen. by apply lookup_lt_Some in Hi. }
  apply lookup_lt_is_Some_2 in Hlt as [c Hc].
  exists (NodeMetricsJson.node c). split.
  - cbn [sinfoResponse.view sinfoResponse.Nodes]. rewrite Hm. cbn [Json.elems].
    change (map NodeMetricsJson.node r.1) with (NodeMetricsJson.node <$> r.1).
    by rewrite list_lookup_fmap, Hc.
  - apply (decode_members_State_empty _ _ _ _ i Hdec).
    + intros key' entries' e Hin Hsel He. apply Habs.
      by apply (elem_of_entriesAt members key' entries').
    + intros c0 Hc0. cbn in Hc0. by rewrite lookup_nil in Hc0.
    + rewrite Hm. cbn [Json.elems Json.spare].
      by rewrite lookup_app_l by (by apply lookup_lt_Some in Hc).
Qed.

Lemma parseNodeMetrics_success json_scan data nodes :
  parseNodeMetrics json_scan data = (nodes, None) ->
  exists squeue,
    json_Unmarshal json_scan data sinfoResponse.zero = inr squeue
    /\ sinfoResponse.Errors squeue = []
    /\ sinfoResponse.Nodes squeue = nodes.
Proof.
  unfold parseNodeMetrics.
  destruct (json_Unmarshal json_scan data sinfoResponse.zero) as [e|squeue]; [done|].
  destruct (sinfoResponse.Errors squeue) as [|e rest] eqn:HE; [|done].
  intros [= <-]. by exists squeue.
Qed.

Section StatelessNode.

Import prometheus.

Context {F : Type} `{SlurmFetcher F} {C : Type}.
Variable json_scan : list byte -> error + Json.value.

(** A parsed node in the empty state is summed into the bucket of the
    empty string, which [Collect] sends as a per-state sample labelled
    with the empty string. *)
Lemma empty_state_sample_sent
    (ro : RangeOrder) (nc : @NodesCollector F C) (data : list byte)
    (fetcher' : F) (nodes : list NodeMetrics.t) (node : NodeMetrics.t) :
  wellLabelled nc ->
  Fetch (fetcher nc) = ((data, None), fetcher') ->
  parseNodeMetrics json_scan data = (nodes, None) ->
  node ∈ nodes ->
  NodeMetrics.State node = "" ->
  node ∈ nodesInState "" nodes
  /\ CpuSummaryMetrics.PerState (fetchNodeTotalCpuMetrics nodes) !! ""
     = Some (Float64.sum (map NodeMetrics.Cpus (nodesInState "" nodes)))
  /\ constMetric (cpusPerState nc) GaugeValue
       (Float64.sum (map NodeMetrics.Cpus (nodesInState "" nodes))) [""]
     ∈ sent (Collect json_scan ro nc).
Proof.
  intros Hwf HF HP Hin Hstate.
  assert (Hbucket : node ∈ nodesInState "" nodes).
  { unfold nodesInState. by apply list_elem_of_filter. }
  assert (Hlook : CpuSummaryMetrics.PerState (fetchNodeTotalCpuMetrics nodes) !! ""
                  = Some (Float64.sum (map NodeMetrics.Cpus (nodesInState "" nodes)))).
  { unfold fetchNodeTotalCpuMetrics. rewrite fold_addNodeCpu_PerState.
    destruct (nodesInState "" nodes); [|done].
    by apply elem_of_nil in Hbucket. }
  repeat (split; [done|]).
  rewrite (Collect_success _ _ _ _ _ _ Hwf HF HP). cbn [sent].
  apply elem_of_app. left. by apply state_sample_sent.
Qed.

(** C10, amended.  When the payload parses, a node entry without a
    [state] member decodes to a node whose state is the empty string,
    which is summed into the per-state bucket of the empty string and
    sent by [Collect] as a per-state sample labelled with the empty
    string, provided no entry with a [state] member was stored at its
    position before: in a payload with one [nodes] member this holds
    of every entry without [state], and the node is the entry decoded
    from the zero value; in a payload that repeats the key it holds
    of the entry at position [i] of the array decoded last when no
    entry at position [i] of any of the arrays has a [state] member. *)
Theorem absent_state_counts_as_empty_state
    (ro : RangeOrder) (nc : @NodesCollector F C) (data : list byte)
    (fetcher' : F) (doc : Json.value) (nodes : list NodeMetrics.t) :
  wellLabelled nc ->
  Fetch (fetcher nc) = ((data, None), fetcher') ->
  json_scan data = inr doc ->
  parseNodeMetrics json_scan data = (nodes, None) ->
  (forall entry,
      entry ∈ nodeEntries doc ->
      stateAbsent entry = true ->
      exists node,
        NodeMetricsJson.decode entry NodeMetrics.zero = inr node
        /\ node ∈ nodes
        /\ NodeMetrics.State node = ""
        /\ node ∈ nodesInState "" nodes
        /\ CpuSummaryMetrics.PerState (fetchNodeTotalCpuMetrics nodes) !! ""
           = Some (Float64.sum (map NodeMetrics.Cpus (nodesInState "" nodes)))
        /\ constMetric (cpusPerState nc) GaugeValue
             (Float64.sum (map NodeMetrics.Cpus (nodesInState "" nodes))) [""]
           ∈ sent (Collect json_scan ro nc))
  /\ (forall i entries entry,
        last (nodesMembers doc) = Some (Json.Array entries) ->
        entries !! i = Some entry ->
        (forall e, e ∈ entriesAt i doc -> stateAbsent e = true) ->
        exists node,
          nodes !! i = Some node
          /\ NodeMetrics.State node = ""
          /\ node ∈ nodesInState "" nodes
          /\ CpuSummaryMetrics.PerState (fetchNodeTotalCpuMetrics nodes) !! ""
             = Some (Float64.sum (map NodeMetrics.Cpus (nodesInState "" nodes)))
          /\ constMetric (cpusPerState nc) GaugeValue
               (Float64.sum (map NodeMetrics.Cpus (nodesInState "" nodes))) [""]
             ∈ sent (Collect json_scan ro nc)).
Proof.
  intros Hwf HF Hscan HP.
  destruct (parseNodeMetrics_success _ _ _ HP) as (squeue & Hdec & _ & Hnodes).
  unfold json_Unmarshal in Hdec. rewrite Hscan in Hdec.
  split.
  - intros entry Hentry Habs.
    destruct (decode_nodeEntries _ _ _ Hdec Hentry) as (node & Hnode & Hin).
    rewrite Hnodes in Hin.
    pose proof (decode_stateAbsent _ _ Habs Hnode) as Hstate.
    exists node. repeat (split; [done|]).
    by apply (empty_state_sample_sent ro nc data fetcher').
  - intros i entries entry Hlast Hi Habs.
    destruct (decode_State_empty _ _ _ _ _ Hdec Hlast Hi Habs)
      as (node & Hlook & Hstate).
    rewrite Hnodes in Hlook.
    exists node. repeat (split; [done|]).
    apply (empty_state_sample_sent ro nc data fetcher'); try done.
    by apply list_elem_of_lookup_2 in Hlook.
Qed.

End StatelessNode.

(** An instance: a payload whose only node has no state. *)
Lemma absent_state_counts_as_empty_state_witness :
  wellLabelled Scenario.stateless
  /\ Fetch (fetcher Scenario.stateless) = (([x32], None), Stub.mk [] 1)
  /\ Fixture.scan [x32] = inr Fixture.statelessDoc
  /\ parseNodeMetrics Fixture.scan [x32]
     = ([NodeMetrics.mk "node3" (Float64.of_Z 2) Float64.zero Float64.zero []
           "" Float64.zero Float64.zero Float64.zero Float64.zero Float64.zero ""],
        None)
  /\ nodeEntries Fixture.statelessDoc
     = [Json.Object [("hostname", Json.String "node3");
                     ("cpus", Json.Number (Float64.of_Z 2))]]
  /\ exists node,
       NodeMetricsJson.decode
         (Json.Object [("hostname", Json.String "node3");
                       ("cpus", Json.Number (Float64.of_Z 2))])
         NodeMetrics.zero = inr node
       /\ node ∈ [NodeMetrics.mk "node3" (Float64.of_Z 2) Float64.zero Float64.zero []
                    "" Float64.zero Float64.zero Float64.zero Float64.zero Float64.zero ""]
       /\ NodeMetrics.State node = ""
       /\ prometheus.constMetric (cpusPerState Scenario.stateless)
            prometheus.GaugeValue (Float64.of_Z 2) [""]
          ∈ sent (Collect Fixture.scan listOrder Scenario.stateless).
Proof.
  split; [apply NewNodeCollecter_wellLabelled|].
  split; [reflexivity|]. split; [reflexivity|].
  split; [vm_compute; reflexivity|]. split; [vm_compute; reflexivity|].
  destruct (absent_state_counts_as_empty_state Fixture.scan listOrder
              Scenario.stateless [x32] (Stub.mk [] 1) Fixture.statelessDoc
              [NodeMetrics.mk "node3" (Float64.of_Z 2) Float64.zero Float64.zero []
                 "" Float64.zero Float64.zero Float64.zero Float64.zero Float64.zero ""])
    as [Hsingle _].
  - apply NewNodeCollecter_wellLabelled.
  - reflexivity.
  - reflexivity.
  - vm_compute; reflexivity.
  - destruct (Hsingle (Json.Object [("hostname", Json.String "node3");
                                    ("cpus", Json.Number (Float64.of_Z 2))]))
      as (node & Hdec & Hin & Hstate & _ & _ & Hsent).
    + vm_compute. apply elem_of_cons. by left.
    + reflexivity.
    + exists node. repeat (split; [assumption|]). exact Hsent.
Defined.

(** The claim as worded fails on a payload that repeats the [nodes]
    key: the entry of the second array has no [state] member, the
    payload parses, and the node decoded from the entry is in state
    idle, the state stored for the entry of the first array; a sample
    labelled idle is sent for its cpus and none labelled with the empty
    string. *)
Lemma repeated_nodes_key_keeps_earlier_state :
  Repeated.scan [x38] = inr Repeated.doc
  /\ nodesMembers Repeated.doc
     = [Json.Array [Repeated.first]; Json.Array [Repeated.second]]
  /\ stateAbsent Repeated.second = true
  /\ NodeMetricsJson.decode Repeated.second NodeMetrics.zero
     = inr (NodeMetrics.mk "node3" (Float64.of_Z 2) Float64.zero Float64.zero []
              "" Float64.zero Float64.zero Float64.zero Float64.zero Float64.zero "")
  /\ parseNodeMetrics Repeated.scan [x38]
     = ([NodeMetrics.mk "node3" (Float64.of_Z 2) Float64.zero Float64.zero []
           "idle" Float64.zero Float64.zero Float64.zero Float64.zero Float64.zero ""],
        None)
  /\ prometheus.constMetric (cpusPerState Repeated.collector)
       prometheus.GaugeValue (Float64.of_Z 2) ["idle"]
     ∈ sent (Collect Repeated.scan listOrder Repeated.collector)
  /\ (forall v, prometheus.constMetric (cpusPerState Repeated.collector)
                  prometheus.GaugeValue v [""]
                ∉ sent (Collect Repeated.scan listOrder Repeated.collector)).
Proof.
  assert (Hsent : sent (Collect Repeated.scan listOrder Repeated.collector)
          = [prometheus.constMetric (totalCpus Repeated.collector)
               prometheus.GaugeValue (Float64.of_Z 2) [];
             prometheus.constMetric (totalIdleCpus Repeated.collector)
               prometheus.GaugeValue Float64.zero [];
             prometheus.constMetric (totalCpuLoad Repeated.collector)
               prometheus.GaugeValue Float64.zero [];
             prometheus.constMetric (cpusPerState Repeated.collector)
               prometheus.GaugeValue (Float64.of_Z 2) ["idle"];
             prometheus.constMetric (totalRealMemory Repeated.collector)
               prometheus.GaugeValue Float64.zero [];
             prometheus.constMetric (totalFreeMemory Repeated.collector)
               prometheus.GaugeValue Float64.zero [];
             prometheus.constMetric (totalAllocMemory Repeated.collector)
               prometheus.GaugeValue Float64.zero [];
             prometheus.counterMetric (nodeScrapeErrors Repeated.collector)])
    by (vm_compute; reflexivity).
  split; [reflexivity|]. split; [vm_compute; reflexivity|].
  split; [reflexivity|]. split; [vm_compute; reflexivity|].
  split; [vm_compute; reflexivity|]. rewrite Hsent. split.
  - rewrite !elem_of_cons. auto 10.
  - intros v Hin. rewrite !elem_of_cons, elem_of_nil in Hin.
    repeat destruct Hin as [Hin|Hin]; try discriminate Hin. done.
Qed.

(** ** Concurrent invocations *)

Lemma filter_insert_length {A} (p : A -> bool) (l : list A) i x y :
  l !! i = Some x ->
  length (List.filter p (<[i := y]> l)) + (if p x then 1 else 0)
  = length (List.filter p l) + (if p y then 1 else 0).
Proof.
  revert i. induction l as [|a l IH]; intros i Hi; [done|].
  destruct i as [|i]; cbn in Hi.
  - injection Hi as ->. cbn. destruct (p x), (p y); cbn; lia.
  - specialize (IH i Hi).
    change (<[S i := y]> (a :: l)) with (a :: <[i := y]> l).
    cbn [List.filter]. destruct (p a); cbn [length]; lia.
Qed.

Lemma filter_fmap_all {A B} (p : B -> bool) (g : A -> B) (l : list A) :
  (forall a, p (g a) = true) -> List.filter p (g <$> l) = g <$> l.
Proof.
  intros Hp. induction l as [|a l IH]; [done|].
  cbn. by rewrite Hp, IH.
Qed.

Lemma filter_fmap_none {A B} (p : B -> bool) (g : A -> B) (l : list A) :
  (forall a, p (g a) = false) -> List.filter p (g <$> l) = [].
Proof.
  intros Hp. induction l as [|a l IH]; [done|].
  cbn. by rewrite Hp, IH.
Qed.

Lemma filter_replicate_none {A} (p : A -> bool) (x : A) n :
  p x = false -> List.filter p (replicate n x) = [].
Proof. intros Hp. induction n as [|n IH]; [done|]. cbn. by rewrite Hp. Qed.

Section ConcurrentFacts.

Import prometheus.

Context {F : Type} `{SlurmFetcher F} {C : Type}.
Variable json_scan : list byte -> error + Json.value.

Implicit Types (nc : @NodesCollector F C) (ro : RangeOrder).

(** The two steps of an invocation that runs alone are a call of
    [Collect]. *)
Lemma steps_alone_Collect ro nc :
  run json_scan ro [0; 0] (start nc 1)
  = mkSystem (after (Collect json_scan ro nc))
             [Returned (sent (Collect json_scan ro nc))].
Proof.
  unfold run, start, stepInvocation, Collect. cbn.
  by destruct (Fetch (fetcher nc)) as [fetched fetcher'].
Qed.

(** After the first [k] of [n] entered invocations have each taken one
    step, they are all inside [Fetch]. *)
Lemma run_enter ro nc n k :
  k <= n ->
  exists nc' fetched,
    length fetched = k
    /\ run json_scan ro (seq 0 k) (start nc n)
       = mkSystem nc' ((InFetch <$> fetched) ++ replicate (n - k) Entered).
Proof.
  induction k as [|k IH]; intros Hk.
  - exists nc, []. split; [done|]. cbn. by rewrite Nat.sub_0_r.
  - destruct IH as (nc' & fetched & Hlen & IH); [lia|].
    rewrite seq_S. unfold run in *. rewrite fold_left_app, IH.
    cbn [fold_left Nat.add]. unfold stepInvocation. cbn [invocations collector].
    replace (n - k) with (S (n - S k)) by lia. cbn [replicate].
    rewrite lookup_app_r, length_fmap, Hlen, Nat.sub_diag
      by (rewrite length_fmap; lia).
    cbn [lookup list_lookup].
    destruct (Fetch (fetcher nc')) as [answer fetcher'].
    exists (withFetcher nc' fetcher'), (fetched ++ [answer]).
    split; [rewrite length_app; cbn; lia|]. f_equal.
    rewrite insert_app_r_alt, length_fmap, Hlen, Nat.sub_diag
      by (rewrite length_fmap; lia).
    cbn [insert list_insert]. by rewrite fmap_app, <- app_assoc.
Qed.

Lemma inFlight_all ro nc n :
  inFlight (run json_scan ro (seq 0 n) (start nc n)) = n.
Proof.
  destruct (run_enter ro nc n n) as (nc' & fetched & Hlen & ->); [lia|].
  unfold inFlight. cbn [invocations].
  rewrite Nat.sub_diag, app_nil_r, filter_fmap_all by done.
  by rewrite length_fmap.
Qed.

(** After the first [k] of the invocations inside [Fetch] have each
    taken one more step, they have returned. *)
Lemma run_return ro nc (fetched : list (list byte * option error)) k :
  k <= length fetched ->
  exists nc' returned,
    length returned = k
    /\ run json_scan ro (seq 0 k) (mkSystem nc (InFetch <$> fetched))
       = mkSystem nc' ((Returned <$> returned) ++ (InFetch <$> drop k fetched)).
Proof.
  induction k as [|k IH]; intros Hk.
  - exists nc, []. split; [done|]. cbn. by rewrite drop_0.
  - destruct IH as (nc' & returned & Hlen & IH); [lia|].
    rewrite seq_S. unfold run in *. rewrite fold_left_app, IH.
    cbn [fold_left Nat.add]. unfold stepInvocation. cbn [invocations collector].
    destruct (drop k fetched) as [|answer rest] eqn:Hdrop.
    { apply (f_equal length) in Hdrop. rewrite length_drop in Hdrop. cbn in Hdrop. lia. }
    assert (Hrest : drop (S k) fetched = rest).
    { by rewrite <- (drop_drop fetched 1 k), Nat.add_comm, Hdrop
        || (rewrite <- Nat.add_1_r, <- drop_drop, Hdrop; reflexivity). }
    rewrite lookup_app_r, length_fmap, Hlen, Nat.sub_diag
      by (rewrite length_fmap; lia).
    cbn [fmap list_fmap lookup list_lookup].
    eexists _, (returned ++ [_]).
    split; [rewrite length_app; cbn; lia|]. f_equal.
    rewrite insert_app_r_alt, length_fmap, Hlen, Nat.sub_diag
      by (rewrite length_fmap; lia).
    cbn [insert list_insert]. rewrite Hrest, fmap_app, <- app_assoc. done.
Qed.

Lemma fetches_S_r k (f : F) : fetches (S k) f = snd (Fetch (fetches k f)).
Proof.
  revert f. induction k as [|k IH]; intros f; [done|].
  change (fetches (S (S k)) f) with (fetches (S k) (snd (Fetch f))).
  by rewrite IH.
Qed.

Lemma failures_S_r k (f : F) :
  failures json_scan (S k) f
  = (failures json_scan k f
     + (if scrapeFails json_scan (fetches k f) then 1 else 0))%N.
Proof.
  revert f. induction k as [|k IH]; intros f.
  - cbn. lia.
  - change (failures json_scan (S (S k)) f)
      with ((if scrapeFails json_scan f then 1 else 0)
            + failures json_scan (S k) (snd (Fetch f)))%N.
    rewrite IH. cbn [failures fetches]. lia.
Qed.

(** The rest of [Collect] after the answer: the fetcher and the cache
    are as they were, and the counter has grown by one exactly when
    the answer fails. *)
Lemma collectFetched_after ro nc fetched :
  fetcher (after (deferred (collectFetched json_scan ro nc fetched))) = fetcher nc
  /\ cache (after (deferred (collectFetched json_scan ro nc fetched))) = cache nc
  /\ count (nodeScrapeErrors (after (deferred (collectFetched json_scan ro nc fetched))))
     = (count (nodeScrapeErrors nc)
        + (if answerFails json_scan fetched then 1 else 0))%N.
Proof.
  destruct fetched as [sinfo [e|]]; cbn.
  { repeat split. }
  destruct (parseNodeMetrics json_scan sinfo) as [nodes [e|]]; cbn.
  { repeat split. }
  destruct (collectNodes ro nc nodes) as [ch r]. cbn.
  repeat split. lia.
Qed.

Lemma stepInvocation_consistent ro nc s i :
  consistent json_scan nc s ->
  consistent json_scan nc (stepInvocation json_scan ro s i)
  /\ length (invocations (stepInvocation json_scan ro s i))
     = length (invocations s).
Proof.
  intros (Hf & Hc & Hn). unfold stepInvocation.
  destruct (invocations s !! i) as [[|fetched|ms]|] eqn:Hi; try done.
  - destruct (Fetch (fetcher (collector s))) as [answer fetcher'] eqn:HF.
    split; [|cbn; by rewrite length_insert].
    pose proof (filter_insert_length isInFetch _ i _ (InFetch answer) Hi) as Hin.
    pose proof (filter_insert_length hasReturned _ i _ (InFetch answer) Hi) as Hret.
    pose proof (filter_insert_length
                  (fun v => match v with
                            | InFetch fetched => answerFails json_scan fetched
                            | _ => false
                            end) _ i _ (InFetch answer) Hi) as Hpend.
    cbn in Hin, Hret, Hpend.
    unfold consistent, inFlight, returnedCount, pendingFailures in *.
    cbn [collector invocations fetcher cache withFetcher nodeScrapeErrors].
    set (k := length (List.filter isInFetch (invocations s))
              + length (List.filter hasReturned (invocations s))) in *.
    replace (length (List.filter isInFetch (<[i:=InFetch answer]> (invocations s)))
             + length (List.filter hasReturned (<[i:=InFetch answer]> (invocations s))))
      with (S k) by (unfold k; lia).
    rewrite fetches_S_r, failures_S_r, <- Hf, HF. cbn [snd].
    assert (Hans : scrapeFails json_scan (fetcher (collector s))
                   = answerFails json_scan answer).
    { unfold scrapeFails. rewrite HF. cbn [fst]. by destruct answer as [? [?|]]. }
    rewrite Hans. repeat split; [done|].
    destruct (answerFails json_scan answer); lia.
  - destruct (collectFetched_after ro (collector s) fetched) as (Hf' & Hc' & Hn').
    split; [|cbn; by rewrite length_insert].
    pose proof (filter_insert_length isInFetch _ i _
                  (Returned (sent (deferred (collectFetched json_scan ro
                                               (collector s) fetched)))) Hi) as Hin.
    pose proof (filter_insert_length hasReturned _ i _
                  (Returned (sent (deferred (collectFetched json_scan ro
                                               (collector s) fetched)))) Hi) as Hret.
    pose proof (filter_insert_length
                  (fun v => match v with
                            | InFetch fetched => answerFails json_scan fetched
                            | _ => false
                            end) _ i _
                  (Returned (sent (deferred (collectFetched json_scan ro
                                               (collector s) fetched)))) Hi) as Hpend.
    cbn in Hin, Hret, Hpend.
    unfold consistent, inFlight, returnedCount, pendingFailures in *.
    cbn [collector invocations].
    set (k := length (List.filter isInFetch (invocations s))
              + length (List.filter hasReturned (invocations s))) in *.
    match goal with
    | |- context [length (List.filter isInFetch ?l) + length (List.filter hasReturned ?l)] =>
        replace (length (List.filter isInFetch l) + length (List.filter hasReturned l))
          with k by (unfold k; lia)
    end.
    rewrite Hf', Hc', Hn'. repeat split; [done..|].
    destruct (answerFails json_scan fetched); lia.
Qed.

Lemma run_consistent ro nc schedule s :
  consistent json_scan nc s ->
  consistent json_scan nc (run json_scan ro schedule s)
  /\ length (invocations (run json_scan ro schedule s))
     = length (invocations s).
Proof.
  revert s. induction schedule as [|i schedule IH]; intros s Hs; [done|].
  cbn [run fold_left].
  destruct (stepInvocation_consistent ro nc s i Hs) as [Hs' Hlen].
  destruct (IH _ Hs') as [Hr Hlen']. split; [exact Hr|].
  unfold run in Hlen'. by rewrite Hlen'.
Qed.

Lemma start_consistent nc n : consistent json_scan nc (start nc n).
Proof.
  unfold consistent, inFlight, returnedCount, pendingFailures, start.
  cbn [collector invocations].
  rewrite !filter_replicate_none by done. cbn. repeat split; lia.
Qed.

(** When [n] invocations have entered [Fetch] one after the other and
    then returned from it one after the other, none is in flight and
    all have returned. *)
Lemma run_all_returned ro nc n :
  inFlight (run json_scan ro (seq 0 n ++ seq 0 n) (start nc n)) = 0
  /\ returnedCount (run json_scan ro (seq 0 n ++ seq 0 n) (start nc n)) = n.
Proof.
  assert (Happ : run json_scan ro (seq 0 n ++ seq 0 n) (start nc n)
                 = run json_scan ro (seq 0 n)
                     (run json_scan ro (seq 0 n) (start nc n)))
    by apply fold_left_app.
  rewrite Happ.
  destruct (run_enter ro nc n n) as (nc' & fetched & Hlen & ->); [lia|].
  rewrite Nat.sub_diag, app_nil_r.
  destruct (run_return ro nc' fetched n) as (nc'' & returned & Hlen' & ->); [lia|].
  rewrite drop_ge, app_nil_r by lia.
  unfold inFlight, returnedCount. cbn [invocations].
  rewrite filter_fmap_none, filter_fmap_all by done.
  by rewrite length_fmap.
Qed.

End ConcurrentFacts.

Lemma stub_calls_fetches k (f : Stub.t) :
  Stub.calls (fetches k f) = Stub.calls f + k.
Proof.
  revert f. induction k as [|k IH]; intros f; [cbn; lia|].
  cbn [fetches]. rewrite IH. cbn. destruct (Stub.responses f); cbn; lia.
Qed.

(** C1.  [Collect] calls [nc.fetcher.Fetch()] itself and never goes
    through [nc.cache]: [n] invocations that have entered [Collect]
    can all be inside [Fetch] at the same time, and once they have all
    returned the fetcher has served [n] calls while the cache is as it
    was. *)
Theorem concurrent_Collect_fetches_overlap {C : Type}
    (json_scan : list byte -> error + Json.value) (ro : RangeOrder)
    (nc : @NodesCollector Stub.t C) (n : nat) :
  inFlight (run json_scan ro (seq 0 n) (start nc n)) = n
  /\ Stub.calls (fetcher (collector
        (run json_scan ro (seq 0 n ++ seq 0 n) (start nc n))))
     = Stub.calls (fetcher nc) + n
  /\ cache (collector
        (run json_scan ro (seq 0 n ++ seq 0 n) (start nc n)))
     = cache nc.
Proof.
  split; [apply inFlight_all|].
  destruct (run_consistent json_scan ro nc (seq 0 n ++ seq 0 n) _
              (start_consistent json_scan nc n)) as [(Hf & Hc & _) _].
  destruct (run_all_returned json_scan ro nc n) as [Hin Hret].
  rewrite Hf, Hin, Hret, Hc. split; [apply stub_calls_fetches|done].
Qed.

(** Two scrapes of the two-node scenario that overlap: both are inside
    [Fetch] after one step each, and the fetcher has two calls to its
    account. *)
Example two_scrapes_two_fetches_in_flight :
  inFlight
    (run Fixture.scan listOrder [0; 1] (start Scenario.twoNodes 2)) = 2
  /\ Stub.calls (fetcher (collector
        (run Fixture.scan listOrder [0; 1] (start Scenario.twoNodes 2)))) = 2.
Proof. split; reflexivity. Qed.

(** ** float64 addition of small natural numbers is exact *)

Section FloatFacts.

Local Open Scope Z_scope.

Lemma digits2_pos_size (p : positive) : digits2_pos p = Pos.size p.
Proof. induction p; simpl; congruence. Qed.

Lemma Zdigits2_log2 z : 0 < z -> Zdigits2 z = Z.log2 z + 1.
Proof.
  destruct z as [|p|p]; try lia. intros _. cbn [Zdigits2].
  rewrite digits2_pos_size. destruct p; cbn [Z.log2 Pos.size]; lia.
Qed.

Lemma iter_xO_pow2 (d p : positive) :
  Zpos (Pos.iter xO p d) = Zpos p * 2 ^ Zpos d.
Proof.
  induction d as [|d IH] using Pos.peano_ind.
  - cbn. lia.
  - rewrite Pos.iter_succ, Pos2Z.inj_succ, Z.pow_succ_r by lia.
    rewrite Pos2Z.inj_xO. lia.
Qed.

(** Aligning a mantissa to a smaller exponent keeps the value. *)
Lemma shl_align_value m e e' :
  snd (shl_align m e e') = Z.min e e'
  /\ Zpos (fst (shl_align m e e')) = Zpos m * 2 ^ (e - Z.min e e').
Proof.
  unfold shl_align. destruct (e' - e) as [|d|d] eqn:Hd; cbn [fst snd].
  - replace (Z.min e e') with e by lia. rewrite Z.sub_diag. split; lia.
  - replace (Z.min e e') with e by lia. rewrite Z.sub_diag. split; lia.
  - replace (Z.min e e') with e' by lia. split; [reflexivity|].
    rewrite iter_xO_pow2. f_equal. f_equal. lia.
Qed.

Lemma iter_pos_shr_1 (n q : positive) :
  SpecFloat.iter_pos shr_1 n (Build_shr_record (Zpos (Pos.iter xO q n)) false false)
  = Build_shr_record (Zpos q) false false.
Proof.
  revert q. induction n as [n IH|n IH|]; intros q; cbn [SpecFloat.iter_pos Pos.iter].
  - cbn [shr_1 orb]. by rewrite IH, IH.
  - by rewrite IH, IH.
  - reflexivity.
Qed.

(** Shifting out [n] zero bits loses nothing. *)
Lemma shr_exact M n e :
  0 < M -> 0 <= n ->
  shr (Build_shr_record (M * 2 ^ n) false false) e n
  = (Build_shr_record M false false, e + n).
Proof.
  intros HM Hn. destruct n as [|n|n]; try lia.
  - cbn [shr]. by rewrite Z.pow_0_r, Z.mul_1_r, Z.add_0_r.
  - destruct M as [|q|q]; try lia. cbn [shr].
    by rewrite <- iter_xO_pow2, iter_pos_shr_1.
Qed.

Lemma log2_small s : 0 < s < 2 ^ 53 -> 0 <= Z.log2 s <= 52.
Proof.
  intros [H0 H1]. split; [apply Z.log2_nonneg|].
  assert (Z.log2 s < 53); [|lia]. apply Z.log2_lt_pow2; lia.
Qed.

Lemma fexp_small d :
  -1000 <= d <= 53 -> fexp Float64.prec Float64.emax d = d - 53.
Proof. unfold fexp, SpecFloat.emin, Float64.prec, Float64.emax. lia. Qed.

(** Rounding a mantissa that holds an integer below 2^53 is exact. *)
Lemma binary_round_exact (m : positive) (e s : Z) :
  0 < s < 2 ^ 53 -> -52 <= e <= 0 ->
  Zpos m = s * 2 ^ (- e) ->
  binary_round Float64.prec Float64.emax false m e = canon s.
Proof.
  intros Hs He Hm.
  pose proof (log2_small s Hs) as Hl.
  unfold binary_round.
  assert (Hdig : Zpos (digits2_pos m) + e = Z.log2 s + 1).
  { change (Zpos (digits2_pos m)) with (Zdigits2 (Zpos m)).
    rewrite Zdigits2_log2 by lia. rewrite Hm, Z.log2_mul_pow2 by lia. lia. }
  rewrite Hdig, fexp_small by lia.
  destruct (shl_align_value m e (Z.log2 s + 1 - 53)) as [Hez Hmz].
  destruct (shl_align m e (Z.log2 s + 1 - 53)) as [mz ez]. cbn [fst snd] in *.
  assert (Hmz' : Zpos mz
                 = (s * 2 ^ (52 - Z.log2 s)) * 2 ^ (Z.log2 s - 52 - ez)).
  { rewrite Hmz, Hm, <- !Z.mul_assoc, <- !Z.pow_add_r by lia.
    f_equal. f_equal. lia. }
  unfold binary_round_aux, shr_fexp.
  rewrite Zdigits2_log2 by lia.
  assert (Hlog : Z.log2 (Zpos mz) + 1 + ez = Z.log2 s + 1).
  { rewrite Hmz, Hm, <- Z.mul_assoc, <- Z.pow_add_r, Z.log2_mul_pow2 by lia.
    lia. }
  rewrite Hlog, fexp_small by lia.
  cbn [shr_record_of_loc]. rewrite Hmz'.
  replace (Z.log2 s + 1 - 53 - ez) with (Z.log2 s - 52 - ez) by lia.
  assert (Hpos : 0 < s * 2 ^ (52 - Z.log2 s))
    by (apply Z.mul_pos_pos; [lia | apply Z.pow_pos_nonneg; lia]).
  rewrite shr_exact by lia.
  cbn [shr_m loc_of_shr_record round_nearest_even].
  rewrite Zdigits2_log2, Z.log2_mul_pow2 by lia.
  replace (ez + (Z.log2 s - 52 - ez)) with (Z.log2 s - 52) by lia.
  rewrite fexp_small by lia.
  replace (52 - Z.log2 s + Z.log2 s + 1 + (Z.log2 s - 52) - 53 - (Z.log2 s - 52))
    with 0 by lia.
  cbn [shr shr_m].
  destruct (s * 2 ^ (52 - Z.log2 s)) as [|q|q] eqn:Hq; try lia.
  replace (Z.log2 s - 52 <=? Float64.emax - Float64.prec) with true
    by (symmetry; apply Z.leb_le; unfold Float64.emax, Float64.prec; lia).
  unfold canon. by rewrite Hq.
Qed.

Lemma of_Z_canon s : 0 < s < 2 ^ 53 -> Float64.of_Z s = canon s.
Proof.
  intros Hs. destruct s as [|p|p]; try lia.
  cbn [Float64.of_Z binary_normalize].
  apply binary_round_exact; [lia|lia|]. cbn. lia.
Qed.

Lemma canon_mantissa s :
  0 < s < 2 ^ 53 ->
  Zpos (Z.to_pos (s * 2 ^ (52 - Z.log2 s))) = s * 2 ^ (52 - Z.log2 s).
Proof.
  intros Hs. pose proof (log2_small s Hs).
  apply Z2Pos.id, Z.mul_pos_pos; [lia | apply Z.pow_pos_nonneg; lia].
Qed.

Lemma add_canon a b :
  0 < a -> 0 < b -> a + b < 2 ^ 53 ->
  Float64.add (canon a) (canon b) = canon (a + b).
Proof.
  intros Ha Hb Hab.
  pose proof (log2_small a ltac:(lia)) as Hla.
  pose proof (log2_small b ltac:(lia)) as Hlb.
  unfold Float64.add, canon at 1 2. cbn [SFadd cond_Zopp].
  remember (Z.log2 a - 52) as ea eqn:Hea.
  remember (Z.log2 b - 52) as eb eqn:Heb.
  remember (Z.to_pos (a * _)) as ma eqn:Hma0.
  remember (Z.to_pos (b * _)) as mb eqn:Hmb0.
  destruct (shl_align_value ma ea (Z.min ea eb)) as [_ Hva].
  destruct (shl_align_value mb eb (Z.min ea eb)) as [_ Hvb].
  rewrite (Z.min_r ea (Z.min ea eb)) in Hva by lia.
  rewrite (Z.min_r eb (Z.min ea eb)) in Hvb by lia.
  assert (Hma : Zpos ma = a * 2 ^ (- ea))
    by (subst ma ea; rewrite canon_mantissa by lia; f_equal; f_equal; lia).
  assert (Hmb : Zpos mb = b * 2 ^ (- eb))
    by (subst mb eb; rewrite canon_mantissa by lia; f_equal; f_equal; lia).
  assert (Hsum : Zpos (fst (shl_align ma ea (Z.min ea eb)))
                 + Zpos (fst (shl_align mb eb (Z.min ea eb)))
                 = (a + b) * 2 ^ (- Z.min ea eb)).
  { rewrite Hva, Hvb, Hma, Hmb, <- !Z.mul_assoc, <- !Z.pow_add_r by lia.
    replace (- ea + (ea - Z.min ea eb)) with (- Z.min ea eb) by lia.
    replace (- eb + (eb - Z.min ea eb)) with (- Z.min ea eb) by lia. lia. }
  destruct (Zpos (fst _) + Zpos (fst _)) as [|q|q] eqn:Hq; try lia.
  cbn [binary_normalize].
  apply binary_round_exact; [lia|lia|exact Hsum].
Qed.

(** The float64 sum of two natural numbers whose sum is below 2^53 is
    the float64 of their sum. *)
Lemma add_of_N a b :
  (a + b < 2 ^ 53)%N ->
  Float64.add (Float64.of_N a) (Float64.of_N b) = Float64.of_N (a + b).
Proof.
  intros Hab. assert (Hab' : Z.of_N a + Z.of_N b < 2 ^ 53).
  { change (2 ^ 53) with (Z.of_N (2 ^ 53)). lia. }
  unfold Float64.of_N. rewrite N2Z.inj_add.
  destruct (N.eq_dec a 0%N) as [->|Ha]; [|destruct (N.eq_dec b 0%N) as [->|Hb]].
  - change (Z.of_N 0) with 0. rewrite Z.add_0_l.
    change (Float64.of_Z 0) with (S754_zero false).
    destruct (N.eq_dec b 0%N) as [->|Hb]; [reflexivity|].
    rewrite of_Z_canon by lia. reflexivity.
  - rewrite Z.add_0_r. change (Float64.of_Z (Z.of_N 0)) with (S754_zero false).
    rewrite of_Z_canon by lia. reflexivity.
  - rewrite !of_Z_canon by lia. apply add_canon; lia.
Qed.

End FloatFacts.

Lemma fold_add_exact (l : list float64) (a : N) :
  Forall (fun x => Float64.nat_valued x = true) l ->
  (a + Nsum (map Float64.to_N l) < 2 ^ 53)%N ->
  fold_left Float64.add l (Float64.of_N a)
  = Float64.of_N (a + Nsum (map Float64.to_N l)).
Proof.
  revert a. induction l as [|x l IH]; intros a Hall Hbound;
    cbn [fold_left map Nsum fold_right] in *.
  - by rewrite N.add_0_r.
  - fold (Nsum (map Float64.to_N l)) in *.
    remember (Nsum (map Float64.to_N l)) as rest eqn:Hrest.
    remember (Float64.to_N x) as n eqn:Hn.
    inversion Hall as [|? ? Hx Hl]; subst x0 l0.
    apply bool_decide_eq_true in Hx. rewrite <- Hn in Hx. rewrite Hx.
    rewrite add_of_N by lia. subst rest. rewrite IH by (done || lia).
    f_equal. lia.
Qed.

(** A sum of natural-number floats that stays below 2^53 is the float64
    of the sum of the numbers. *)
Lemma sum_exact (l : list float64) :
  Forall (fun x => Float64.nat_valued x = true) l ->
  (Nsum (map Float64.to_N l) < 2 ^ 53)%N ->
  Float64.sum l = Float64.of_N (Nsum (map Float64.to_N l)).
Proof.
  intros Hall Hbound. unfold Float64.sum.
  change Float64.zero with (Float64.of_N 0).
  by rewrite fold_add_exact.
Qed.

Lemma Nsum_Permutation (l l' : list N) : l ≡ₚ l' -> Nsum l = Nsum l'.
Proof.
  induction 1; cbn; try lia. unfold Nsum in *. lia.
Qed.

(** ** Reordering the nodes *)

Lemma elem_of_listings p node nodes :
  node ∈ listings p nodes -> node ∈ nodes.
Proof.
  unfold listings. rewrite list_elem_of_In, in_flat_map.
  intros (node' & Hin & Hnode). apply in_flat_map in Hnode as (q & _ & Hq).
  destruct (decide (q = p)); [|done]. destruct Hq as [<-|[]].
  by apply list_elem_of_In.
Qed.

Lemma Nsum_app l1 l2 : Nsum (l1 ++ l2) = (Nsum l1 + Nsum l2)%N.
Proof. induction l1 as [|x l1 IH]; cbn; [done|]. unfold Nsum in *. lia. Qed.

(** The values a partition sums are among the values of all listings. *)
Lemma Nsum_listings_le (g : NodeMetrics.t -> N) p nodes :
  (Nsum (map g (listings p nodes))
   <= Nsum (flat_map (fun node => map (fun _ => g node)
                                      (NodeMetrics.Partitions node)) nodes))%N.
Proof.
  unfold listings. induction nodes as [|node nodes IH]; cbn [flat_map map].
  - done.
  - rewrite map_app, !Nsum_app.
    apply N.add_le_mono; [|exact IH]. clear IH.
    induction (NodeMetrics.Partitions node) as [|q ps IHps]; cbn [flat_map map].
    + done.
    + rewrite map_app, Nsum_app. change (Nsum (g node :: ?l)) with (g node + Nsum l)%N.
      destruct (decide (q = p)); cbn; lia.
Qed.

Lemma PartitionMetrics_ext (a b : PartitionMetrics.t) :
  (forall f, partition_field f a = partition_field f b) -> a = b.
Proof.
  intros Hf. destruct a, b.
  pose proof (Hf FCpus). pose proof (Hf FRealMemory). pose proof (Hf FFreeMemory).
  pose proof (Hf FAllocMemory). pose proof (Hf FAllocCpus). pose proof (Hf FIdleCpus).
  pose proof (Hf FWeight). pose proof (Hf FCpuLoad). cbn in *. congruence.
Qed.

(** The total of a field over the listings of a partition, when the
    values are natural numbers and their sum over all listings is
    below 2^53. *)
Lemma listings_sum_exact f p nodes :
  (forall node, node ∈ nodes -> Float64.nat_valued (node_field f node) = true) ->
  (listedTotal f nodes < 2 ^ 53)%N ->
  Float64.sum (map (node_field f) (listings p nodes))
  = Float64.of_N (Nsum (map (fun node => Float64.to_N (node_field f node))
                            (listings p nodes))).
Proof.
  intros Hnat Hbound. rewrite sum_exact.
  - by rewrite map_map.
  - apply Forall_forall. intros x Hx.
    apply list_elem_of_fmap in Hx as (node & -> & Hin).
    by apply Hnat, (elem_of_listings p).
  - rewrite map_map. eapply N.le_lt_trans; [|exact Hbound].
    apply (Nsum_listings_le (fun node => Float64.to_N (node_field f node))).
Qed.

Lemma listedTotal_Permutation f nodes nodes' :
  nodes ≡ₚ nodes' -> listedTotal f nodes = listedTotal f nodes'.
Proof.
  intros Hperm. unfold listedTotal. apply Nsum_Permutation.
  induction Hperm; cbn [flat_map].
  - done.
  - by f_equiv.
  - rewrite !app_assoc. f_equiv. apply Permutation_app_comm.
  - etrans; eauto.
Qed.

(** The nodes listed for a partition are the nodes that list it. *)
Lemma listings_node {A} (p : string) (node : A) (ps : list string) :
  flat_map (fun q => if decide (q = p) then [node] else []) ps
  = (fun _ => node) <$> filter (fun q => q = p) ps.
Proof.
  induction ps as [|q ps IH]; [done|].
  cbn [flat_map]. rewrite filter_cons, IH.
  by destruct (decide (q = p)).
Qed.

Lemma elem_of_listings_iff p node nodes :
  node ∈ listings p nodes <-> node ∈ nodes /\ p ∈ NodeMetrics.Partitions node.
Proof.
  unfold listings. rewrite list_elem_of_In, in_flat_map. split.
  - intros (node' & Hin & Hnode). rewrite listings_node in Hnode.
    apply list_elem_of_In, list_elem_of_fmap in Hnode as (q & -> & Hq).
    apply list_elem_of_filter in Hq as [-> Hq].
    split; [by apply list_elem_of_In|done].
  - intros [Hin Hp]. exists node. split; [by apply list_elem_of_In|].
    rewrite listings_node. apply list_elem_of_In, list_elem_of_fmap.
    exists p. split; [done|]. by apply list_elem_of_filter.
Qed.

(** The total of a field over the listings of one partition, when the
    values of the nodes that list it are natural numbers and add up to
    less than 2^53. *)
Lemma partition_sum_exact f p nodes :
  (forall node, node ∈ nodes -> p ∈ NodeMetrics.Partitions node ->
                Float64.nat_valued (node_field f node) = true) ->
  (partitionTotal f p nodes < 2 ^ 53)%N ->
  Float64.sum (map (node_field f) (listings p nodes))
  = Float64.of_N (partitionTotal f p nodes).
Proof.
  intros Hnat Hbound. unfold partitionTotal in *. rewrite sum_exact.
  - by rewrite map_map.
  - apply Forall_forall. intros x Hx.
    apply list_elem_of_fmap in Hx as (node & -> & Hin).
    apply elem_of_listings_iff in Hin as [Hin Hp]. by apply Hnat.
  - by rewrite map_map.
Qed.

Lemma partitionTotal_Permutation f p nodes nodes' :
  nodes ≡ₚ nodes' -> partitionTotal f p nodes = partitionTotal f p nodes'.
Proof.
  intros Hperm. unfold partitionTotal. apply Nsum_Permutation.
  by rewrite (listings_Permutation p _ _ Hperm).
Qed.

(** Reordering and one field of one partition. *)
Lemma partition_field_reordered f p nodes nodes' :
  nodes ≡ₚ nodes' ->
  (forall node, node ∈ nodes -> p ∈ NodeMetrics.Partitions node ->
                Float64.nat_valued (node_field f node) = true) ->
  (partitionTotal f p nodes < 2 ^ 53)%N ->
  partition_field f <$> (fetchNodePartitionMetrics nodes' !! p)
  = partition_field f <$> (fetchNodePartitionMetrics nodes !! p).
Proof.
  intros Hperm Hnat Hbound. rewrite !fetchNodePartitionMetrics_field.
  pose proof (listings_Permutation p _ _ Hperm) as Hl.
  assert (Hsum : Float64.sum (map (node_field f) (listings p nodes'))
                 = Float64.sum (map (node_field f) (listings p nodes))).
  { rewrite (partition_sum_exact f p nodes Hnat Hbound).
    rewrite (partition_sum_exact f p nodes').
    - by rewrite (partitionTotal_Permutation f p nodes nodes' Hperm).
    - intros node Hin. apply Hnat. by rewrite Hperm.
    - by rewrite <- (partitionTotal_Permutation f p nodes nodes' Hperm). }
  destruct (listings p nodes) as [|n l] eqn:El.
  { apply Permutation.Permutation_nil in Hl. by rewrite Hl. }
  destruct (listings p nodes') as [|n' l'] eqn:El'.
  { symmetry in Hl. by apply Permutation.Permutation_nil in Hl. }
  by rewrite Hsum.
Qed.

(** Order matters to the totals: those of partition batch over the
    loads 0.1, 0.2, 0.3 and over the same nodes in the opposite order
    differ in the last bit:
    (0.1 + 0.2) + 0.3 is 0.6000000000000001, (0.3 + 0.2) + 0.1 is 0.6. *)
Lemma partition_totals_depend_on_order :
  Loads.nodes ≡ₚ Loads.reordered
  /\ PartitionMetrics.CpuLoad <$> (fetchNodePartitionMetrics Loads.nodes !! "batch")
     = Some (S754_finite false 5404319552844596 (-53))
  /\ PartitionMetrics.CpuLoad <$> (fetchNodePartitionMetrics Loads.reordered !! "batch")
     = Some (S754_finite false 5404319552844595 (-53))
  /\ fetchNodePartitionMetrics Loads.reordered <> fetchNodePartitionMetrics Loads.nodes.
Proof.
  split; [|split; [|split]].
  - exact (Permutation_rev Loads.nodes).
  - by vm_compute.
  - by vm_compute.
  - intros Heq.
    apply (f_equal (fun m => PartitionMetrics.CpuLoad <$> (m !! "batch"))) in Heq.
    vm_compute in Heq. discriminate Heq.
Qed.

(** C8, amended.  Reordering the nodes keeps the keys of the mapping.
    The total of a field of a partition is the same after the
    reordering
    - whenever the nodes that list the partition come in the same
      order as before, whatever their values are (then the whole
      aggregate of the partition is the same), and
    - whenever the sum is exact: the values of the field of the nodes
      that list the partition are natural numbers that add up to less
      than 2^53.
    When the second holds of every field and every partition the
    mapping is the same. *)
Theorem fetchNodePartitionMetrics_reordered
    (nodes nodes' : list NodeMetrics.t) :
  nodes ≡ₚ nodes' ->
  dom (fetchNodePartitionMetrics nodes') = dom (fetchNodePartitionMetrics nodes)
  /\ (forall p, listings p nodes' = listings p nodes ->
                fetchNodePartitionMetrics nodes' !! p
                = fetchNodePartitionMetrics nodes !! p)
  /\ (forall p f,
        (forall node, node ∈ nodes -> p ∈ NodeMetrics.Partitions node ->
                      Float64.nat_valued (node_field f node) = true) ->
        (partitionTotal f p nodes < 2 ^ 53)%N ->
        partition_field f <$> (fetchNodePartitionMetrics nodes' !! p)
        = partition_field f <$> (fetchNodePartitionMetrics nodes !! p)
        /\ (forall metric, fetchNodePartitionMetrics nodes !! p = Some metric ->
                           partition_field f metric
                           = Float64.of_N (partitionTotal f p nodes)))
  /\ ((forall p f node, node ∈ nodes -> p ∈ NodeMetrics.Partitions node ->
                        Float64.nat_valued (node_field f node) = true) ->
      (forall p f, (partitionTotal f p nodes < 2 ^ 53)%N) ->
      fetchNodePartitionMetrics nodes' = fetchNodePartitionMetrics nodes).
Proof.
  intros Hperm. split; [|split; [|split]].
  - rewrite !fetchNodePartitionMetrics_dom. apply set_eq. intros p.
    rewrite !elem_of_list_to_set.
    assert (Hflat : flat_map NodeMetrics.Partitions nodes
                    ≡ₚ flat_map NodeMetrics.Partitions nodes').
    { clear -Hperm. induction Hperm; cbn [flat_map].
      - done.
      - by f_equiv.
      - rewrite !app_assoc. f_equiv. apply Permutation_app_comm.
      - etrans; eauto. }
    by rewrite Hflat.
  - intros p Hsame. by rewrite !fetchNodePartitionMetrics_lookup, Hsame.
  - intros p f Hnat Hbound. split.
    + by apply partition_field_reordered.
    + intros metric Hlook.
      pose proof (fetchNodePartitionMetrics_field nodes p f) as Hf.
      rewrite Hlook in Hf. cbn [fmap option_fmap option_map] in Hf.
      rewrite <- (partition_sum_exact f p nodes Hnat Hbound).
      destruct (listings p nodes); [done|]. by injection Hf.
  - intros Hnat Hbound. apply map_eq. intros p.
    assert (Hfields : forall f,
               partition_field f <$> (fetchNodePartitionMetrics nodes' !! p)
               = partition_field f <$> (fetchNodePartitionMetrics nodes !! p)).
    { intros f. apply partition_field_reordered; [done| |done].
      intros node. apply Hnat. }
    destruct (fetchNodePartitionMetrics nodes' !! p) as [a|],
             (fetchNodePartitionMetrics nodes !! p) as [b|];
      try (specialize (Hfields FCpus); done).
    f_equal. apply PartitionMetrics_ext. intros f.
    specialize (Hfields f). by injection Hfields.
Qed.

(** An instance: the nodes with loads 0.1, 0.2, 0.3 and their
    reversal; every field but the load adds up exactly in partition
    batch, the cpus to 3. *)
Lemma fetchNodePartitionMetrics_reordered_witness :
  Loads.nodes ≡ₚ Loads.reordered
  /\ dom (fetchNodePartitionMetrics Loads.reordered)
     = dom (fetchNodePartitionMetrics Loads.nodes)
  /\ (forall f, f <> FCpuLoad ->
        partition_field f <$> (fetchNodePartitionMetrics Loads.reordered !! "batch")
        = partition_field f <$> (fetchNodePartitionMetrics Loads.nodes !! "batch"))
  /\ partition_field FCpus <$> (fetchNodePartitionMetrics Loads.nodes !! "batch")
     = Some (Float64.of_N 3).
Proof.
  assert (Hperm : Loads.nodes ≡ₚ Loads.reordered)
    by exact (Permutation_rev Loads.nodes).
  assert (Hnat : forall f node, f <> FCpuLoad -> node ∈ Loads.nodes ->
                   "batch" ∈ NodeMetrics.Partitions node ->
                   Float64.nat_valued (node_field f node) = true).
  { intros f node Hf Hin _. unfold Loads.nodes in Hin.
    rewrite !elem_of_cons, elem_of_nil in Hin.
    destruct Hin as [->|[->|[->|[]]]]; destruct f; try reflexivity; done. }
  assert (Hbound : forall f, f <> FCpuLoad ->
                     (partitionTotal f "batch" Loads.nodes < 2 ^ 53)%N).
  { intros f _. destruct f; vm_compute; reflexivity. }
  split; [exact Hperm|].
  destruct (fetchNodePartitionMetrics_reordered _ _ Hperm) as (Hdom & _ & Hfield & _).
  split; [exact Hdom|]. split.
  - intros f Hf.
    by destruct (Hfield "batch" f (fun node => Hnat f node Hf) (Hbound f Hf)).
  - destruct (Hfield "batch" FCpus (fun node => Hnat FCpus node ltac:(done))
                (Hbound FCpus ltac:(done))) as [_ Hval].
    destruct (fetchNodePartitionMetrics Loads.nodes !! "batch") as [metric|] eqn:Hl;
      [|vm_compute in Hl; discriminate Hl].
    cbn [fmap option_fmap option_map]. f_equal. exact (Hval metric eq_refl).
Defined.

(** * Further properties of the collector and the aggregates *)

(** ** What a call of [Collect] leaves of the collector *)

Section CollectFrame.

Import prometheus.

Context {F : Type} `{SlurmFetcher F} {C : Type}.
Variable json_scan : list byte -> error + Json.value.

Implicit Types (nc : @NodesCollector F C) (ro : RangeOrder).

(** The collector after a call, by the outcome of the fetch and of the
    parse. *)
Lemma Collect_after ro nc :
  after (Collect json_scan ro nc)
  = match fst (Fetch (fetcher nc)) with
    | (_, Some _) => incScrapeErrors (withFetcher nc (snd (Fetch (fetcher nc))))
    | (sinfo, None) =>
        match snd (parseNodeMetrics json_scan sinfo) with
        | Some _ => incScrapeErrors (withFetcher nc (snd (Fetch (fetcher nc))))
        | None => withFetcher nc (snd (Fetch (fetcher nc)))
        end
    end.
Proof.
  rewrite Collect_unfold.
  destruct (Fetch (fetcher nc)) as [[sinfo [e|]] fetcher']; cbn; [done|].
  destruct (parseNodeMetrics json_scan sinfo) as [nodes [e|]]; cbn; [done|].
  by destruct (collectNodes _ _ _) as [? ?].
Qed.

Lemma Collect_frame ro nc :
  cache (after (Collect json_scan ro nc)) = cache nc
  /\ allDescs (after (Collect json_scan ro nc)) = allDescs nc
  /\ counterDesc (nodeScrapeErrors (after (Collect json_scan ro nc)))
     = counterDesc (nodeScrapeErrors nc)
  /\ (count (nodeScrapeErrors nc)
      <= count (nodeScrapeErrors (after (Collect json_scan ro nc)))
      <= count (nodeScrapeErrors nc) + 1)%N.
Proof.
  rewrite Collect_after.
  destruct (Fetch (fetcher nc)) as [[sinfo [e|]] fetcher']; cbn [fst snd].
  { repeat split; cbn; lia. }
  destruct (parseNodeMetrics json_scan sinfo) as [nodes [e|]]; cbn [fst snd];
    repeat split; cbn; lia.
Qed.

Lemma wellLabelled_allDescs nc nc' :
  allDescs nc' = allDescs nc -> wellLabelled nc -> wellLabelled nc'.
Proof.
  unfold allDescs, wellLabelled. intros Heq.
  apply app_inj_1 in Heq as [-> ->]; done.
Qed.

(** With well-labelled descriptors a call returns. *)
Lemma Collect_returned ro nc :
  wellLabelled nc -> returned (Collect json_scan ro nc) = true.
Proof.
  intros Hwf. rewrite Collect_unfold.
  destruct (Fetch (fetcher nc)) as [[sinfo [e|]] fetcher']; cbn; [done|].
  destruct (parseNodeMetrics json_scan sinfo) as [nodes [e|]]; cbn; [done|].
  by rewrite (collectNodes_returned ro (withFetcher nc fetcher') nodes Hwf).
Qed.

Lemma scrapes_snoc ros ro nc :
  scrapes json_scan (ros ++ [ro]) nc
  = after (Collect json_scan ro (scrapes json_scan ros nc)).
Proof. unfold scrapes. by rewrite fold_left_app. Qed.

Lemma scrapes_frame (ros : list RangeOrder) nc :
  cache (scrapes json_scan ros nc) = cache nc
  /\ allDescs (scrapes json_scan ros nc) = allDescs nc
  /\ counterDesc (nodeScrapeErrors (scrapes json_scan ros nc))
     = counterDesc (nodeScrapeErrors nc)
  /\ (count (nodeScrapeErrors nc)
      <= count (nodeScrapeErrors (scrapes json_scan ros nc))
      <= count (nodeScrapeErrors nc) + N.of_nat (length ros))%N.
Proof.
  induction ros as [|ro ros IH] using rev_ind.
  - cbn. repeat split; lia.
  - rewrite scrapes_snoc, length_app. cbn [length].
    destruct IH as (Hc & Hd & Hn & Hcount).
    destruct (Collect_frame ro (scrapes json_scan ros nc))
      as (Hc' & Hd' & Hn' & Hcount').
    rewrite Hc', Hd', Hn'. repeat split; try done; lia.
Qed.

(** X1.  Over any sequence of calls of [Collect] the cache, the
    descriptors and the name and help of the counter stay as they
    were; the counter never shrinks and grows by at most one for each
    call. *)
Theorem scrapes_change_fetcher_and_counter_only
    (ros : list RangeOrder) nc :
  cache (scrapes json_scan ros nc) = cache nc
  /\ allDescs (scrapes json_scan ros nc) = allDescs nc
  /\ counterDesc (nodeScrapeErrors (scrapes json_scan ros nc))
     = counterDesc (nodeScrapeErrors nc)
  /\ (count (nodeScrapeErrors nc)
      <= count (nodeScrapeErrors (scrapes json_scan ros nc))
      <= count (nodeScrapeErrors nc) + N.of_nat (length ros))%N.
Proof. apply scrapes_frame. Qed.

(** X2.  A collector built by [NewNodeCollecter] never panics in
    [Collect]: whatever the fetcher answers and whichever order the
    runtime ranges in, every call of every sequence of calls
    returns. *)
Theorem NewNodeCollecter_Collect_never_panics
    (newCache : C) (newFetcher : F) (ros : list RangeOrder) ro :
  returned (Collect json_scan ro
              (scrapes json_scan ros (NewNodeCollecter newCache newFetcher)))
  = true.
Proof.
  apply Collect_returned.
  apply (wellLabelled_allDescs (NewNodeCollecter newCache newFetcher)).
  - apply scrapes_frame.
  - apply NewNodeCollecter_wellLabelled.
Qed.

End CollectFrame.

(** ** What [Collect] sends and what [Describe] announces *)

Lemma bind_sendsOnly {A B} P (p : proc A) (k : A -> proc B) :
  sendsOnly P p -> (forall a, sendsOnly P (k a)) -> sendsOnly P (bind p k).
Proof.
  unfold sendsOnly. destruct p as [sent [a|]]; cbn; intros Hp Hk; [|done].
  specialize (Hk a). destruct (k a) as [sent' r]. cbn in *.
  by apply Forall_app.
Qed.

Lemma sendGauge_sendsOnly (P : prometheus.Metric -> Prop) desc v labels :
  P (prometheus.constMetric desc prometheus.GaugeValue v labels) ->
  sendsOnly P (sendGauge desc v labels).
Proof.
  intros HP. unfold sendsOnly, sendGauge, prometheus.MustNewConstMetric.
  case_decide; cbn; by repeat constructor.
Qed.

Lemma when_sendsOnly P b (p : proc unit) : sendsOnly P p -> sendsOnly P (when b p).
Proof. destruct b; [done|]. intros _. constructor. Qed.

Lemma forEach_sendsOnly {A} P (l : list A) (body : A -> proc unit) :
  (forall a, sendsOnly P (body a)) -> sendsOnly P (forEach l body).
Proof.
  intros Hbody. induction l as [|a l IH]; cbn [forEach].
  - constructor.
  - by apply bind_sendsOnly.
Qed.

Section DescribeFacts.

Import prometheus.

Context {F : Type} `{SlurmFetcher F} {C : Type}.
Variable json_scan : list byte -> error + Json.value.

Implicit Types (nc : @NodesCollector F C) (ro : RangeOrder).

(** The body of [Collect] sends gauges built from the fifteen
    descriptors of the collector, whether it returns or panics. *)
Lemma collectNodes_sendsOnly ro nc nodes :
  sendsOnly (fun m => exists desc v labels,
                 m = constMetric desc GaugeValue v labels /\ desc ∈ allDescs nc)
            (collectNodes ro nc nodes).
Proof.
  assert (Hin : forall d, d ∈ allDescs nc ->
            forall v labels,
              (fun m => exists desc v labels,
                   m = constMetric desc GaugeValue v labels /\ desc ∈ allDescs nc)
                (constMetric d GaugeValue v labels)).
  { intros d Hd v labels. by exists d, v, labels. }
  unfold collectNodes, collectPartitions, collectCpus, collectMem, collectPartition.
  repeat first
    [ apply bind_sendsOnly; [|intros _]
    | apply forEach_sendsOnly; intros [? ?]
    | apply when_sendsOnly
    | apply sendGauge_sendsOnly; apply Hin;
      unfold allDescs, labelledDescs, unlabelledDescs; cbn;
      repeat constructor ].
Qed.

(** X3.  Every metric a call of [Collect] sends, also a call that
    panics, is the error counter or a gauge; the counter has the
    descriptor [Describe] sends for it, and each gauge has a
    descriptor that [Describe] sends, with the one exception of the
    descriptor of the total cpu load, which [Describe] leaves out. *)
Theorem Collect_sends_described_metrics ro nc m :
  m ∈ sent (Collect json_scan ro nc) ->
  match m with
  | constMetric desc valType _ _ =>
      valType = GaugeValue /\ (desc ∈ Describe nc \/ desc = totalCpuLoad nc)
  | counterMetric c => counterDesc c ∈ Describe nc
  end.
Proof.
  rewrite Collect_unfold.
  assert (Hcounter : forall nc', counterDesc (nodeScrapeErrors nc')
                                 = counterDesc (nodeScrapeErrors nc) ->
                      counterDesc (nodeScrapeErrors nc') ∈ Describe nc).
  { intros nc' ->. unfold Describe. repeat constructor. }
  destruct (Fetch (fetcher nc)) as [[sinfo [e|]] fetcher']; cbn.
  { intros ->%list_elem_of_singleton. by apply Hcounter. }
  destruct (parseNodeMetrics json_scan sinfo) as [nodes [e|]]; cbn.
  { intros ->%list_elem_of_singleton. by apply Hcounter. }
  pose proof (collectNodes_sendsOnly ro (withFetcher nc fetcher') nodes) as Hs.
  destruct (collectNodes ro (withFetcher nc fetcher') nodes) as [before r].
  unfold sendsOnly in Hs. cbn in *. rewrite elem_of_app.
  intros [Hin| ->%list_elem_of_singleton]; [|by apply Hcounter].
  rewrite Forall_forall in Hs.
  destruct (Hs m Hin) as (desc & v & labels & -> & Hd). split; [done|].
  unfold allDescs, labelledDescs, unlabelledDescs, Describe in *. cbn in Hd.
  rewrite !elem_of_cons, elem_of_nil in Hd. rewrite !elem_of_cons.
  intuition auto 20.
Qed.

(** X4.  On a collector built by [NewNodeCollecter], [Describe] sends
    fifteen descriptors with pairwise distinct names, none of them that
    of [slurm_cpu_load]; yet every call of [Collect] whose fetch and
    parse succeed sends the [slurm_cpu_load] sample. *)
Theorem slurm_cpu_load_is_collected_but_not_described
    (newCache : C) (newFetcher : F) ro sinfo fetcher' nodes :
  Fetch newFetcher = ((sinfo, None), fetcher') ->
  parseNodeMetrics json_scan sinfo = (nodes, None) ->
  length (Describe (NewNodeCollecter newCache newFetcher)) = 15%nat
  /\ NoDup (fqName <$> Describe (NewNodeCollecter newCache newFetcher))
  /\ ("slurm_cpu_load" ∉ (fqName <$> Describe (NewNodeCollecter newCache newFetcher)))
  /\ constMetric (NewDesc "slurm_cpu_load" "Total cpu load" []) GaugeValue
       (CpuSummaryMetrics.Load (fetchNodeTotalCpuMetrics nodes)) []
     ∈ sent (Collect json_scan ro (NewNodeCollecter newCache newFetcher)).
Proof.
  intros HF HP. split; [done|]. split; [|split].
  - apply (bool_decide_unpack _). by vm_compute.
  - apply (bool_decide_unpack _). by vm_compute.
  - rewrite (Collect_success json_scan ro _ sinfo fetcher' nodes);
      [|apply NewNodeCollecter_wellLabelled|done|done].
    cbn [sent]. apply elem_of_app. left. unfold sentNodes.
    rewrite !elem_of_app. right. left. cbn. repeat constructor.
Qed.

End DescribeFacts.

(** An instance: the two-node scenario. *)
Lemma slurm_cpu_load_is_collected_but_not_described_witness :
  Fetch (Stub.mk [([x30], None)] 0) = (([x30], None), Stub.mk [] 1)
  /\ parseNodeMetrics Fixture.scan [x30] = (Fixture.nodes, None)
  /\ ("slurm_cpu_load" ∉ (prometheus.fqName <$> Describe Scenario.twoNodes))
  /\ prometheus.constMetric
       (prometheus.NewDesc "slurm_cpu_load" "Total cpu load" [])
       prometheus.GaugeValue Float64.zero []
     ∈ sent (Collect Fixture.scan listOrder Scenario.twoNodes).
Proof.
  split; [reflexivity|]. split; [vm_compute; reflexivity|].
  destruct (slurm_cpu_load_is_collected_but_not_described Fixture.scan tt
              (Stub.mk [([x30], None)] 0) listOrder [x30] (Stub.mk [] 1)
              Fixture.nodes)
    as (_ & _ & Hnot & Hsent).
  - reflexivity.
  - vm_compute; reflexivity.
  - split; [exact Hnot | exact Hsent].
Defined.

(** ** No sample is sent twice *)

Lemma range_keys_NoDup (ro : RangeOrder) {A} (m : gmap string A) :
  NoDup ((range ro m).*1).
Proof. rewrite (range_entries ro). apply NoDup_fst_map_to_list. Qed.

Section SampleKeys.

Import prometheus.

Context {F : Type} `{SlurmFetcher F} {C : Type}.
Variable json_scan : list byte -> error + Json.value.

Implicit Types (nc : @NodesCollector F C) (ro : RangeOrder).

Lemma sentPartition_keys nc p metric :
  sampleKey <$> sentPartition nc (p, metric)
  = (fun f => inl (partitionDesc nc f, [p]))
      <$> filter (fun f => Float64.gt0 (partition_field f metric) = true) all_fields.
Proof.
  unfold sentPartition. cbn [fst snd].
  induction all_fields as [|f fs IH]; [done|].
  cbn [flat_map]. rewrite fmap_app, IH, filter_cons.
  destruct (Float64.gt0 (partition_field f metric)) eqn:Hpos.
  - by rewrite decide_True.
  - by rewrite decide_False.
Qed.

Lemma sentPartition_keys_NoDup nc entry :
  NoDup (labelledDescs nc) -> NoDup (sampleKey <$> sentPartition nc entry).
Proof.
  intros Hnd. destruct entry as [p metric]. rewrite sentPartition_keys.
  apply NoDup_fmap_2_strong.
  - intros f f' _ _ [= Heq]. by apply (partitionDesc_inj nc).
  - apply NoDup_filter. apply (bool_decide_unpack _). by vm_compute.
Qed.

Lemma elem_of_partition_keys nc entries k :
  k ∈ sampleKey <$> flat_map (sentPartition nc) entries ->
  exists f p, k = inl (partitionDesc nc f, [p]) /\ p ∈ entries.*1.
Proof.
  rewrite list_elem_of_fmap. intros (m & -> & Hin).
  apply list_elem_of_In, in_flat_map in Hin as ([p metric] & Hentry & Hm).
  apply list_elem_of_In, elem_of_sentPartition in Hm as (f & -> & _).
  exists f, p. split; [done|].
  apply list_elem_of_fmap. exists (p, metric). split; [done|].
  by apply list_elem_of_In.
Qed.

Lemma partition_keys_NoDup nc (entries : list (string * PartitionMetrics.t)) :
  NoDup (labelledDescs nc) -> NoDup (entries.*1) ->
  NoDup (sampleKey <$> flat_map (sentPartition nc) entries).
Proof.
  intros Hnd. induction entries as [|[p metric] entries IH]; intros Hkeys.
  - constructor.
  - cbn [flat_map]. rewrite fmap_app. cbn in Hkeys.
    apply NoDup_cons in Hkeys as [Hp Hkeys]. apply NoDup_app. split; [|split].
    + by apply sentPartition_keys_NoDup.
    + intros k Hk Hk'. rewrite sentPartition_keys in Hk.
      apply list_elem_of_fmap in Hk as (f & -> & _).
      apply elem_of_partition_keys in Hk' as (f' & q & [= _ ->] & Hq). done.
    + by apply IH.
Qed.

(** The samples of a call that succeeds have pairwise distinct
    descriptor and label values. *)
Lemma sentNodes_keys_NoDup ro nc nodes :
  NoDup (allDescs nc) -> NoDup (sampleKey <$> sentNodes ro nc nodes).
Proof.
  unfold allDescs. intros Hall. pose proof Hall as Hall'.
  apply NoDup_app in Hall' as (Hlab & _ & Hunl).
  unfold sentNodes. rewrite !fmap_app.
  rewrite (Permutation_app_swap_app (sampleKey <$> [_; _; _])).
  rewrite app_assoc. apply NoDup_app. split; [|split].
  - apply NoDup_app. split; [|split].
    + apply partition_keys_NoDup; [done|]. apply range_keys_NoDup.
    + intros k Hk Hk'.
      apply elem_of_partition_keys in Hk as (f & p & -> & _).
      rewrite <- list_fmap_compose in Hk'.
      apply list_elem_of_fmap in Hk' as ([state cpus] & [= Heq _] & _).
      by apply (partitionDesc_not_perState nc f).
    + rewrite <- list_fmap_compose.
      change (sampleKey ∘ _)
        with ((fun state => inl (B := string) (cpusPerState nc, [state]))
              ∘ (fst : string * float64 -> string)).
      rewrite list_fmap_compose. apply NoDup_fmap_2; [|apply range_keys_NoDup].
      by intros ? ? [= ->].
  - intros k Hk Hk'.
    assert (exists d, k = inl (d, [])) as (d & ->).
    { cbn in Hk'. rewrite !elem_of_cons, elem_of_nil in Hk'.
      destruct Hk' as [->|[->|[->|[->|[->|[->|[]]]]]]]; eauto. }
    apply elem_of_app in Hk as [Hk|Hk].
    + by apply elem_of_partition_keys in Hk as (? & ? & [=] & _).
    + rewrite <- list_fmap_compose in Hk.
      by apply list_elem_of_fmap in Hk as ([? ?] & [=] & _).
  - change (NoDup ((fun d => inl (B := string) (d, @nil string))
                     <$> unlabelledDescs nc)).
    apply NoDup_fmap_2; [|done]. by intros ? ? [= ->].
Qed.

(** X5.  On a collector whose fifteen descriptors are well labelled
    and pairwise distinct, as those [NewNodeCollecter] builds are, a
    call of [Collect] never sends two samples with the same descriptor
    and label values. *)
Theorem Collect_sends_no_sample_twice ro nc :
  wellLabelled nc ->
  NoDup (allDescs nc) ->
  NoDup (sampleKey <$> sent (Collect json_scan ro nc)).
Proof.
  intros Hwf Hall. unfold Collect.
  destruct (Fetch (fetcher nc)) as [[sinfo [e|]] fetcher'] eqn:HF; cbn.
  { apply NoDup_singleton. }
  destruct (parseNodeMetrics json_scan sinfo) as [nodes [e|]] eqn:HP; cbn.
  { apply NoDup_singleton. }
  rewrite (collectNodes_returned ro (withFetcher nc fetcher') nodes Hwf).
  cbn. rewrite fmap_app. apply NoDup_app. split; [|split].
  - by apply sentNodes_keys_NoDup.
  - intros k Hk ->%list_elem_of_singleton.
    apply list_elem_of_fmap in Hk as (m & Hm & Hin).
    apply sentNodes_origin in Hin
      as [(? & ? & ? & _ & -> & _)|[(? & ? & _ & ->)|(? & ? & ->)]];
      discriminate Hm.
  - apply NoDup_singleton.
Qed.

Lemma NewNodeCollecter_allDescs_NoDup (c : C) (f : F) :
  NoDup (allDescs (NewNodeCollecter c f)).
Proof. apply (bool_decide_unpack _). by vm_compute. Qed.

End SampleKeys.

(** An instance: the two-node scenario. *)
Lemma Collect_sends_no_sample_twice_witness :
  wellLabelled Scenario.twoNodes
  /\ NoDup (allDescs Scenario.twoNodes)
  /\ NoDup (sampleKey <$> sent (Collect Fixture.scan listOrder Scenario.twoNodes)).
Proof.
  split; [apply NewNodeCollecter_wellLabelled|].
  split; [apply NewNodeCollecter_allDescs_NoDup|].
  apply (Collect_sends_no_sample_twice Fixture.scan listOrder Scenario.twoNodes).
  - apply NewNodeCollecter_wellLabelled.
  - apply NewNodeCollecter_allDescs_NoDup.
Defined.

(** ** A payload without nodes, and the per-state samples *)

Lemma range_empty (ro : RangeOrder) {A} : range ro (∅ : gmap string A) = [].
Proof.
  apply Permutation.Permutation_nil. symmetry.
  rewrite (range_entries ro). by rewrite map_to_list_empty.
Qed.

Section ClusterSamples.

Import prometheus.

Context {F : Type} `{SlurmFetcher F} {C : Type}.
Variable json_scan : list byte -> error + Json.value.

Implicit Types (nc : @NodesCollector F C) (ro : RangeOrder).

(** X6.  When the payload parses to no node at all, [Collect] sends
    the six cluster totals with value zero and then the error counter,
    unchanged: no partition sample, no per-state sample, no error. *)
Theorem Collect_without_nodes ro nc sinfo fetcher' :
  wellLabelled nc ->
  Fetch (fetcher nc) = ((sinfo, None), fetcher') ->
  parseNodeMetrics json_scan sinfo = ([], None) ->
  Collect json_scan ro nc
  = mkResult (withFetcher nc fetcher')
      [constMetric (totalCpus nc) GaugeValue Float64.zero [];
       constMetric (totalIdleCpus nc) GaugeValue Float64.zero [];
       constMetric (totalCpuLoad nc) GaugeValue Float64.zero [];
       constMetric (totalRealMemory nc) GaugeValue Float64.zero [];
       constMetric (totalFreeMemory nc) GaugeValue Float64.zero [];
       constMetric (totalAllocMemory nc) GaugeValue Float64.zero [];
       counterMetric (nodeScrapeErrors nc)]
      true.
Proof.
  intros Hwf HF HP. rewrite (Collect_success _ _ _ _ _ _ Hwf HF HP).
  unfold sentNodes. cbn [fetchNodePartitionMetrics fetchNodeTotalCpuMetrics
    fetchNodeTotalMemMetrics fold_left CpuSummaryMetrics.PerState
    CpuSummaryMetrics.Total CpuSummaryMetrics.Idle CpuSummaryMetrics.Load].
  by rewrite !range_empty.
Qed.

(** X7.  In a call whose fetch and parse succeed, a per-state sample
    labelled with a state is sent exactly when some node is in that
    state, whatever the total is (a zero total is sent too), and it
    carries the sum of the cpus of the nodes in that state. *)
Theorem perState_sample_for_every_state ro nc sinfo fetcher' nodes state :
  wellLabelled nc ->
  NoDup (labelledDescs nc) ->
  Fetch (fetcher nc) = ((sinfo, None), fetcher') ->
  parseNodeMetrics json_scan sinfo = (nodes, None) ->
  ((exists v, constMetric (cpusPerState nc) GaugeValue v [state]
                ∈ sent (Collect json_scan ro nc))
   <-> exists node, node ∈ nodes /\ NodeMetrics.State node = state)
  /\ (forall v, constMetric (cpusPerState nc) GaugeValue v [state]
                  ∈ sent (Collect json_scan ro nc) ->
                v = Float64.sum (map NodeMetrics.Cpus (nodesInState state nodes))).
Proof.
  intros Hwf Hnd HF HP. rewrite (Collect_success _ _ _ _ _ _ Hwf HF HP).
  cbn [sent].
  assert (Hlook : CpuSummaryMetrics.PerState (fetchNodeTotalCpuMetrics nodes) !! state
                  = match nodesInState state nodes with
                    | [] => None
                    | l => Some (Float64.sum (map NodeMetrics.Cpus l))
                    end).
  { unfold fetchNodeTotalCpuMetrics. rewrite fold_addNodeCpu_PerState.
    cbn [CpuSummaryMetrics.PerState]. by rewrite lookup_empty. }
  assert (Horigin : forall v,
             constMetric (cpusPerState nc) GaugeValue v [state]
               ∈ sentNodes ro nc nodes ++ [counterMetric (nodeScrapeErrors nc)] ->
             CpuSummaryMetrics.PerState (fetchNodeTotalCpuMetrics nodes) !! state
             = Some v).
  { intros v. rewrite elem_of_app, list_elem_of_singleton.
    intros [Hin|Heq]; [|discriminate Heq].
    apply sentNodes_origin in Hin
      as [(q & metric & f & _ & Heq & _)
         |[(state' & cpus & Hl & Heq)|(desc & v' & Heq)]].
    - injection Heq as Hd _ _. symmetry in Hd.
      by apply partitionDesc_not_perState in Hd.
    - by injection Heq as -> ->.
    - discriminate Heq. }
  split; [split|].
  - intros [v Hin]. apply Horigin in Hin. rewrite Hlook in Hin.
    destruct (nodesInState state nodes) as [|node l] eqn:El; [done|].
    assert (Hn : node ∈ nodesInState state nodes)
      by (rewrite El; apply elem_of_cons; by left).
    apply list_elem_of_filter in Hn as [Hs Hn]. by exists node.
  - intros (node & Hin & Hstate).
    assert (Hn : node ∈ nodesInState state nodes)
      by (by apply list_elem_of_filter).
    destruct (nodesInState state nodes) as [|n l] eqn:El;
      [by apply elem_of_nil in Hn|].
    eexists. apply elem_of_app. left. by apply state_sample_sent.
  - intros v Hin. apply Horigin in Hin. rewrite Hlook in Hin.
    destruct (nodesInState state nodes); [done|]. by injection Hin.
Qed.

End ClusterSamples.

(** An instance: the payload [{}]. *)
Lemma Collect_without_nodes_witness :
  wellLabelled Nodeless.emptyObject
  /\ Fetch (fetcher Nodeless.emptyObject) = (([x33], None), Stub.mk [] 1)
  /\ parseNodeMetrics Nodeless.scan [x33] = ([], None)
  /\ parseNodeMetrics Nodeless.scan [x34] = ([], None)
  /\ parseNodeMetrics Nodeless.scan [x35] = ([], None)
  /\ length (sent (Collect Nodeless.scan listOrder Nodeless.emptyObject)) = 7%nat
  /\ returned (Collect Nodeless.scan listOrder Nodeless.emptyObject) = true.
Proof.
  split; [apply NewNodeCollecter_wellLabelled|].
  split; [reflexivity|]. repeat (split; [vm_compute; reflexivity|]).
  rewrite (Collect_without_nodes Nodeless.scan listOrder Nodeless.emptyObject
             [x33] (Stub.mk [] 1)).
  - split; reflexivity.
  - apply NewNodeCollecter_wellLabelled.
  - reflexivity.
  - vm_compute; reflexivity.
Defined.

(** An instance: the payload whose only node has no state; its bucket
    is the empty string. *)
Lemma perState_sample_for_every_state_witness :
  wellLabelled Scenario.stateless
  /\ NoDup (labelledDescs Scenario.stateless)
  /\ Fetch (fetcher Scenario.stateless) = (([x32], None), Stub.mk [] 1)
  /\ (exists nodes,
        parseNodeMetrics Fixture.scan [x32] = (nodes, None)
        /\ ((exists v, prometheus.constMetric (cpusPerState Scenario.stateless)
                         prometheus.GaugeValue v [""]
                         ∈ sent (Collect Fixture.scan listOrder Scenario.stateless))
            <-> exists node, node ∈ nodes /\ NodeMetrics.State node = "")).
Proof.
  split; [apply NewNodeCollecter_wellLabelled|].
  split; [apply NewNodeCollecter_labelledDescs|].
  split; [reflexivity|]. eexists. split; [vm_compute; reflexivity|].
  eapply (perState_sample_for_every_state Fixture.scan listOrder
            Scenario.stateless [x32] (Stub.mk [] 1)).
  - apply NewNodeCollecter_wellLabelled.
  - apply NewNodeCollecter_labelledDescs.
  - reflexivity.
  - vm_compute; reflexivity.
Defined.

(** An instance: the first sample of the two-node cycle. *)
Lemma Collect_sends_described_metrics_witness :
  prometheus.constMetric (partitionCpus Scenario.twoNodes) prometheus.GaugeValue
    (Float64.of_Z 8) ["gpu"]
    ∈ sent (Collect Fixture.scan listOrder Scenario.twoNodes)
  /\ (prometheus.GaugeValue = prometheus.GaugeValue
      /\ (partitionCpus Scenario.twoNodes ∈ Describe Scenario.twoNodes
          \/ partitionCpus Scenario.twoNodes = totalCpuLoad Scenario.twoNodes)).
Proof.
  assert (Hin : prometheus.constMetric (partitionCpus Scenario.twoNodes)
                  prometheus.GaugeValue (Float64.of_Z 8) ["gpu"]
                  ∈ sent (Collect Fixture.scan listOrder Scenario.twoNodes)).
  { rewrite batch_cpus_sent_real_memory_suppressed. apply elem_of_cons. by left. }
  split; [exact Hin|].
  exact (Collect_sends_described_metrics Fixture.scan listOrder
           Scenario.twoNodes _ Hin).
Defined.

(** ** Sequences of scrapes: fetches and failures *)

Section ScrapeSequences.

Import prometheus.

Context {F : Type} `{SlurmFetcher F} {C : Type}.
Variable json_scan : list byte -> error + Json.value.

Implicit Types (nc : @NodesCollector F C) (ro : RangeOrder).

Lemma Collect_count ro nc :
  count (nodeScrapeErrors (after (Collect json_scan ro nc)))
  = (count (nodeScrapeErrors nc)
     + (if scrapeFails json_scan (fetcher nc) then 1 else 0))%N.
Proof.
  rewrite Collect_after. unfold scrapeFails.
  destruct (Fetch (fetcher nc)) as [[sinfo [e|]] fetcher']; cbn [fst snd];
    [done|].
  destruct (parseNodeMetrics json_scan sinfo) as [nodes [e|]]; cbn [fst snd];
    cbn; lia.
Qed.

(** X8.  A sequence of [n] calls of [Collect] makes exactly [n] calls
    of [Fetch], one after the other on the collector's fetcher: no call
    is served from an earlier result, whatever the outcomes are. *)
Theorem scrapes_fetch_once_per_call (ros : list RangeOrder) nc :
  fetcher (scrapes json_scan ros nc) = fetches (length ros) (fetcher nc).
Proof.
  revert nc. induction ros as [|ro ros IH]; intros nc; [done|].
  change (scrapes json_scan (ro :: ros) nc)
    with (scrapes json_scan ros (after (Collect json_scan ro nc))).
  rewrite IH. cbn [length fetches]. f_equal. apply Collect_calls_Fetch.
Qed.

(** X9.  After a sequence of calls of [Collect] the error counter has
    grown by the number of calls whose fetch or parse failed; a call
    that fetched and parsed does not count, also when it goes on to
    panic. *)
Theorem error_counter_counts_failed_scrapes (ros : list RangeOrder) nc :
  count (nodeScrapeErrors (scrapes json_scan ros nc))
  = (count (nodeScrapeErrors nc)
     + failures json_scan (length ros) (fetcher nc))%N.
Proof.
  revert nc. induction ros as [|ro ros IH]; intros nc.
  { cbn. lia. }
  change (scrapes json_scan (ro :: ros) nc)
    with (scrapes json_scan ros (after (Collect json_scan ro nc))).
  rewrite IH, Collect_count. cbn [length failures].
  destruct (Collect_calls_Fetch json_scan ro nc) as [-> _]. lia.
Qed.

End ScrapeSequences.

(** ** A partition that holds every node *)

Lemma listings_once p nodes :
  (forall node, node ∈ nodes ->
     filter (fun q => q = p) (NodeMetrics.Partitions node) = [p]) ->
  listings p nodes = nodes.
Proof.
  unfold listings. induction nodes as [|node nodes IH]; intros Hp; [done|].
  cbn [flat_map]. rewrite listings_node, Hp by (apply elem_of_cons; by left).
  cbn. f_equal. apply IH. intros n Hn. apply Hp, elem_of_cons. by right.
Qed.

(** X10.  When every node lists partition [p] exactly once (among any
    other partitions), the aggregate of [p] and the cluster summaries
    agree bit for bit in the six fields they share: both add the same
    values in the same order. *)
Theorem partition_of_all_nodes_equals_cluster_totals
    (p : string) (nodes : list NodeMetrics.t) :
  nodes <> [] ->
  (forall node, node ∈ nodes ->
     filter (fun q => q = p) (NodeMetrics.Partitions node) = [p]) ->
  exists metric,
    fetchNodePartitionMetrics nodes !! p = Some metric
    /\ PartitionMetrics.Cpus metric
       = CpuSummaryMetrics.Total (fetchNodeTotalCpuMetrics nodes)
    /\ PartitionMetrics.IdleCpus metric
       = CpuSummaryMetrics.Idle (fetchNodeTotalCpuMetrics nodes)
    /\ PartitionMetrics.CpuLoad metric
       = CpuSummaryMetrics.Load (fetchNodeTotalCpuMetrics nodes)
    /\ PartitionMetrics.AllocMemory metric
       = MemSummaryMetrics.AllocMemory (fetchNodeTotalMemMetrics nodes)
    /\ PartitionMetrics.FreeMemory metric
       = MemSummaryMetrics.FreeMemory (fetchNodeTotalMemMetrics nodes)
    /\ PartitionMetrics.RealMemory metric
       = MemSummaryMetrics.RealMemory (fetchNodeTotalMemMetrics nodes).
Proof.
  intros Hne Hp. rewrite fetchNodePartitionMetrics_lookup, (listings_once p nodes Hp).
  destruct nodes as [|node nodes]; [done|]. eexists. split; [done|].
  unfold fetchNodeTotalCpuMetrics, fetchNodeTotalMemMetrics.
  rewrite fold_addNodeCpu_Total, fold_addNodeCpu_Idle, fold_addNodeCpu_Load,
    fold_addNodeMem.
  cbn [MemSummaryMetrics.AllocMemory MemSummaryMetrics.FreeMemory
       MemSummaryMetrics.RealMemory CpuSummaryMetrics.Total
       CpuSummaryMetrics.Idle CpuSummaryMetrics.Load].
  repeat split.
  - exact (partition_field_fold FCpus _ _).
  - exact (partition_field_fold FIdleCpus _ _).
  - exact (partition_field_fold FCpuLoad _ _).
  - exact (partition_field_fold FAllocMemory _ _).
  - exact (partition_field_fold FFreeMemory _ _).
  - exact (partition_field_fold FRealMemory _ _).
Qed.

(** An instance: both nodes of the fixture list partition batch. *)
Lemma partition_of_all_nodes_equals_cluster_totals_witness :
  Fixture.nodes <> []
  /\ (forall node, node ∈ Fixture.nodes ->
        filter (fun q => q = "batch") (NodeMetrics.Partitions node) = ["batch"])
  /\ exists metric,
       fetchNodePartitionMetrics Fixture.nodes !! "batch" = Some metric
       /\ PartitionMetrics.Cpus metric
          = CpuSummaryMetrics.Total (fetchNodeTotalCpuMetrics Fixture.nodes).
Proof.
  assert (Hp : forall node, node ∈ Fixture.nodes ->
            filter (fun q => q = "batch") (NodeMetrics.Partitions node) = ["batch"]).
  { intros node Hin. unfold Fixture.nodes in Hin.
    rewrite !elem_of_cons, elem_of_nil in Hin.
    destruct Hin as [->|[->|[]]]; reflexivity. }
  split; [done|]. split; [exact Hp|].
  destruct (partition_of_all_nodes_equals_cluster_totals "batch" Fixture.nodes
              ltac:(done) Hp) as (metric & Hlook & Hcpus & _).
  by exists metric.
Defined.

(** ** Exact totals: positive samples and reordered summaries *)

Lemma gt0_of_N (n : N) :
  (n < 2 ^ 53)%N -> Float64.gt0 (Float64.of_N n) = true <-> (0 < n)%N.
Proof.
  intros Hn. destruct (N.eq_dec n 0%N) as [->|Hne].
  - split; [discriminate|lia].
  - assert (Hz : (0 < Z.of_N n < 2 ^ 53)%Z).
    { change (2 ^ 53)%Z with (Z.of_N (2 ^ 53)). lia. }
    unfold Float64.of_N. rewrite of_Z_canon by exact Hz.
    split; [lia|reflexivity].
Qed.

Lemma Nsum_pos (l : list N) : (0 < Nsum l)%N <-> exists x, x ∈ l /\ (0 < x)%N.
Proof.
  induction l as [|x l IH].
  - cbn. split; [lia|]. intros (x & Hx & _). by apply elem_of_nil in Hx.
  - change (Nsum (x :: l)) with (x + Nsum l)%N. split.
    + intros Hpos. destruct (N.eq_dec x 0%N) as [->|Hx].
      * rewrite N.add_0_l in Hpos. apply IH in Hpos as (y & Hy & Hpos).
        exists y. split; [apply elem_of_cons; by right|done].
      * exists x. split; [apply elem_of_cons; by left|lia].
    + intros (y & Hy & Hpos). apply elem_of_cons in Hy as [->|Hy]; [lia|].
      assert (0 < Nsum l)%N by (apply IH; eauto). lia.
Qed.

Lemma Nsum_filter_le {A} (g : A -> N) (P : A -> Prop) `{!forall x, Decision (P x)}
    (l : list A) :
  (Nsum (map g (filter P l)) <= Nsum (map g l))%N.
Proof.
  induction l as [|x l IH]; [done|].
  rewrite filter_cons. destruct (decide (P x)); cbn [map];
    change (Nsum (?a :: ?r)) with (a + Nsum r)%N; lia.
Qed.

(** The total of field [f] of a partition, when the values are natural
    numbers and the sums are exact. *)
Lemma partition_total_exact f p nodes metric :
  (forall node, node ∈ nodes -> Float64.nat_valued (node_field f node) = true) ->
  (listedTotal f nodes < 2 ^ 53)%N ->
  fetchNodePartitionMetrics nodes !! p = Some metric ->
  partition_field f metric
  = Float64.of_N (Nsum (map (fun node => Float64.to_N (node_field f node))
                            (listings p nodes)))
  /\ (Nsum (map (fun node => Float64.to_N (node_field f node))
                (listings p nodes)) < 2 ^ 53)%N.
Proof.
  intros Hnat Hbound Hlook. split.
  - pose proof (fetchNodePartitionMetrics_field nodes p f) as Hf.
    rewrite Hlook in Hf. cbn [fmap option_fmap option_map] in Hf.
    rewrite <- (listings_sum_exact f p nodes Hnat Hbound).
    destruct (listings p nodes) as [|n l]; [done|]. by injection Hf.
  - eapply N.le_lt_trans; [|exact Hbound].
    apply (Nsum_listings_le (fun node => Float64.to_N (node_field f node))).
Qed.

Section PositiveSamples.

Import prometheus.

Context {F : Type} `{SlurmFetcher F} {C : Type}.
Variable json_scan : list byte -> error + Json.value.

Implicit Types (nc : @NodesCollector F C) (ro : RangeOrder).

(** X11.  For a field whose values are natural numbers that add up
    exactly (the sum over all listings is below 2^53), a sample of a
    partition is sent exactly when some node that lists the partition
    has a positive value of the field, and it carries the sum of the
    values of the listing nodes. *)
Theorem partition_sample_iff_some_node_positive
    ro nc sinfo fetcher' nodes f p :
  wellLabelled nc ->
  NoDup (labelledDescs nc) ->
  Fetch (fetcher nc) = ((sinfo, None), fetcher') ->
  parseNodeMetrics json_scan sinfo = (nodes, None) ->
  (forall node, node ∈ nodes -> Float64.nat_valued (node_field f node) = true) ->
  (listedTotal f nodes < 2 ^ 53)%N ->
  ((exists v, constMetric (partitionDesc nc f) GaugeValue v [p]
                ∈ sent (Collect json_scan ro nc))
   <-> exists node, node ∈ nodes /\ p ∈ NodeMetrics.Partitions node
                    /\ (0 < Float64.to_N (node_field f node))%N)
  /\ (forall v, constMetric (partitionDesc nc f) GaugeValue v [p]
                  ∈ sent (Collect json_scan ro nc) ->
                v = Float64.of_N
                      (Nsum (map (fun node => Float64.to_N (node_field f node))
                                 (listings p nodes)))).
Proof.
  intros Hwf Hnd HF HP Hnat Hbound.
  rewrite (Collect_success _ _ _ _ _ _ Hwf HF HP). cbn [sent].
  split; [split|].
  - intros [v Hin].
    apply (partition_sample_origin _ _ _ _ _ _ Hnd) in Hin
      as (metric & Hlook & -> & Hpos).
    destruct (partition_total_exact f p nodes metric Hnat Hbound Hlook)
      as [Heq Hlt].
    rewrite Heq in Hpos. apply gt0_of_N in Hpos; [|exact Hlt].
    apply Nsum_pos in Hpos as (x & Hx & Hpos).
    apply list_elem_of_fmap in Hx as (node & -> & Hx).
    apply elem_of_listings_iff in Hx as [Hin Hp]. by exists node.
  - intros (node & Hin & Hp & Hpos).
    assert (Hl : node ∈ listings p nodes) by (by apply elem_of_listings_iff).
    destruct (fetchNodePartitionMetrics nodes !! p) as [metric|] eqn:Hlook.
    2:{ rewrite fetchNodePartitionMetrics_lookup in Hlook.
        destruct (listings p nodes); [by apply elem_of_nil in Hl|done]. }
    destruct (partition_total_exact f p nodes metric Hnat Hbound Hlook)
      as [Heq Hlt].
    exists (partition_field f metric). apply elem_of_app. left.
    apply partition_sample_sent; [done|].
    rewrite Heq. apply gt0_of_N; [exact Hlt|].
    apply Nsum_pos. exists (Float64.to_N (node_field f node)).
    split; [|done]. apply list_elem_of_fmap. by exists node.
  - intros v Hin.
    apply (partition_sample_origin _ _ _ _ _ _ Hnd) in Hin
      as (metric & Hlook & -> & _).
    by destruct (partition_total_exact f p nodes metric Hnat Hbound Hlook).
Qed.

End PositiveSamples.

(** An instance: the cpus of partition gpu in the two-node payload. *)
Lemma partition_sample_iff_some_node_positive_witness :
  wellLabelled Scenario.twoNodes
  /\ NoDup (labelledDescs Scenario.twoNodes)
  /\ Fetch (fetcher Scenario.twoNodes) = (([x30], None), Stub.mk [] 1)
  /\ parseNodeMetrics Fixture.scan [x30] = (Fixture.nodes, None)
  /\ (forall node, node ∈ Fixture.nodes ->
        Float64.nat_valued (node_field FCpus node) = true)
  /\ (listedTotal FCpus Fixture.nodes < 2 ^ 53)%N
  /\ ((exists v, prometheus.constMetric (partitionDesc Scenario.twoNodes FCpus)
                   prometheus.GaugeValue v ["gpu"]
                   ∈ sent (Collect Fixture.scan listOrder Scenario.twoNodes))
      <-> exists node, node ∈ Fixture.nodes /\ "gpu" ∈ NodeMetrics.Partitions node
                       /\ (0 < Float64.to_N (node_field FCpus node))%N).
Proof.
  assert (Hnat : forall node, node ∈ Fixture.nodes ->
            Float64.nat_valued (node_field FCpus node) = true).
  { intros node Hin. unfold Fixture.nodes in Hin.
    rewrite !elem_of_cons, elem_of_nil in Hin.
    destruct Hin as [->|[->|[]]]; vm_compute; reflexivity. }
  assert (Hbound : (listedTotal FCpus Fixture.nodes < 2 ^ 53)%N)
    by (vm_compute; reflexivity).
  assert (HP : parseNodeMetrics Fixture.scan [x30] = (Fixture.nodes, None))
    by (vm_compute; reflexivity).
  split; [apply NewNodeCollecter_wellLabelled|].
  split; [apply NewNodeCollecter_labelledDescs|].
  split; [reflexivity|]. split; [exact HP|]. split; [exact Hnat|].
  split; [exact Hbound|].
  apply (partition_sample_iff_some_node_positive Fixture.scan listOrder
           Scenario.twoNodes [x30] (Stub.mk [] 1) Fixture.nodes FCpus "gpu").
  - apply NewNodeCollecter_wellLabelled.
  - apply NewNodeCollecter_labelledDescs.
  - reflexivity.
  - exact HP.
  - exact Hnat.
  - exact Hbound.
Defined.

Lemma field_sum_exact f (l nodes : list NodeMetrics.t) :
  (forall node, node ∈ nodes -> Float64.nat_valued (node_field f node) = true) ->
  (fieldTotal f nodes < 2 ^ 53)%N ->
  l ⊆ nodes ->
  (Nsum (map (fun node => Float64.to_N (node_field f node)) l)
   <= fieldTotal f nodes)%N ->
  Float64.sum (map (node_field f) l)
  = Float64.of_N (Nsum (map (fun node => Float64.to_N (node_field f node)) l)).
Proof.
  intros Hnat Hbound Hsub Hle. rewrite sum_exact.
  - by rewrite map_map.
  - apply Forall_forall. intros x Hx.
    apply list_elem_of_fmap in Hx as (node & -> & Hin). by apply Hnat, Hsub.
  - rewrite map_map. lia.
Qed.

Lemma fieldTotal_Permutation f nodes nodes' :
  nodes ≡ₚ nodes' -> fieldTotal f nodes = fieldTotal f nodes'.
Proof.
  intros Hperm. unfold fieldTotal. apply Nsum_Permutation. by rewrite Hperm.
Qed.

(** The summaries of nodes whose values are natural numbers that add
    up exactly. *)
Lemma summaries_exact (nodes : list NodeMetrics.t) :
  (forall node f, node ∈ nodes -> f ∈ summary_fields ->
     Float64.nat_valued (node_field f node) = true) ->
  (forall f, f ∈ summary_fields -> (fieldTotal f nodes < 2 ^ 53)%N) ->
  CpuSummaryMetrics.Total (fetchNodeTotalCpuMetrics nodes)
    = Float64.of_N (fieldTotal FCpus nodes)
  /\ CpuSummaryMetrics.Idle (fetchNodeTotalCpuMetrics nodes)
    = Float64.of_N (fieldTotal FIdleCpus nodes)
  /\ CpuSummaryMetrics.Load (fetchNodeTotalCpuMetrics nodes)
    = Float64.of_N (fieldTotal FCpuLoad nodes)
  /\ (forall s,
        CpuSummaryMetrics.PerState (fetchNodeTotalCpuMetrics nodes) !! s
        = match nodesInState s nodes with
          | [] => None
          | l => Some (Float64.of_N (fieldTotal FCpus l))
          end)
  /\ fetchNodeTotalMemMetrics nodes
     = MemSummaryMetrics.mk
         (Float64.of_N (fieldTotal FAllocMemory nodes))
         (Float64.of_N (fieldTotal FFreeMemory nodes))
         (Float64.of_N (fieldTotal FRealMemory nodes)).
Proof.
  intros Hnat Hbound.
  assert (Hall : forall f, f ∈ summary_fields ->
            Float64.sum (map (node_field f) nodes)
            = Float64.of_N (fieldTotal f nodes)).
  { intros f Hf. apply (field_sum_exact f nodes nodes).
    - intros node Hin. by apply Hnat.
    - by apply Hbound.
    - done.
    - done. }
  unfold fetchNodeTotalCpuMetrics, fetchNodeTotalMemMetrics.
  rewrite fold_addNodeCpu_Total, fold_addNodeCpu_Idle, fold_addNodeCpu_Load,
    fold_addNodeMem.
  cbn [CpuSummaryMetrics.Total CpuSummaryMetrics.Idle CpuSummaryMetrics.Load
       MemSummaryMetrics.AllocMemory MemSummaryMetrics.FreeMemory
       MemSummaryMetrics.RealMemory MemSummaryMetrics.new].
  split; [apply (Hall FCpus); unfold summary_fields; set_solver|].
  split; [apply (Hall FIdleCpus); unfold summary_fields; set_solver|].
  split; [apply (Hall FCpuLoad); unfold summary_fields; set_solver|].
  split.
  - intros s. rewrite fold_addNodeCpu_PerState.
    cbn [CpuSummaryMetrics.PerState]. rewrite lookup_empty. cbn [default].
    destruct (nodesInState s nodes) as [|n l] eqn:El; [done|]. f_equal.
    rewrite <- El.
    apply (field_sum_exact FCpus (nodesInState s nodes) nodes).
    + intros node Hin. apply Hnat; [done|]. unfold summary_fields; set_solver.
    + apply Hbound. unfold summary_fields; set_solver.
    + intros node Hin. by apply list_elem_of_filter in Hin as [_ Hin].
    + apply Nsum_filter_le.
  - f_equal.
    + apply (Hall FAllocMemory); unfold summary_fields; set_solver.
    + apply (Hall FFreeMemory); unfold summary_fields; set_solver.
    + apply (Hall FRealMemory); unfold summary_fields; set_solver.
Qed.

Lemma CpuSummaryMetrics_ext (a b : CpuSummaryMetrics.t) :
  CpuSummaryMetrics.Total a = CpuSummaryMetrics.Total b ->
  CpuSummaryMetrics.Idle a = CpuSummaryMetrics.Idle b ->
  CpuSummaryMetrics.Load a = CpuSummaryMetrics.Load b ->
  CpuSummaryMetrics.PerState a = CpuSummaryMetrics.PerState b ->
  a = b.
Proof. destruct a, b. cbn. by intros -> -> -> ->. Qed.

(** X12.  When the six node fields the summaries add are natural
    numbers and, field by field, add up to less than 2^53, each total
    of the two summaries is the float64 of the exact integer sum, each
    per-state bucket is that of the cpus of the nodes in the state, and
    both summaries are the same for every reordering of the nodes. *)
Theorem summaries_exact_and_order_independent (nodes : list NodeMetrics.t) :
  (forall node f, node ∈ nodes -> f ∈ summary_fields ->
     Float64.nat_valued (node_field f node) = true) ->
  (forall f, f ∈ summary_fields -> (fieldTotal f nodes < 2 ^ 53)%N) ->
  fetchNodeTotalCpuMetrics nodes
  = CpuSummaryMetrics.mk
      (Float64.of_N (fieldTotal FCpus nodes))
      (Float64.of_N (fieldTotal FIdleCpus nodes))
      (Float64.of_N (fieldTotal FCpuLoad nodes))
      (CpuSummaryMetrics.PerState (fetchNodeTotalCpuMetrics nodes))
  /\ (forall s cpus,
        CpuSummaryMetrics.PerState (fetchNodeTotalCpuMetrics nodes) !! s = Some cpus ->
        cpus = Float64.of_N (fieldTotal FCpus (nodesInState s nodes)))
  /\ fetchNodeTotalMemMetrics nodes
     = MemSummaryMetrics.mk
         (Float64.of_N (fieldTotal FAllocMemory nodes))
         (Float64.of_N (fieldTotal FFreeMemory nodes))
         (Float64.of_N (fieldTotal FRealMemory nodes))
  /\ (forall nodes', nodes ≡ₚ nodes' ->
        fetchNodeTotalCpuMetrics nodes' = fetchNodeTotalCpuMetrics nodes
        /\ fetchNodeTotalMemMetrics nodes' = fetchNodeTotalMemMetrics nodes).
Proof.
  intros Hnat Hbound.
  destruct (summaries_exact nodes Hnat Hbound)
    as (HT & HI & HL & HS & HM).
  split; [by apply CpuSummaryMetrics_ext|].
  split.
  { intros s cpus Hlook. rewrite HS in Hlook.
    destruct (nodesInState s nodes); [done|]. by injection Hlook. }
  split; [exact HM|].
  intros nodes' Hperm.
  assert (Hnat' : forall node f, node ∈ nodes' -> f ∈ summary_fields ->
            Float64.nat_valued (node_field f node) = true).
  { intros node f Hin. apply Hnat. by rewrite Hperm. }
  assert (Hbound' : forall f, f ∈ summary_fields ->
            (fieldTotal f nodes' < 2 ^ 53)%N).
  { intros f Hf. rewrite <- (fieldTotal_Permutation f nodes nodes' Hperm).
    by apply Hbound. }
  destruct (summaries_exact nodes' Hnat' Hbound')
    as (HT' & HI' & HL' & HS' & HM').
  split.
  - apply CpuSummaryMetrics_ext.
    + by rewrite HT, HT', (fieldTotal_Permutation _ _ _ Hperm).
    + by rewrite HI, HI', (fieldTotal_Permutation _ _ _ Hperm).
    + by rewrite HL, HL', (fieldTotal_Permutation _ _ _ Hperm).
    + apply map_eq. intros s. rewrite HS, HS'.
      assert (Hf : nodesInState s nodes ≡ₚ nodesInState s nodes')
        by (unfold nodesInState; by rewrite Hperm).
      destruct (nodesInState s nodes) as [|n l] eqn:El.
      { apply Permutation.Permutation_nil in Hf. by rewrite Hf. }
      destruct (nodesInState s nodes') as [|n' l'] eqn:El'.
      { symmetry in Hf. by apply Permutation.Permutation_nil in Hf. }
      f_equal. f_equal. symmetry. by apply fieldTotal_Permutation.
  - rewrite HM, HM'. by rewrite !(fieldTotal_Permutation _ _ _ Hperm).
Qed.

(** An instance: the two nodes of the fixture and their exchange. *)
Lemma summaries_exact_and_order_independent_witness :
  (forall node f, node ∈ Fixture.nodes -> f ∈ summary_fields ->
     Float64.nat_valued (node_field f node) = true)
  /\ (forall f, f ∈ summary_fields -> (fieldTotal f Fixture.nodes < 2 ^ 53)%N)
  /\ CpuSummaryMetrics.Total (fetchNodeTotalCpuMetrics Fixture.nodes)
     = Float64.of_N 12
  /\ fetchNodeTotalCpuMetrics [Fixture.node2; Fixture.node1]
     = fetchNodeTotalCpuMetrics Fixture.nodes.
Proof.
  assert (Hnat : forall node f, node ∈ Fixture.nodes -> f ∈ summary_fields ->
            Float64.nat_valued (node_field f node) = true).
  { intros node f Hin _. unfold Fixture.nodes in Hin.
    rewrite !elem_of_cons, elem_of_nil in Hin.
    destruct Hin as [->|[->|[]]]; destruct f; vm_compute; reflexivity. }
  assert (Hbound : forall f, f ∈ summary_fields ->
            (fieldTotal f Fixture.nodes < 2 ^ 53)%N).
  { intros f _. destruct f; vm_compute; reflexivity. }
  split; [exact Hnat|]. split; [exact Hbound|].
  destruct (summaries_exact_and_order_independent Fixture.nodes Hnat Hbound)
    as (Hcpu & _ & _ & Hperm).
  split.
  - rewrite Hcpu. reflexivity.
  - apply (Hperm [Fixture.node2; Fixture.node1]). apply perm_swap.
Defined.

(** ** The order of [range] *)

Lemma flat_map_Permutation {A B} (f : A -> list B) (l l' : list A) :
  l ≡ₚ l' -> flat_map f l ≡ₚ flat_map f l'.
Proof.
  induction 1; cbn [flat_map].
  - done.
  - by f_equiv.
  - rewrite !app_assoc. f_equiv. apply Permutation_app_comm.
  - etrans; eauto.
Qed.

Lemma range_Permutation (ro ro' : RangeOrder) {A} (m : gmap string A) :
  range ro m ≡ₚ range ro' m.
Proof. by rewrite (range_entries ro), (range_entries ro'). Qed.

Section RangeOrders.

Import prometheus.

Context {F : Type} `{SlurmFetcher F} {C : Type}.
Variable json_scan : list byte -> error + Json.value.

Implicit Types (nc : @NodesCollector F C) (ro : RangeOrder).

Lemma sentNodes_Permutation ro ro' nc nodes :
  sentNodes ro nc nodes ≡ₚ sentNodes ro' nc nodes.
Proof.
  unfold sentNodes.
  apply Permutation_app; [apply flat_map_Permutation, range_Permutation|].
  apply Permutation_app; [done|]. apply Permutation_app; [|done].
  apply Permutation_map, range_Permutation.
Qed.

(** X13.  With matching label counts, the order in which the two
    [range] loops visit their maps changes only the order of the
    samples: two calls from the same collector send the same samples,
    each as often, and leave the same collector. *)
Theorem Collect_samples_independent_of_range_order ro ro' nc :
  wellLabelled nc ->
  sent (Collect json_scan ro nc) ≡ₚ sent (Collect json_scan ro' nc)
  /\ after (Collect json_scan ro nc) = after (Collect json_scan ro' nc)
  /\ returned (Collect json_scan ro nc) = returned (Collect json_scan ro' nc).
Proof.
  intros Hwf.
  destruct (Fetch (fetcher nc)) as [[sinfo [e|]] fetcher'] eqn:HF.
  { unfold Collect. rewrite HF. done. }
  destruct (parseNodeMetrics json_scan sinfo) as [nodes [e|]] eqn:HP.
  { unfold Collect. rewrite HF. cbn. rewrite HP. done. }
  rewrite !(Collect_success _ _ _ _ _ _ Hwf HF HP). cbn [sent after returned].
  split; [|done]. f_equiv. apply sentNodes_Permutation.
Qed.

End RangeOrders.

(** An instance: the two-node cycle with the partitions visited in
    either order. *)
Lemma Collect_samples_independent_of_range_order_witness :
  wellLabelled Scenario.twoNodes
  /\ sent (Collect Fixture.scan listOrder Scenario.twoNodes)
     <> sent (Collect Fixture.scan reverseOrder Scenario.twoNodes)
  /\ sent (Collect Fixture.scan listOrder Scenario.twoNodes)
     ≡ₚ sent (Collect Fixture.scan reverseOrder Scenario.twoNodes).
Proof.
  split; [apply NewNodeCollecter_wellLabelled|].
  split; [vm_compute; discriminate|].
  apply (Collect_samples_independent_of_range_order Fixture.scan
           listOrder reverseOrder Scenario.twoNodes).
  apply NewNodeCollecter_wellLabelled.
Defined.

(** ** Payloads with a malformed node entry or with unknown members *)

Lemma parseNodeMetrics_error json_scan data nodes err :
  parseNodeMetrics json_scan data = (nodes, Some err) -> nodes = [].
Proof.
  unfold parseNodeMetrics.
  destruct (json_Unmarshal json_scan data sinfoResponse.zero) as [e|squeue].
  - by intros [= <- _].
  - destruct (sinfoResponse.Errors squeue); [done|]. by intros [= <- _].
Qed.

Section MalformedEntry.

Import prometheus.

Context {F : Type} `{SlurmFetcher F} {C : Type}.
Variable json_scan : list byte -> error + Json.value.

Implicit Types (nc : @NodesCollector F C) (ro : RangeOrder).

(** X14.  One node entry that does not fit [NodeMetrics] fails the
    whole scrape: the parse returns an error and no node at all, also
    not the nodes whose entries are well formed, and [Collect] sends
    nothing but the error counter, grown by one. *)
Theorem malformed_node_entry_fails_scrape
    ro nc sinfo fetcher' doc entry e :
  Fetch (fetcher nc) = ((sinfo, None), fetcher') ->
  json_scan sinfo = inr doc ->
  entry ∈ nodeEntries doc ->
  NodeMetricsJson.decode entry NodeMetrics.zero = inl e ->
  (exists err, parseNodeMetrics json_scan sinfo = ([], Some err))
  /\ sent (Collect json_scan ro nc) = [counterMetric (Inc (nodeScrapeErrors nc))].
Proof.
  intros HF Hscan Hin Hbad.
  assert (HP : exists err, parseNodeMetrics json_scan sinfo = ([], Some err)).
  { destruct (parseNodeMetrics json_scan sinfo) as [nodes [err|]] eqn:HP.
    - apply parseNodeMetrics_error in HP as HN. subst nodes. by exists err.
    - apply parseNodeMetrics_success in HP as (squeue & Hdec & _ & _).
      unfold json_Unmarshal in Hdec. rewrite Hscan in Hdec.
      destruct (decode_nodeEntries doc squeue entry Hdec Hin) as (node & Hok & _).
      congruence. }
  split; [exact HP|]. destruct HP as [err HP].
  unfold Collect. rewrite HF. cbn. by rewrite HP.
Qed.

End MalformedEntry.

(** An instance: the second of two entries gives its cpus as a string. *)
Lemma malformed_node_entry_fails_scrape_witness :
  exists entry e,
    Fetch (fetcher Variants.malformed) = (([x37], None), Stub.mk [] 1)
    /\ Variants.scan [x37] = inr Variants.malformedDoc
    /\ entry ∈ nodeEntries Variants.malformedDoc
    /\ NodeMetricsJson.decode entry NodeMetrics.zero = inl e
    /\ (exists err, parseNodeMetrics Variants.scan [x37] = ([], Some err))
    /\ sent (Collect Variants.scan listOrder Variants.malformed)
       = [prometheus.counterMetric
            (prometheus.Inc (nodeScrapeErrors Variants.malformed))].
Proof.
  exists (Json.Object [("hostname", Json.String "node2");
                       ("cpus", Json.String "8");
                       ("partitions", Json.Array [Json.String "batch"])]).
  exists (UnmarshalTypeError "string" "float64" "NodeMetrics" "cpus").
  assert (Hin : Json.Object [("hostname", Json.String "node2");
                             ("cpus", Json.String "8");
                             ("partitions", Json.Array [Json.String "batch"])]
                ∈ nodeEntries Variants.malformedDoc).
  { vm_compute. apply elem_of_cons. right. apply elem_of_cons. by left. }
  split; [reflexivity|]. split; [reflexivity|]. split; [exact Hin|].
  split; [vm_compute; reflexivity|].
  eapply (malformed_node_entry_fails_scrape Variants.scan listOrder
            Variants.malformed [x37] (Stub.mk [] 1) Variants.malformedDoc _
            (UnmarshalTypeError "string" "float64" "NodeMetrics" "cpus")).
  - reflexivity.
  - reflexivity.
  - exact Hin.
  - vm_compute; reflexivity.
Defined.

Lemma decode_members_known {A T} (tags : list (string * T))
    (store : string -> Json.value -> A -> error + A) members cur :
  (forall key v a, select_field tags key = None -> store key v a = inr a) ->
  Json.decode_members store
    (filter (fun kv => knownMember tags kv = true) members) cur
  = Json.decode_members store members cur.
Proof.
  intros Hskip. revert cur.
  induction members as [|[key v] members IH]; intros cur; [done|].
  rewrite filter_cons.
  destruct (decide (knownMember tags (key, v) = true)) as [Hk|Hk];
    cbn [Json.decode_members].
  - destruct (store key v cur); [done|]. apply IH.
  - rewrite Hskip; [apply IH|].
    unfold knownMember in Hk. cbn [fst] in Hk.
    by destruct (select_field tags key).
Qed.

Lemma decodeCell_pruneNode ctx entry c :
  NodeMetricsJson.decodeCell ctx (pruneNode entry) c
  = NodeMetricsJson.decodeCell ctx entry c.
Proof.
  destruct entry as [| | | | |members]; try done. cbn.
  apply decode_members_known. intros key v a Hsel.
  unfold NodeMetricsJson.store. by rewrite Hsel.
Qed.

Lemma decode_elements_pruneNode ctx l cells :
  Json.decode_elements (NodeMetricsJson.decodeCell ctx) NodeMetricsJson.zeroCell
    (map pruneNode l) cells
  = Json.decode_elements (NodeMetricsJson.decodeCell ctx) NodeMetricsJson.zeroCell
      l cells.
Proof.
  revert cells. induction l as [|v l IH]; intros cells; [done|].
  cbn [map Json.decode_elements]. by rewrite decodeCell_pruneNode, IH.
Qed.

Lemma store_pruneMember ctx kv m :
  sinfoResponse.store ctx (pruneMember kv).1 (pruneMember kv).2 m
  = sinfoResponse.store ctx kv.1 kv.2 m.
Proof.
  destruct kv as [key v]. unfold pruneMember. cbn [fst snd].
  destruct (select_field sinfoResponse.tags key) as [[]|] eqn:Hsel; try done.
  destruct v as [| | | |entries|]; try done. cbn [fst snd].
  unfold sinfoResponse.store. rewrite Hsel.
  destruct entries as [|v0 entries]; [done|].
  cbn [map Json.decode_slice].
  change (pruneNode v0 :: map pruneNode entries) with (map pruneNode (v0 :: entries)).
  by rewrite decode_elements_pruneNode.
Qed.

Lemma decode_members_pruneMember ctx members m :
  Json.decode_members (sinfoResponse.store ctx) (map pruneMember members) m
  = Json.decode_members (sinfoResponse.store ctx) members m.
Proof.
  revert m. induction members as [|kv members IH]; intros m; [done|].
  cbn [map Json.decode_members].
  pose proof (store_pruneMember ctx kv m) as Hs.
  destruct (pruneMember kv) as [key' v'], kv as [key v]. cbn [fst snd] in Hs.
  rewrite Hs. destruct (sinfoResponse.store ctx key v m); [done|]. apply IH.
Qed.

Lemma decode_prune doc r :
  sinfoResponse.decode (prune doc) r = sinfoResponse.decode doc r.
Proof.
  unfold sinfoResponse.decode. f_equal.
  destruct doc as [| | | | |members]; try done. cbn.
  rewrite decode_members_pruneMember. apply decode_members_known.
  intros key v a Hsel. unfold sinfoResponse.store. by rewrite Hsel.
Qed.

(** X15.  Members of the payload and of its node entries whose keys
    select no field of [sinfoResponse] or [NodeMetrics] do not matter
    to [parseNodeMetrics], whatever their values are: a payload and the
    same payload without them parse to the same nodes or the same
    error. *)
Theorem parseNodeMetrics_ignores_unknown_members
    (json_scan : list byte -> error + Json.value) data data' doc :
  json_scan data = inr doc ->
  json_scan data' = inr (prune doc) ->
  parseNodeMetrics json_scan data' = parseNodeMetrics json_scan data.
Proof.
  intros Hdoc Hpruned. unfold parseNodeMetrics, json_Unmarshal.
  by rewrite Hdoc, Hpruned, decode_prune.
Qed.

(** An instance: the two-node payload with a top-level member and two
    node members the structs have no field for. *)
Lemma parseNodeMetrics_ignores_unknown_members_witness :
  Variants.scan [x36] = inr Variants.verboseDoc
  /\ Variants.scan [x30] = inr (prune Variants.verboseDoc)
  /\ prune Variants.verboseDoc <> Variants.verboseDoc
  /\ parseNodeMetrics Variants.scan [x30] = parseNodeMetrics Variants.scan [x36]
  /\ parseNodeMetrics Variants.scan [x36] = (Fixture.nodes, None).
Proof.
  split; [reflexivity|]. split; [vm_compute; reflexivity|].
  split; [vm_compute; discriminate|].
  split; [|vm_compute; reflexivity].
  apply (parseNodeMetrics_ignores_unknown_members Variants.scan [x36] [x30]
           Variants.verboseDoc).
  - reflexivity.
  - vm_compute; reflexivity.
Defined.

(** ** Keys and tags *)

Lemma matches_fold tag key :
  Json.matches tag key = true <-> Json.foldName key = Json.foldName tag.
Proof.
  unfold Json.matches. rewrite orb_true_iff, !bool_decide_eq_true.
  split; [intros [->|]; done|by right].
Qed.

Lemma select_field_fold {T} (tags : list (string * T)) key t :
  NoDup ((fun tag => Json.foldName tag.1) <$> tags) ->
  select_field tags key = Some t
  <-> exists name, (name, t) ∈ tags /\ Json.foldName key = Json.foldName name.
Proof.
  unfold select_field. induction tags as [|[name0 t0] tags IH]; intros Hnd.
  - cbn. split; [done|]. intros (name & Hin & _). by apply elem_of_nil in Hin.
  - cbn [fmap list_fmap] in Hnd. apply NoDup_cons in Hnd as [Hnot Hnd].
    cbn [List.find fst].
    destruct (Json.matches name0 key) eqn:Hm.
    + apply matches_fold in Hm. cbn. split.
      * intros [= <-]. exists name0. split; [apply elem_of_cons; by left|done].
      * intros (name & Hin & Hfold). apply elem_of_cons in Hin as [[= -> ->]|Hin];
          [done|].
        exfalso. apply Hnot. apply list_elem_of_fmap. exists (name, t).
        split; [cbn; congruence|done].
    + rewrite (IH Hnd). split.
      * intros (name & Hin & Hfold). exists name.
        split; [apply elem_of_cons; by right|done].
      * intros (name & Hin & Hfold). apply elem_of_cons in Hin as [[= -> ->]|Hin].
        -- apply matches_fold in Hfold. congruence.
        -- by exists name.
Qed.

(** X16.  A member of the payload fills the field whose tag equals its
    key up to case (and up to the two runes that fold to an ASCII
    letter), and no other: no two tags of [NodeMetrics], and no two of
    [sinfoResponse], differ by case only. *)
Theorem keys_select_fields_by_case_folding (key : string) :
  (forall t, select_field NodeMetricsJson.tags key = Some t
             <-> exists name, (name, t) ∈ NodeMetricsJson.tags
                              /\ Json.foldName key = Json.foldName name)
  /\ (forall t, select_field sinfoResponse.tags key = Some t
                <-> exists name, (name, t) ∈ sinfoResponse.tags
                                 /\ Json.foldName key = Json.foldName name).
Proof.
  split; intros t; apply select_field_fold; apply (bool_decide_unpack _);
    vm_compute; reflexivity.
Qed.

(** ** The cluster totals *)

Lemma NoDup_six {A} (a b c d e g : A) :
  NoDup [a; b; c; d; e; g] ->
  a <> b /\ a <> c /\ a <> d /\ a <> e /\ a <> g
  /\ b <> c /\ b <> d /\ b <> e /\ b <> g
  /\ c <> d /\ c <> e /\ c <> g
  /\ d <> e /\ d <> g
  /\ e <> g.
Proof.
  rewrite !NoDup_cons, !elem_of_cons, !elem_of_nil. intuition congruence.
Qed.

Section ClusterTotals.

Import prometheus.

Context {F : Type} `{SlurmFetcher F} {C : Type}.
Variable json_scan : list byte -> error + Json.value.

Implicit Types (nc : @NodesCollector F C) (ro : RangeOrder).

Lemma summary_field_sum nodes f :
  f ∈ summary_fields ->
  match f with
  | FCpus => CpuSummaryMetrics.Total (fetchNodeTotalCpuMetrics nodes)
  | FIdleCpus => CpuSummaryMetrics.Idle (fetchNodeTotalCpuMetrics nodes)
  | FCpuLoad => CpuSummaryMetrics.Load (fetchNodeTotalCpuMetrics nodes)
  | FRealMemory => MemSummaryMetrics.RealMemory (fetchNodeTotalMemMetrics nodes)
  | FFreeMemory => MemSummaryMetrics.FreeMemory (fetchNodeTotalMemMetrics nodes)
  | FAllocMemory => MemSummaryMetrics.AllocMemory (fetchNodeTotalMemMetrics nodes)
  | _ => Float64.zero
  end = Float64.sum (map (node_field f) nodes).
Proof.
  intros Hf. unfold fetchNodeTotalCpuMetrics, fetchNodeTotalMemMetrics.
  destruct f;
    rewrite ?fold_addNodeCpu_Total, ?fold_addNodeCpu_Idle, ?fold_addNodeCpu_Load,
      ?fold_addNodeMem; try done;
    exfalso; unfold summary_fields in Hf;
    rewrite !elem_of_cons, elem_of_nil in Hf; intuition discriminate.
Qed.

(** X17.  A call whose fetch and parse succeed sends, for each of the
    six summed node fields, the cluster total under the descriptor of
    that field, without labels and also when it is zero: the sum of the
    field over the nodes in input order.  When the six descriptors are
    distinct, no other value is sent under it. *)
Theorem Collect_sends_cluster_totals ro nc sinfo fetcher' nodes f desc :
  wellLabelled nc ->
  Fetch (fetcher nc) = ((sinfo, None), fetcher') ->
  parseNodeMetrics json_scan sinfo = (nodes, None) ->
  totalDesc nc f = Some desc ->
  constMetric desc GaugeValue (Float64.sum (map (node_field f) nodes)) []
    ∈ sent (Collect json_scan ro nc)
  /\ (NoDup (unlabelledDescs nc) ->
      forall valType v, constMetric desc valType v [] ∈ sent (Collect json_scan ro nc) ->
                        v = Float64.sum (map (node_field f) nodes)).
Proof.
  intros Hwf HF HP Hdesc. rewrite (Collect_success _ _ _ _ _ _ Hwf HF HP).
  cbn [sent].
  assert (Hf : f ∈ summary_fields).
  { unfold summary_fields. rewrite !elem_of_cons.
    destruct f; try discriminate Hdesc; auto 10. }
  pose proof (summary_field_sum nodes f Hf) as Hsum.
  split.
  - rewrite <- Hsum. unfold sentNodes. rewrite !elem_of_app, !elem_of_cons.
    destruct f; try discriminate Hdesc; injection Hdesc as <-; auto 10.
  - intros Hnd valType v.
    apply NoDup_six in Hnd.
    rewrite <- Hsum. unfold sentNodes.
    rewrite !elem_of_app, !elem_of_cons, !elem_of_nil, list_elem_of_fmap.
    rewrite list_elem_of_In, in_flat_map.
    intros [[([q metric] & _ & Hm)
            |[Hm|[([state cpus] & Hm & _)|Hm]]]|Hm].
    + apply list_elem_of_In, elem_of_sentPartition in Hm as (f' & Heq & _).
      discriminate Heq.
    + destruct f; try discriminate Hdesc; injection Hdesc as <-;
        destruct Hm as [Hm|[Hm|[Hm|[]]]]; simplify_eq;
        first [done | exfalso; intuition congruence].
    + discriminate Hm.
    + destruct f; try discriminate Hdesc; injection Hdesc as <-;
        destruct Hm as [Hm|[Hm|[Hm|[]]]]; simplify_eq;
        first [done | exfalso; intuition congruence].
    + destruct Hm as [Hm|[]]. discriminate Hm.
Qed.

End ClusterTotals.

(** An instance: the total of cpus in the two-node cycle. *)
Lemma Collect_sends_cluster_totals_witness :
  wellLabelled Scenario.twoNodes
  /\ Fetch (fetcher Scenario.twoNodes) = (([x30], None), Stub.mk [] 1)
  /\ parseNodeMetrics Fixture.scan [x30] = (Fixture.nodes, None)
  /\ totalDesc Scenario.twoNodes FCpus = Some (totalCpus Scenario.twoNodes)
  /\ prometheus.constMetric (totalCpus Scenario.twoNodes) prometheus.GaugeValue
       (Float64.sum (map (node_field FCpus) Fixture.nodes)) []
       ∈ sent (Collect Fixture.scan listOrder Scenario.twoNodes).
Proof.
  assert (HP : parseNodeMetrics Fixture.scan [x30] = (Fixture.nodes, None))
    by (vm_compute; reflexivity).
  split; [apply NewNodeCollecter_wellLabelled|].
  split; [reflexivity|]. split; [exact HP|]. split; [reflexivity|].
  apply (Collect_sends_cluster_totals Fixture.scan listOrder Scenario.twoNodes
           [x30] (Stub.mk [] 1) Fixture.nodes FCpus (totalCpus Scenario.twoNodes)).
  - apply NewNodeCollecter_wellLabelled.
  - reflexivity.
  - exact HP.
  - reflexivity.
Defined.

(** ** Interleaved invocations, whatever the schedule *)

Section Schedules.

Import prometheus.

Context {F : Type} `{SlurmFetcher F} {C : Type}.
Variable json_scan : list byte -> error + Json.value.

Implicit Types (nc : @NodesCollector F C) (ro : RangeOrder).

(** X18.  However the steps of [n] concurrent invocations of [Collect]
    are interleaved, at every point the fetcher has been called once
    for every invocation that is inside [Fetch] or has returned from
    it, the cache is as it was, and every one of these calls whose
    fetch or parse fails has been counted once by the error counter or
    is still in flight; so once no call is in flight the counter has
    grown by the number of failed calls. *)
Theorem every_schedule_fetches_once_per_call ro (schedule : list nat) nc n :
  fetcher (collector (run json_scan ro schedule (start nc n)))
  = fetches (inFlight (run json_scan ro schedule (start nc n))
             + returnedCount (run json_scan ro schedule (start nc n)))
            (fetcher nc)
  /\ (count (nodeScrapeErrors (collector (run json_scan ro schedule (start nc n))))
      + pendingFailures json_scan (run json_scan ro schedule (start nc n))
      = count (nodeScrapeErrors nc)
        + failures json_scan
            (inFlight (run json_scan ro schedule (start nc n))
             + returnedCount (run json_scan ro schedule (start nc n)))
            (fetcher nc))%N
  /\ (inFlight (run json_scan ro schedule (start nc n)) = 0 ->
      count (nodeScrapeErrors (collector (run json_scan ro schedule (start nc n))))
      = (count (nodeScrapeErrors nc)
         + failures json_scan
             (returnedCount (run json_scan ro schedule (start nc n)))
             (fetcher nc))%N)
  /\ cache (collector (run json_scan ro schedule (start nc n))) = cache nc
  /\ inFlight (run json_scan ro schedule (start nc n))
     + returnedCount (run json_scan ro schedule (start nc n)) <= n.
Proof.
  destruct (run_consistent json_scan ro nc schedule _ (start_consistent json_scan nc n))
    as [(Hf & Hc & Hn) Hlen].
  split; [exact Hf|]. split; [exact Hn|]. split; [|split; [exact Hc|]].
  - intros Hzero. rewrite Hzero in Hn. cbn [Nat.add] in Hn.
    assert (Hpend : pendingFailures json_scan
                      (run json_scan ro schedule (start nc n)) = 0%N).
    { unfold pendingFailures. unfold inFlight in Hzero.
      apply length_zero_iff_nil in Hzero.
      assert (Hnone : forall l : list invocation,
                 List.filter isInFetch l = [] ->
                 List.filter (fun v => match v with
                                       | InFetch fetched => answerFails json_scan fetched
                                       | _ => false
                                       end) l = []).
      { induction l as [|v l IH]; [done|]. cbn.
        destruct v; cbn; try done. }
      by rewrite (Hnone _ Hzero). }
    rewrite Hpend in Hn. lia.
  - unfold inFlight, returnedCount.
    assert (Hsplit : forall l : list invocation,
               length (List.filter isInFetch l) + length (List.filter hasReturned l)
               <= length l).
    { induction l as [|v l IH]; [done|]. destruct v; cbn; lia. }
    pose proof (Hsplit (invocations (run json_scan ro schedule (start nc n)))) as Hle.
    rewrite Hlen in Hle. unfold start in Hle. cbn [invocations] in Hle.
    by rewrite length_replicate in Hle.
Qed.

End Schedules.

(** ** Host names *)

Lemma addNode_anonymous partitions node :
  addNode partitions (anonymous node) = addNode partitions node.
Proof.
  unfold addNode. cbn [anonymous NodeMetrics.Partitions].
  revert partitions.
  induction (NodeMetrics.Partitions node) as [|p ps IH]; intros partitions;
    [done|].
  cbn [fold_left]. by rewrite IH.
Qed.

Lemma fold_left_fmap_ext {A B} (f : A -> B -> A) (g : B -> B) (l : list B) (a : A) :
  (forall a b, f a (g b) = f a b) ->
  fold_left f (g <$> l) a = fold_left f l a.
Proof.
  intros Hfg. revert a. induction l as [|b l IH]; intros a; [done|].
  cbn [fmap list_fmap fold_left]. by rewrite Hfg, <- IH.
Qed.

(** X19.  The three aggregates never read a node's host name or
    architecture: they are the same for the nodes with these two
    fields blanked, so no metric can tell nodes apart by name. *)
Theorem aggregates_ignore_hostname_and_architecture (nodes : list NodeMetrics.t) :
  fetchNodePartitionMetrics (anonymous <$> nodes) = fetchNodePartitionMetrics nodes
  /\ fetchNodeTotalCpuMetrics (anonymous <$> nodes) = fetchNodeTotalCpuMetrics nodes
  /\ fetchNodeTotalMemMetrics (anonymous <$> nodes) = fetchNodeTotalMemMetrics nodes.
Proof.
  split; [|split].
  - apply fold_left_fmap_ext. intros a b. apply addNode_anonymous.
  - by apply fold_left_fmap_ext.
  - by apply fold_left_fmap_ext.
Qed.
